(** * Credit_Chain_Pro: a shallow embedding of the four ledger contracts

    The development follows the four Solidity contracts of the repository:
      - [CreditScoreRegistry], module [Registry];
      - [LenderPortal], module [Portal];
      - [DataMarketplace], module [Marketplace];
      - [FederatedLearningCoordinator], module [Coordinator].

    Conventions.
      - [uint256] and [uint8] values are integers of [Z]; Solidity ^0.8
        arithmetic is checked, so every [+], [-], [*] of the source is a
        [checked_*] operation that reverts with [Panic(0x11)] out of range.
      - A [mapping] is a total function (absent keys read as the zero value),
        updated with stdpp's [<[k:=v]>] on functions.
      - An external or public function is a function from the call
        environment ([msg.sender], [msg.value], [block.timestamp]), its
        arguments and the contract state to a [result]; [Revert] carries the
        reason.  A reverted call leaves the ledger as it was: [transact].
      - Events are recorded only for the coordinator, where the properties
        speak about them.  Ether balances are kept by the ledger and not
        modelled, so the functions that only move ether ([withdrawFees],
        [emergencyWithdraw]) are left out.
      - [nonReentrant] guards calls that cannot be re-entered in this model
        (the collaborators never call back), so it is not represented.
      - A function that is not [payable] reverts, without a reason, when the
        call carries ether.  This check is written [nonpayable e], at the
        head of every such entry point of the registry and of the portal
        and of [aggregateModel].  The other entry points of the coordinator
        and those of the marketplace leave [msg_value] unchecked: the model
        then admits every transaction the code admits, and more. *)

From stdpp Require Import base numbers list sets strings functions.

Local Open Scope Z_scope.
Set Warnings "-clear-no-such-hyp".

(** ** Ledger runtime *)

Definition address := Z.

Definition MAX_UINT256 : Z := 2 ^ 256 - 1.
Definition MAX_UINT8 : Z := 255.

Inductive result (A : Type) : Type :=
| Ok (a : A)
| Revert (reason : string).
Arguments Ok {A} a.
Arguments Revert {A} reason.

#[global] Instance result_ret : MRet result := fun A a => Ok a.
#[global] Instance result_bind : MBind result := fun A B f m =>
  match m with
  | Ok a => f a
  | Revert r => Revert r
  end.

Definition is_ok {A} (r : result A) : Prop :=
  match r with Ok _ => True | Revert _ => False end.

#[global] Instance is_ok_dec {A} (r : result A) : Decision (is_ok r).
Proof. destruct r; simpl; apply _. Defined.

(** [require(cond, msg)] *)
Definition require (P : Prop) `{Decision P} (msg : string) : result unit :=
  if decide P then Ok () else Revert msg.

Definition PANIC_OVERFLOW : string := "Panic(0x11)".
Definition PANIC_DIV_ZERO : string := "Panic(0x12)".
Definition PANIC_INDEX : string := "Panic(0x32)".

(** Checked arithmetic of Solidity ^0.8 on [uint256] ... *)
Definition checked_add (a b : Z) : result Z :=
  if decide (a + b ≤ MAX_UINT256) then Ok (a + b) else Revert PANIC_OVERFLOW.
Definition checked_sub (a b : Z) : result Z :=
  if decide (b ≤ a) then Ok (a - b) else Revert PANIC_OVERFLOW.
Definition checked_mul (a b : Z) : result Z :=
  if decide (a * b ≤ MAX_UINT256) then Ok (a * b) else Revert PANIC_OVERFLOW.
Definition checked_div (a b : Z) : result Z :=
  if decide (b = 0) then Revert PANIC_DIV_ZERO else Ok (a / b).
(** ... and on [uint8]: an operation whose operands are a [uint8] and a
    literal that fits [uint8] is carried out in [uint8]. *)
Definition checked_mul8 (a b : Z) : result Z :=
  if decide (a * b ≤ MAX_UINT8) then Ok (a * b) else Revert PANIC_OVERFLOW.

(** The call environment supplied by the ledger. *)
Record Env : Type := {
  msg_sender : address;
  msg_value : Z;
  block_timestamp : Z
}.

(** A transaction either commits the state its call produced or, when the
    call reverts, leaves the state it started from. *)
Definition transact {S : Type} (call : S → result S) (s : S) : S :=
  match call s with
  | Ok s' => s'
  | Revert _ => s
  end.

Definition DAYS_30 : Z := 30 * 86400.

(** A function that is not [payable] reverts, with no reason, when the call
    carries ether; the check comes before the modifiers. *)
Definition NO_REASON : string := EmptyString.
Definition nonpayable (e : Env) : result unit := require (msg_value e = 0) NO_REASON.

(** ** CreditScoreRegistry *)

Module Registry.

Inductive Role : Type := DEFAULT_ADMIN_ROLE | ORACLE_ROLE | LENDER_ROLE.

#[global] Instance Role_eq_dec : EqDecision Role.
Proof. solve_decision. Defined.

Module CreditScore.
Record t : Type := {
  score : Z;
  lastUpdated : Z;
  version : Z;
  isActive : bool;
  updatedBy : address
}.
Definition zero : t :=
  {| score := 0; lastUpdated := 0; version := 0; isActive := false; updatedBy := 0 |}.
End CreditScore.

Module ScoreFactors.
Record t : Type := {
  paymentHistory : Z;
  creditUtilization : Z;
  creditLength : Z;
  creditMix : Z;
  newCredit : Z
}.
Definition zero : t :=
  {| paymentHistory := 0; creditUtilization := 0; creditLength := 0;
     creditMix := 0; newCredit := 0 |}.
End ScoreFactors.

Module DataConsent.
Record t : Type := {
  dataHash : Z;
  timestamp : Z;
  isActive : bool;
  expiryTime : Z;
  authorizedLenders : list address
}.
Definition zero : t :=
  {| dataHash := 0; timestamp := 0; isActive := false; expiryTime := 0;
     authorizedLenders := [] |}.
Definition set_authorizedLenders (l : list address) (c : t) : t :=
  {| dataHash := dataHash c; timestamp := timestamp c; isActive := isActive c;
     expiryTime := expiryTime c; authorizedLenders := l |}.
End DataConsent.

Record State : Type := {
  scores : address → CreditScore.t;
  scoreFactors : address → ScoreFactors.t;
  consents : address → DataConsent.t;
  lenderAccess : address → address → bool;
  userNonces : address → Z;
  roles : Role → address → bool;
  paused : bool
}.

Definition set_scores (f : address → CreditScore.t) (s : State) : State :=
  {| scores := f; scoreFactors := scoreFactors s; consents := consents s;
     lenderAccess := lenderAccess s; userNonces := userNonces s;
     roles := roles s; paused := paused s |}.
Definition set_scoreFactors (f : address → ScoreFactors.t) (s : State) : State :=
  {| scores := scores s; scoreFactors := f; consents := consents s;
     lenderAccess := lenderAccess s; userNonces := userNonces s;
     roles := roles s; paused := paused s |}.
Definition set_consents (f : address → DataConsent.t) (s : State) : State :=
  {| scores := scores s; scoreFactors := scoreFactors s; consents := f;
     lenderAccess := lenderAccess s; userNonces := userNonces s;
     roles := roles s; paused := paused s |}.
Definition set_lenderAccess (f : address → address → bool) (s : State) : State :=
  {| scores := scores s; scoreFactors := scoreFactors s; consents := consents s;
     lenderAccess := f; userNonces := userNonces s;
     roles := roles s; paused := paused s |}.
Definition set_userNonces (f : address → Z) (s : State) : State :=
  {| scores := scores s; scoreFactors := scoreFactors s; consents := consents s;
     lenderAccess := lenderAccess s; userNonces := f;
     roles := roles s; paused := paused s |}.
Definition set_roles (f : Role → address → bool) (s : State) : State :=
  {| scores := scores s; scoreFactors := scoreFactors s; consents := consents s;
     lenderAccess := lenderAccess s; userNonces := userNonces s;
     roles := f; paused := paused s |}.
Definition set_paused (b : bool) (s : State) : State :=
  {| scores := scores s; scoreFactors := scoreFactors s; consents := consents s;
     lenderAccess := lenderAccess s; userNonces := userNonces s;
     roles := roles s; paused := b |}.

(** The state the constructor leaves: the deployer is admin and oracle. *)
Definition constructor (deployer : address) : State :=
  {| scores := λ _, CreditScore.zero;
     scoreFactors := λ _, ScoreFactors.zero;
     consents := λ _, DataConsent.zero;
     lenderAccess := λ _ _, false;
     userNonces := λ _, 0;
     roles := λ r a, bool_decide ((r = DEFAULT_ADMIN_ROLE ∨ r = ORACLE_ROLE) ∧ a = deployer);
     paused := false |}.

Definition hasRole (r : Role) (a : address) (s : State) : bool := roles s r a.

(** Modifiers. *)
Definition onlyRole (r : Role) (e : Env) (s : State) : result unit :=
  require (hasRole r (msg_sender e) s = true) "AccessControl: missing role".
Definition whenNotPaused (s : State) : result unit :=
  require (paused s = false) "Pausable: paused".

Definition _grantRole (r : Role) (a : address) (s : State) : State :=
  set_roles (<[r := <[a := true]> (roles s r)]> (roles s)) s.
Definition _revokeRole (r : Role) (a : address) (s : State) : State :=
  set_roles (<[r := <[a := false]> (roles s r)]> (roles s)) s.

(** One write of a score, shared by [updateScore] and the body of the loop
    of [batchUpdateScores]. *)
Definition write_score (e : Env) (user : address) (sc : Z) (s : State) : result State :=
  let userScore := scores s user in
  v ← checked_add (CreditScore.version userScore) 1;
  mret (set_scores (<[user := {| CreditScore.score := sc;
                                 CreditScore.lastUpdated := block_timestamp e;
                                 CreditScore.version := v;
                                 CreditScore.isActive := true;
                                 CreditScore.updatedBy := msg_sender e |}]> (scores s)) s).

Definition updateScore (e : Env) (user : address) (sc : Z) (s : State) : result State :=
  nonpayable e;;
  onlyRole ORACLE_ROLE e s;;
  whenNotPaused s;;
  require (user ≠ 0) "Invalid user address";;
  require (300 ≤ sc ∧ sc ≤ 850) "Score must be between 300-850";;
  write_score e user sc s.

Definition updateScoreFactors (e : Env) (user : address) (f : ScoreFactors.t) (s : State)
  : result State :=
  nonpayable e;;
  onlyRole ORACLE_ROLE e s;;
  whenNotPaused s;;
  require (user ≠ 0) "Invalid user address";;
  require (ScoreFactors.paymentHistory f ≤ 100 ∧ ScoreFactors.creditUtilization f ≤ 100
           ∧ ScoreFactors.creditLength f ≤ 100 ∧ ScoreFactors.creditMix f ≤ 100
           ∧ ScoreFactors.newCredit f ≤ 100) "All factors must be 0-100";;
  mret (set_scoreFactors (<[user := f]> (scoreFactors s)) s).

(** [getScore] is a view: it returns the score or reverts. *)
Definition getScore (e : Env) (user : address) (s : State) : result Z :=
  require (user ≠ 0) "Invalid user address";;
  require (msg_sender e = user ∨ hasRole LENDER_ROLE (msg_sender e) s = true
           ∨ lenderAccess s user (msg_sender e) = true) "Unauthorized access";;
  let userScore := scores s user in
  require (CreditScore.isActive userScore = true) "No active score found";;
  mret (CreditScore.score userScore).

Definition updateConsent (e : Env) (h : Z) (expiry : Z) (s : State) : result State :=
  nonpayable e;;
  whenNotPaused s;;
  require (h ≠ 0) "Invalid data hash";;
  require (block_timestamp e < expiry) "Expiry must be in future";;
  let consent := consents s (msg_sender e) in
  n ← checked_add (userNonces s (msg_sender e)) 1;
  mret (set_userNonces (<[msg_sender e := n]> (userNonces s))
         (set_consents (<[msg_sender e := {| DataConsent.dataHash := h;
                                             DataConsent.timestamp := block_timestamp e;
                                             DataConsent.isActive := true;
                                             DataConsent.expiryTime := expiry;
                                             DataConsent.authorizedLenders :=
                                               DataConsent.authorizedLenders consent |}]>
                          (consents s)) s)).

Definition grantLenderAccess (e : Env) (lender : address) (s : State) : result State :=
  nonpayable e;;
  whenNotPaused s;;
  require (lender ≠ 0) "Invalid lender address";;
  require (lenderAccess s (msg_sender e) lender = false) "Access already granted";;
  let user := msg_sender e in
  let s1 := set_lenderAccess (<[user := <[lender := true]> (lenderAccess s user)]> (lenderAccess s)) s in
  (* consents[msg.sender].authorizedLenders.push(lender) *)
  let c := consents s1 user in
  mret (set_consents (<[user := DataConsent.set_authorizedLenders (DataConsent.authorizedLenders c ++ [lender]) c]>
                        (consents s1)) s1).

(** The loop of [revokeLenderAccess]: [find_lender] is the first index [i]
    with [authorizedLenders[i] == lender]; there the last element is copied
    into slot [i], the array is popped and the loop breaks. *)
Fixpoint find_lender (lender : address) (l : list address) (i : nat) : option nat :=
  match l with
  | [] => None
  | x :: l' => if decide (x = lender) then Some i else find_lender lender l' (S i)
  end.

Definition swap_remove (lender : address) (l : list address) : list address :=
  match find_lender lender l 0 with
  | Some i =>
      match l !! (length l - 1)%nat with
      | Some x => take (length l - 1) (<[i := x]> l)
      | None => l (* not taken: slot [i] exists, so the array is not empty *)
      end
  | None => l
  end.

Definition revokeLenderAccess (e : Env) (lender : address) (s : State) : result State :=
  nonpayable e;;
  whenNotPaused s;;
  require (lender ≠ 0) "Invalid lender address";;
  require (lenderAccess s (msg_sender e) lender = true) "Access not granted";;
  let user := msg_sender e in
  let s1 := set_lenderAccess (<[user := <[lender := false]> (lenderAccess s user)]> (lenderAccess s)) s in
  let c := consents s1 user in
  mret (set_consents (<[user := DataConsent.set_authorizedLenders (swap_remove lender (DataConsent.authorizedLenders c)) c]>
                        (consents s1)) s1).

(** The loop of [batchUpdateScores]; [newScores[i]] is read by index. *)
Fixpoint batch_loop (e : Env) (users : list address) (newScores : list Z) (i : nat)
  (s : State) : result State :=
  match users with
  | [] => mret s
  | u :: rest =>
      require (u ≠ 0) "Invalid user address";;
      sc ← match newScores !! i with Some x => Ok x | None => Revert PANIC_INDEX end;
      require (300 ≤ sc ∧ sc ≤ 850) "Invalid score";;
      s' ← write_score e u sc s;
      batch_loop e rest newScores (S i) s'
  end.

Definition batchUpdateScores (e : Env) (users : list address) (newScores : list Z)
  (s : State) : result State :=
  nonpayable e;;
  onlyRole ORACLE_ROLE e s;;
  whenNotPaused s;;
  require (length users = length newScores) "Array length mismatch";;
  require (length users ≤ 100)%nat "Batch size too large";;
  batch_loop e users newScores 0 s.

Definition pause (e : Env) (s : State) : result State :=
  nonpayable e;;
  onlyRole DEFAULT_ADMIN_ROLE e s;;
  require (paused s = false) "Pausable: paused";;
  mret (set_paused true s).
Definition unpause (e : Env) (s : State) : result State :=
  nonpayable e;;
  onlyRole DEFAULT_ADMIN_ROLE e s;;
  require (paused s = true) "Pausable: not paused";;
  mret (set_paused false s).
(** [grantRole], [revokeRole] and [renounceRole] are inherited from
    AccessControl; the admin role of every role is [DEFAULT_ADMIN_ROLE]. *)
Definition grantRole (e : Env) (r : Role) (account : address) (s : State) : result State :=
  nonpayable e;;
  onlyRole DEFAULT_ADMIN_ROLE e s;;
  mret (_grantRole r account s).
Definition revokeRole (e : Env) (r : Role) (account : address) (s : State) : result State :=
  nonpayable e;;
  onlyRole DEFAULT_ADMIN_ROLE e s;;
  mret (_revokeRole r account s).
Definition renounceRole (e : Env) (r : Role) (account : address) (s : State) : result State :=
  nonpayable e;;
  require (account = msg_sender e) "AccessControl: can only renounce roles for self";;
  mret (_revokeRole r account s).
Definition grantOracleRole (e : Env) (oracle : address) (s : State) : result State :=
  nonpayable e;;
  onlyRole DEFAULT_ADMIN_ROLE e s;;
  mret (_grantRole ORACLE_ROLE oracle s).
Definition grantLenderRole (e : Env) (lender : address) (s : State) : result State :=
  nonpayable e;;
  onlyRole DEFAULT_ADMIN_ROLE e s;;
  mret (_grantRole LENDER_ROLE lender s).

(** The state-changing entry points of the registry, and one step of the
    ledger on it. *)
Inductive Call : Type :=
| UpdateScore (user : address) (sc : Z)
| UpdateScoreFactors (user : address) (f : ScoreFactors.t)
| UpdateConsent (h expiry : Z)
| GrantLenderAccess (lender : address)
| RevokeLenderAccess (lender : address)
| BatchUpdateScores (users : list address) (newScores : list Z)
| Pause
| Unpause
| GrantOracleRole (oracle : address)
| GrantLenderRole (lender : address)
| GrantRole (r : Role) (account : address)
| RevokeRole (r : Role) (account : address)
| RenounceRole (r : Role) (account : address).

Definition call (e : Env) (c : Call) (s : State) : result State :=
  match c with
  | UpdateScore u sc => updateScore e u sc s
  | UpdateScoreFactors u f => updateScoreFactors e u f s
  | UpdateConsent h x => updateConsent e h x s
  | GrantLenderAccess l => grantLenderAccess e l s
  | RevokeLenderAccess l => revokeLenderAccess e l s
  | BatchUpdateScores us ns => batchUpdateScores e us ns s
  | Pause => pause e s
  | Unpause => unpause e s
  | GrantOracleRole o => grantOracleRole e o s
  | GrantLenderRole l => grantLenderRole e l s
  | GrantRole r a => grantRole e r a s
  | RevokeRole r a => revokeRole e r a s
  | RenounceRole r a => renounceRole e r a s
  end.

(** States the ledger can reach from a deployment. *)
Inductive reachable : State → Prop :=
| reachable_init deployer : reachable (constructor deployer)
| reachable_step e c s : reachable s → reachable (transact (call e c) s).

(** The list of authorized lenders and the access flags of a user agree,
    and the list has no duplicates. *)
Definition lenders_consistent (s : State) (user : address) : Prop :=
  (∀ lender, lender ∈ DataConsent.authorizedLenders (consents s user)
             ↔ lenderAccess s user lender = true)
  ∧ NoDup (DataConsent.authorizedLenders (consents s user)).

(** The other views of the registry. *)
Definition getScoreDetails (e : Env) (user : address) (s : State)
  : result (Z * Z * Z * bool) :=
  require (msg_sender e = user ∨ hasRole LENDER_ROLE (msg_sender e) s = true
           ∨ lenderAccess s user (msg_sender e) = true) "Unauthorized access";;
  let userScore := scores s user in
  mret (CreditScore.score userScore, CreditScore.lastUpdated userScore,
        CreditScore.version userScore, CreditScore.isActive userScore).

Definition getScoreFactors (e : Env) (user : address) (s : State) : result ScoreFactors.t :=
  require (msg_sender e = user ∨ hasRole LENDER_ROLE (msg_sender e) s = true
           ∨ lenderAccess s user (msg_sender e) = true) "Unauthorized access";;
  mret (scoreFactors s user).

Definition isConsentValid (e : Env) (user : address) (s : State) : bool :=
  let consent := consents s user in
  DataConsent.isActive consent && bool_decide (block_timestamp e < DataConsent.expiryTime consent).

Definition getAuthorizedLenders (e : Env) (user : address) (s : State)
  : result (list address) :=
  require (msg_sender e = user ∨ hasRole DEFAULT_ADMIN_ROLE (msg_sender e) s = true)
    "Unauthorized access";;
  mret (DataConsent.authorizedLenders (consents s user)).

(** [updateScore] called once per pair, in order: what [batchUpdateScores]
    is compared with. *)
Fixpoint update_each (e : Env) (entries : list (address * Z)) (s : State) : result State :=
  match entries with
  | [] => mret s
  | (u, sc) :: rest => s' ← updateScore e u sc s; update_each e rest s'
  end.

(** Two states with the same access flags and the same lender lists. *)
Definition same_access (s s' : State) : Prop :=
  lenderAccess s' = lenderAccess s
  ∧ ∀ u, DataConsent.authorizedLenders (consents s' u)
         = DataConsent.authorizedLenders (consents s u).

End Registry.

(** ** LenderPortal *)

Module Portal.

Inductive Role : Type := DEFAULT_ADMIN_ROLE | LENDER_ROLE | APPROVED_LENDER_ROLE.

#[global] Instance Role_eq_dec : EqDecision Role.
Proof. solve_decision. Defined.

Module LenderInfo.
Record t : Type := {
  lenderAddress : address;
  companyName : string;
  licenseNumber : string;
  isApproved : bool;
  isActive : bool;
  registrationDate : Z;
  totalRequests : Z;
  successfulRequests : Z;
  supportedRegions : list string;
  creditLimit : Z;
  interestRate : Z
}.
Definition zero : t :=
  {| lenderAddress := 0; companyName := ""; licenseNumber := ""; isApproved := false;
     isActive := false; registrationDate := 0; totalRequests := 0;
     successfulRequests := 0; supportedRegions := []; creditLimit := 0;
     interestRate := 0 |}.
Definition set_isApproved (b : bool) (l : t) : t :=
  {| lenderAddress := lenderAddress l; companyName := companyName l;
     licenseNumber := licenseNumber l; isApproved := b; isActive := isActive l;
     registrationDate := registrationDate l; totalRequests := totalRequests l;
     successfulRequests := successfulRequests l; supportedRegions := supportedRegions l;
     creditLimit := creditLimit l; interestRate := interestRate l |}.
Definition set_totalRequests (n : Z) (l : t) : t :=
  {| lenderAddress := lenderAddress l; companyName := companyName l;
     licenseNumber := licenseNumber l; isApproved := isApproved l; isActive := isActive l;
     registrationDate := registrationDate l; totalRequests := n;
     successfulRequests := successfulRequests l; supportedRegions := supportedRegions l;
     creditLimit := creditLimit l; interestRate := interestRate l |}.
Definition set_successfulRequests (n : Z) (l : t) : t :=
  {| lenderAddress := lenderAddress l; companyName := companyName l;
     licenseNumber := licenseNumber l; isApproved := isApproved l; isActive := isActive l;
     registrationDate := registrationDate l; totalRequests := totalRequests l;
     successfulRequests := n; supportedRegions := supportedRegions l;
     creditLimit := creditLimit l; interestRate := interestRate l |}.
End LenderInfo.

Module CreditRequest.
Record t : Type := {
  requestId : Z;
  lender : address;
  borrower : address;
  requestedAmount : Z;
  timestamp : Z;
  isProcessed : bool;
  isApproved : bool;
  creditScore : Z;
  riskAssessment : string;
  approvedAmount : Z;
  interestRate : Z
}.
Definition zero : t :=
  {| requestId := 0; lender := 0; borrower := 0; requestedAmount := 0; timestamp := 0;
     isProcessed := false; isApproved := false; creditScore := 0; riskAssessment := "";
     approvedAmount := 0; interestRate := 0 |}.
(** The record a submission stores before it is decisioned. *)
Definition fresh (id : Z) (l b : address) (amount now : Z) : t :=
  {| requestId := id; lender := l; borrower := b; requestedAmount := amount;
     timestamp := now; isProcessed := false; isApproved := false; creditScore := 0;
     riskAssessment := ""; approvedAmount := 0; interestRate := 0 |}.
(** The fields a decision writes; the others stay as submitted. *)
Definition decided (approved : bool) (sc : Z) (tier : string) (amount rate : Z)
  (processed : bool) (q : t) : t :=
  {| requestId := requestId q; lender := lender q; borrower := borrower q;
     requestedAmount := requestedAmount q; timestamp := timestamp q;
     isProcessed := processed; isApproved := approved; creditScore := sc;
     riskAssessment := tier; approvedAmount := amount; interestRate := rate |}.
End CreditRequest.

Module APIAccess.
Record t : Type := {
  lender : address;
  hasAccess : bool;
  requestLimit : Z;
  requestsUsed : Z;
  resetTime : Z;
  accessLevel : string
}.
Definition zero : t :=
  {| lender := 0; hasAccess := false; requestLimit := 0; requestsUsed := 0;
     resetTime := 0; accessLevel := "" |}.
Definition set_requestsUsed (n : Z) (a : t) : t :=
  {| lender := lender a; hasAccess := hasAccess a; requestLimit := requestLimit a;
     requestsUsed := n; resetTime := resetTime a; accessLevel := accessLevel a |}.
Definition set_resetTime (n : Z) (a : t) : t :=
  {| lender := lender a; hasAccess := hasAccess a; requestLimit := requestLimit a;
     requestsUsed := requestsUsed a; resetTime := n; accessLevel := accessLevel a |}.
End APIAccess.

Module BatchRequest.
Record t : Type := {
  batchId : Z;
  lender : address;
  borrowers : list address;
  requestedAmounts : list Z;
  timestamp : Z;
  isProcessed : bool;
  processedCount : Z
}.
Definition zero : t :=
  {| batchId := 0; lender := 0; borrowers := []; requestedAmounts := []; timestamp := 0;
     isProcessed := false; processedCount := 0 |}.
Definition set_isProcessed (b : bool) (r : t) : t :=
  {| batchId := batchId r; lender := lender r; borrowers := borrowers r;
     requestedAmounts := requestedAmounts r; timestamp := timestamp r;
     isProcessed := b; processedCount := processedCount r |}.
Definition set_processedCount (n : Z) (r : t) : t :=
  {| batchId := batchId r; lender := lender r; borrowers := borrowers r;
     requestedAmounts := requestedAmounts r; timestamp := timestamp r;
     isProcessed := isProcessed r; processedCount := n |}.
End BatchRequest.

Record State : Type := {
  lenders : address → LenderInfo.t;
  creditRequests : Z → CreditRequest.t;
  apiAccess : address → APIAccess.t;
  batchRequests : Z → BatchRequest.t;
  lenderRequests : address → list Z;
  pendingApprovals : address → bool;
  nextRequestId : Z;
  nextBatchId : Z;
  registrationFee : Z;
  apiRequestFee : Z;
  roles : Role → address → bool
}.

Definition set_lenders (f : address → LenderInfo.t) (s : State) : State :=
  {| lenders := f; creditRequests := creditRequests s; apiAccess := apiAccess s;
     batchRequests := batchRequests s; lenderRequests := lenderRequests s;
     pendingApprovals := pendingApprovals s; nextRequestId := nextRequestId s;
     nextBatchId := nextBatchId s; registrationFee := registrationFee s;
     apiRequestFee := apiRequestFee s; roles := roles s |}.
Definition set_creditRequests (f : Z → CreditRequest.t) (s : State) : State :=
  {| lenders := lenders s; creditRequests := f; apiAccess := apiAccess s;
     batchRequests := batchRequests s; lenderRequests := lenderRequests s;
     pendingApprovals := pendingApprovals s; nextRequestId := nextRequestId s;
     nextBatchId := nextBatchId s; registrationFee := registrationFee s;
     apiRequestFee := apiRequestFee s; roles := roles s |}.
Definition set_apiAccess (f : address → APIAccess.t) (s : State) : State :=
  {| lenders := lenders s; creditRequests := creditRequests s; apiAccess := f;
     batchRequests := batchRequests s; lenderRequests := lenderRequests s;
     pendingApprovals := pendingApprovals s; nextRequestId := nextRequestId s;
     nextBatchId := nextBatchId s; registrationFee := registrationFee s;
     apiRequestFee := apiRequestFee s; roles := roles s |}.
Definition set_batchRequests (f : Z → BatchRequest.t) (s : State) : State :=
  {| lenders := lenders s; creditRequests := creditRequests s; apiAccess := apiAccess s;
     batchRequests := f; lenderRequests := lenderRequests s;
     pendingApprovals := pendingApprovals s; nextRequestId := nextRequestId s;
     nextBatchId := nextBatchId s; registrationFee := registrationFee s;
     apiRequestFee := apiRequestFee s; roles := roles s |}.
Definition set_lenderRequests (f : address → list Z) (s : State) : State :=
  {| lenders := lenders s; creditRequests := creditRequests s; apiAccess := apiAccess s;
     batchRequests := batchRequests s; lenderRequests := f;
     pendingApprovals := pendingApprovals s; nextRequestId := nextRequestId s;
     nextBatchId := nextBatchId s; registrationFee := registrationFee s;
     apiRequestFee := apiRequestFee s; roles := roles s |}.
Definition set_pendingApprovals (f : address → bool) (s : State) : State :=
  {| lenders := lenders s; creditRequests := creditRequests s; apiAccess := apiAccess s;
     batchRequests := batchRequests s; lenderRequests := lenderRequests s;
     pendingApprovals := f; nextRequestId := nextRequestId s;
     nextBatchId := nextBatchId s; registrationFee := registrationFee s;
     apiRequestFee := apiRequestFee s; roles := roles s |}.
Definition set_nextRequestId (n : Z) (s : State) : State :=
  {| lenders := lenders s; creditRequests := creditRequests s; apiAccess := apiAccess s;
     batchRequests := batchRequests s; lenderRequests := lenderRequests s;
     pendingApprovals := pendingApprovals s; nextRequestId := n;
     nextBatchId := nextBatchId s; registrationFee := registrationFee s;
     apiRequestFee := apiRequestFee s; roles := roles s |}.
Definition set_nextBatchId (n : Z) (s : State) : State :=
  {| lenders := lenders s; creditRequests := creditRequests s; apiAccess := apiAccess s;
     batchRequests := batchRequests s; lenderRequests := lenderRequests s;
     pendingApprovals := pendingApprovals s; nextRequestId := nextRequestId s;
     nextBatchId := n; registrationFee := registrationFee s;
     apiRequestFee := apiRequestFee s; roles := roles s |}.
Definition set_registrationFee (n : Z) (s : State) : State :=
  {| lenders := lenders s; creditRequests := creditRequests s; apiAccess := apiAccess s;
     batchRequests := batchRequests s; lenderRequests := lenderRequests s;
     pendingApprovals := pendingApprovals s; nextRequestId := nextRequestId s;
     nextBatchId := nextBatchId s; registrationFee := n;
     apiRequestFee := apiRequestFee s; roles := roles s |}.
Definition set_apiRequestFee (n : Z) (s : State) : State :=
  {| lenders := lenders s; creditRequests := creditRequests s; apiAccess := apiAccess s;
     batchRequests := batchRequests s; lenderRequests := lenderRequests s;
     pendingApprovals := pendingApprovals s; nextRequestId := nextRequestId s;
     nextBatchId := nextBatchId s; registrationFee := registrationFee s;
     apiRequestFee := n; roles := roles s |}.
Definition set_roles (f : Role → address → bool) (s : State) : State :=
  {| lenders := lenders s; creditRequests := creditRequests s; apiAccess := apiAccess s;
     batchRequests := batchRequests s; lenderRequests := lenderRequests s;
     pendingApprovals := pendingApprovals s; nextRequestId := nextRequestId s;
     nextBatchId := nextBatchId s; registrationFee := registrationFee s;
     apiRequestFee := apiRequestFee s; roles := f |}.

Definition ETHER : Z := 10 ^ 18.

(** The state the constructor leaves; [1 ether] and [0.01 ether] are the
    initial fees. *)
Definition constructor (deployer : address) : State :=
  {| lenders := λ _, LenderInfo.zero;
     creditRequests := λ _, CreditRequest.zero;
     apiAccess := λ _, APIAccess.zero;
     batchRequests := λ _, BatchRequest.zero;
     lenderRequests := λ _, [];
     pendingApprovals := λ _, false;
     nextRequestId := 1;
     nextBatchId := 1;
     registrationFee := ETHER;
     apiRequestFee := ETHER / 100;
     roles := λ r a, bool_decide (r = DEFAULT_ADMIN_ROLE ∧ a = deployer) |}.

Definition hasRole (r : Role) (a : address) (s : State) : bool := roles s r a.
Definition onlyRole (r : Role) (e : Env) (s : State) : result unit :=
  require (hasRole r (msg_sender e) s = true) "AccessControl: missing role".
Definition _grantRole (r : Role) (a : address) (s : State) : State :=
  set_roles (<[r := <[a := true]> (roles s r)]> (roles s)) s.

Definition registerLender (e : Env) (companyName licenseNumber : string)
  (supportedRegions : list string) (creditLimit interestRate : Z) (s : State)
  : result State :=
  require (registrationFee s ≤ msg_value e) "Insufficient registration fee";;
  require (companyName ≠ "") "Company name required";;
  require (licenseNumber ≠ "") "License number required";;
  require (LenderInfo.isActive (lenders s (msg_sender e)) = false) "Already registered";;
  let info := {| LenderInfo.lenderAddress := msg_sender e;
                 LenderInfo.companyName := companyName;
                 LenderInfo.licenseNumber := licenseNumber;
                 LenderInfo.isApproved := false;
                 LenderInfo.isActive := true;
                 LenderInfo.registrationDate := block_timestamp e;
                 LenderInfo.totalRequests := 0;
                 LenderInfo.successfulRequests := 0;
                 LenderInfo.supportedRegions := supportedRegions;
                 LenderInfo.creditLimit := creditLimit;
                 LenderInfo.interestRate := interestRate |} in
  let s1 := set_lenders (<[msg_sender e := info]> (lenders s)) s in
  let s2 := set_pendingApprovals (<[msg_sender e := true]> (pendingApprovals s1)) s1 in
  mret (_grantRole LENDER_ROLE (msg_sender e) s2).

Definition approveLender (e : Env) (lender : address) (s : State) : result State :=
  nonpayable e;;
  onlyRole DEFAULT_ADMIN_ROLE e s;;
  require (LenderInfo.isActive (lenders s lender) = true) "Lender not registered";;
  require (LenderInfo.isApproved (lenders s lender) = false) "Already approved";;
  let s1 := set_lenders (<[lender := LenderInfo.set_isApproved true (lenders s lender)]>
                           (lenders s)) s in
  let s2 := set_pendingApprovals (<[lender := false]> (pendingApprovals s1)) s1 in
  mret (_grantRole APPROVED_LENDER_ROLE lender s2).

Definition requestAPIAccess (e : Env) (accessLevel : string) (s : State) : result State :=
  nonpayable e;;
  onlyRole APPROVED_LENDER_ROLE e s;;
  require (LenderInfo.isApproved (lenders s (msg_sender e)) = true) "Lender not approved";;
  requestLimit ← (if decide (accessLevel = "basic") then Ok 100
                  else if decide (accessLevel = "premium") then Ok 1000
                  else if decide (accessLevel = "enterprise") then Ok 10000
                  else Revert "Invalid access level");
  reset ← checked_add (block_timestamp e) DAYS_30;
  mret (set_apiAccess
          (<[msg_sender e := {| APIAccess.lender := msg_sender e;
                                APIAccess.hasAccess := true;
                                APIAccess.requestLimit := requestLimit;
                                APIAccess.requestsUsed := 0;
                                APIAccess.resetTime := reset;
                                APIAccess.accessLevel := accessLevel |}]> (apiAccess s)) s).

(** [creditRegistry.getScore(request.borrower)], called by the portal: the
    caller the registry sees is the portal itself, at address [this], and
    [reg] is the state of the registry deployed at [creditRegistry]. *)
Definition registry_getScore (this : address) (reg : Registry.State) (e : Env)
  (borrower : address) : result Z :=
  Registry.getScore {| msg_sender := this; msg_value := 0;
                       block_timestamp := block_timestamp e |} borrower reg.

(** [_processCreditRequest].  The [try] succeeds with the score or the
    [catch] takes over; a panic inside the [try] block is not caught. *)
Definition _processCreditRequest (this : address) (reg : Registry.State) (e : Env)
  (requestId : Z) (s : State) : result State :=
  let request := creditRequests s requestId in
  require (CreditRequest.isProcessed request = false) "Already processed";;
  let l := CreditRequest.lender request in
  match registry_getScore this reg e (CreditRequest.borrower request) with
  | Ok sc =>
      if decide (700 ≤ sc) then
        let rate := LenderInfo.interestRate (lenders s l) in
        n ← checked_add (LenderInfo.successfulRequests (lenders s l)) 1;
        mret (set_lenders (<[l := LenderInfo.set_successfulRequests n (lenders s l)]> (lenders s))
               (set_creditRequests
                  (<[requestId := CreditRequest.decided true sc "Low Risk"
                                    (CreditRequest.requestedAmount request) rate true request]>
                     (creditRequests s)) s))
      else if decide (650 ≤ sc) then
        let half := CreditRequest.requestedAmount request / 2 in
        rate ← checked_add (LenderInfo.interestRate (lenders s l)) 200;
        n ← checked_add (LenderInfo.successfulRequests (lenders s l)) 1;
        mret (set_lenders (<[l := LenderInfo.set_successfulRequests n (lenders s l)]> (lenders s))
               (set_creditRequests
                  (<[requestId := CreditRequest.decided true sc "Medium Risk" half rate true
                                    request]>
                     (creditRequests s)) s))
      else
        mret (set_creditRequests
                (<[requestId := CreditRequest.decided false sc "High Risk" 0
                                  (CreditRequest.interestRate request) true request]>
                   (creditRequests s)) s)
  | Revert _ =>
      mret (set_creditRequests
              (<[requestId := CreditRequest.decided false 0 "No Credit History"
                                (CreditRequest.approvedAmount request)
                                (CreditRequest.interestRate request) true request]>
                 (creditRequests s)) s)
  end.

(** The lazy quota reset of [submitCreditRequest]. *)
Definition reset_if_expired (e : Env) (access : APIAccess.t) : result APIAccess.t :=
  if decide (APIAccess.resetTime access ≤ block_timestamp e) then
    reset ← checked_add (block_timestamp e) DAYS_30;
    mret (APIAccess.set_resetTime reset (APIAccess.set_requestsUsed 0 access))
  else mret access.

Definition submitCreditRequest (this : address) (reg : Registry.State) (e : Env)
  (borrower : address) (requestedAmount : Z) (s : State) : result (State * Z) :=
  onlyRole APPROVED_LENDER_ROLE e s;;
  require (apiRequestFee s ≤ msg_value e) "Insufficient API fee";;
  require (borrower ≠ 0) "Invalid borrower address";;
  require (0 < requestedAmount) "Invalid amount";;
  let access := apiAccess s (msg_sender e) in
  require (APIAccess.hasAccess access = true) "No API access";;
  require (APIAccess.requestsUsed access < APIAccess.requestLimit access)
    "Request limit exceeded";;
  (* Reset counter if time period expired *)
  access ← reset_if_expired e access;
  used ← checked_add (APIAccess.requestsUsed access) 1;
  let s := set_apiAccess (<[msg_sender e := APIAccess.set_requestsUsed used access]>
                            (apiAccess s)) s in
  let requestId := nextRequestId s in
  next ← checked_add requestId 1;
  let s := set_nextRequestId next s in
  let s := set_creditRequests
             (<[requestId := CreditRequest.fresh requestId (msg_sender e) borrower
                               requestedAmount (block_timestamp e)]> (creditRequests s)) s in
  let s := set_lenderRequests
             (<[msg_sender e := lenderRequests s (msg_sender e) ++ [requestId]]>
                (lenderRequests s)) s in
  total ← checked_add (LenderInfo.totalRequests (lenders s (msg_sender e))) 1;
  let s := set_lenders (<[msg_sender e := LenderInfo.set_totalRequests total
                                            (lenders s (msg_sender e))]> (lenders s)) s in
  (* Auto-process the request *)
  s ← _processCreditRequest this reg e requestId s;
  mret (s, requestId).

(** The loop of [_processBatchRequest] from index [i] on; [todo] is the rest
    of [batch.borrowers], and [batch.requestedAmounts[i]] is read by index. *)
Fixpoint process_items (this : address) (reg : Registry.State) (e : Env) (batchId : Z)
  (todo : list address) (i : nat) (s : State) : result State :=
  match todo with
  | [] => mret s
  | b :: rest =>
      let batch := batchRequests s batchId in
      let requestId := nextRequestId s in
      next ← checked_add requestId 1;
      let s := set_nextRequestId next s in
      amount ← match BatchRequest.requestedAmounts batch !! i with
               | Some a => Ok a
               | None => Revert PANIC_INDEX
               end;
      let s := set_creditRequests
                 (<[requestId := CreditRequest.fresh requestId (BatchRequest.lender batch) b
                                   amount (block_timestamp e)]> (creditRequests s)) s in
      let s := set_lenderRequests
                 (<[BatchRequest.lender batch :=
                      lenderRequests s (BatchRequest.lender batch) ++ [requestId]]>
                    (lenderRequests s)) s in
      s ← _processCreditRequest this reg e requestId s;
      count ← checked_add (BatchRequest.processedCount (batchRequests s batchId)) 1;
      let s := set_batchRequests
                 (<[batchId := BatchRequest.set_processedCount count (batchRequests s batchId)]>
                    (batchRequests s)) s in
      process_items this reg e batchId rest (S i) s
  end.

Definition _processBatchRequest (this : address) (reg : Registry.State) (e : Env)
  (batchId : Z) (s : State) : result State :=
  let batch := batchRequests s batchId in
  require (BatchRequest.isProcessed batch = false) "Already processed";;
  s ← process_items this reg e batchId (BatchRequest.borrowers batch) 0 s;
  let batch := batchRequests s batchId in
  let s := set_batchRequests (<[batchId := BatchRequest.set_isProcessed true batch]>
                                (batchRequests s)) s in
  let l := BatchRequest.lender batch in
  total ← checked_add (LenderInfo.totalRequests (lenders s l))
            (Z.of_nat (length (BatchRequest.borrowers batch)));
  mret (set_lenders (<[l := LenderInfo.set_totalRequests total (lenders s l)]> (lenders s)) s).

Definition submitBatchRequest (this : address) (reg : Registry.State) (e : Env)
  (borrowers : list address) (requestedAmounts : list Z) (s : State)
  : result (State * Z) :=
  onlyRole APPROVED_LENDER_ROLE e s;;
  require (length borrowers = length requestedAmounts) "Array length mismatch";;
  require (length borrowers ≤ 100)%nat "Batch too large";;
  fee ← checked_mul (apiRequestFee s) (Z.of_nat (length borrowers));
  require (fee ≤ msg_value e) "Insufficient fee";;
  let access := apiAccess s (msg_sender e) in
  require (APIAccess.hasAccess access = true) "No API access";;
  wanted ← checked_add (APIAccess.requestsUsed access) (Z.of_nat (length borrowers));
  require (wanted ≤ APIAccess.requestLimit access) "Request limit exceeded";;
  let batchId := nextBatchId s in
  next ← checked_add batchId 1;
  let s := set_nextBatchId next s in
  let s := set_batchRequests
             (<[batchId := {| BatchRequest.batchId := batchId;
                              BatchRequest.lender := msg_sender e;
                              BatchRequest.borrowers := borrowers;
                              BatchRequest.requestedAmounts := requestedAmounts;
                              BatchRequest.timestamp := block_timestamp e;
                              BatchRequest.isProcessed := false;
                              BatchRequest.processedCount := 0 |}]> (batchRequests s)) s in
  used ← checked_add (APIAccess.requestsUsed (apiAccess s (msg_sender e)))
           (Z.of_nat (length borrowers));
  let s := set_apiAccess (<[msg_sender e := APIAccess.set_requestsUsed used
                                              (apiAccess s (msg_sender e))]> (apiAccess s)) s in
  (* Process batch *)
  s ← _processBatchRequest this reg e batchId s;
  mret (s, batchId).

Definition updateRegistrationFee (e : Env) (newFee : Z) (s : State) : result State :=
  nonpayable e;;
  onlyRole DEFAULT_ADMIN_ROLE e s;;
  mret (set_registrationFee newFee s).
Definition updateAPIRequestFee (e : Env) (newFee : Z) (s : State) : result State :=
  nonpayable e;;
  onlyRole DEFAULT_ADMIN_ROLE e s;;
  mret (set_apiRequestFee newFee s).

(** What a transaction that calls [f] leaves behind. *)
Definition commit {A : Type} (f : State → result (State * A)) (s : State) : State :=
  transact (λ s, r ← f s; mret r.1) s.

(** [grantRole], [revokeRole] and [renounceRole] are inherited from
    AccessControl; the admin role of every role is [DEFAULT_ADMIN_ROLE]. *)
Definition grantRole (e : Env) (r : Role) (account : address) (s : State) : result State :=
  nonpayable e;;
  onlyRole DEFAULT_ADMIN_ROLE e s;;
  mret (_grantRole r account s).
Definition revokeRole (e : Env) (r : Role) (account : address) (s : State) : result State :=
  nonpayable e;;
  onlyRole DEFAULT_ADMIN_ROLE e s;;
  mret (set_roles (<[r := <[account := false]> (roles s r)]> (roles s)) s).
Definition renounceRole (e : Env) (r : Role) (account : address) (s : State) : result State :=
  nonpayable e;;
  require (account = msg_sender e) "AccessControl: can only renounce roles for self";;
  mret (set_roles (<[r := <[account := false]> (roles s r)]> (roles s)) s).

(** [getCreditRequest]: the fields a caller can read back. *)
Definition getCreditRequest (requestId : Z) (s : State)
  : address * address * Z * bool * Z * string * Z :=
  let request := creditRequests s requestId in
  (CreditRequest.lender request, CreditRequest.borrower request,
   CreditRequest.requestedAmount request, CreditRequest.isApproved request,
   CreditRequest.creditScore request, CreditRequest.riskAssessment request,
   CreditRequest.approvedAmount request).

(** The state-changing entry points of the portal, and one call on it; the
    registry it reads may be in any state [reg]. *)
Inductive Call : Type :=
| RegisterLender (companyName licenseNumber : string) (supportedRegions : list string)
    (creditLimit interestRate : Z)
| ApproveLender (lender : address)
| RequestAPIAccess (accessLevel : string)
| SubmitCreditRequest (borrower : address) (requestedAmount : Z)
| SubmitBatchRequest (borrowers : list address) (requestedAmounts : list Z)
| UpdateRegistrationFee (newFee : Z)
| UpdateAPIRequestFee (newFee : Z)
| GrantRole (r : Role) (account : address)
| RevokeRole (r : Role) (account : address)
| RenounceRole (r : Role) (account : address).

Definition call (this : address) (reg : Registry.State) (e : Env) (c : Call) (s : State)
  : result State :=
  match c with
  | RegisterLender n l rs cl ir => registerLender e n l rs cl ir s
  | ApproveLender a => approveLender e a s
  | RequestAPIAccess lvl => requestAPIAccess e lvl s
  | SubmitCreditRequest b a => r ← submitCreditRequest this reg e b a s; mret r.1
  | SubmitBatchRequest bs az => r ← submitBatchRequest this reg e bs az s; mret r.1
  | UpdateRegistrationFee n => updateRegistrationFee e n s
  | UpdateAPIRequestFee n => updateAPIRequestFee e n s
  | GrantRole r a => grantRole e r a s
  | RevokeRole r a => revokeRole e r a s
  | RenounceRole r a => renounceRole e r a s
  end.

Inductive reachable (this : address) : State → Prop :=
| reachable_init deployer : reachable this (constructor deployer)
| reachable_call reg e c s :
    reachable this s → reachable this (transact (call this reg e c) s).

(** A request that has been decisioned. *)
Definition settled (q : CreditRequest.t) : Prop :=
  CreditRequest.isProcessed q = true
  ∧ (CreditRequest.riskAssessment q = "Low Risk"
     ∨ CreditRequest.riskAssessment q = "Medium Risk"
     ∨ CreditRequest.riskAssessment q = "High Risk"
     ∨ CreditRequest.riskAssessment q = "No Credit History")
  ∧ (CreditRequest.isApproved q = false → CreditRequest.approvedAmount q = 0).

(** Request ids are handed out in order from 1: the ids below
    [nextRequestId] hold decisioned requests, the others hold nothing. *)
Definition requests_in_order (s : State) : Prop :=
  1 ≤ nextRequestId s
  ∧ (∀ id, 1 ≤ id < nextRequestId s → CreditRequest.requestId (creditRequests s id) = id
                                      ∧ settled (creditRequests s id))
  ∧ (∀ id, id < 1 ∨ nextRequestId s ≤ id → creditRequests s id = CreditRequest.zero).

(** A lender's record in which at most [n] more requests succeeded and
    nothing else changed. *)
Definition more_successes (n : Z) (l l' : LenderInfo.t) : Prop :=
  l' = LenderInfo.set_successfulRequests (LenderInfo.successfulRequests l') l
  ∧ LenderInfo.successfulRequests l ≤ LenderInfo.successfulRequests l'
  ∧ LenderInfo.successfulRequests l' ≤ LenderInfo.successfulRequests l + n.

(** What a lender's record may become: the registration data stay, an
    approval is never taken back, and the two counters only grow, the
    successful requests by no more than the total. *)
Definition lender_evolves (l l' : LenderInfo.t) : Prop :=
  LenderInfo.lenderAddress l' = LenderInfo.lenderAddress l
  ∧ LenderInfo.companyName l' = LenderInfo.companyName l
  ∧ LenderInfo.licenseNumber l' = LenderInfo.licenseNumber l
  ∧ LenderInfo.registrationDate l' = LenderInfo.registrationDate l
  ∧ LenderInfo.supportedRegions l' = LenderInfo.supportedRegions l
  ∧ LenderInfo.creditLimit l' = LenderInfo.creditLimit l
  ∧ LenderInfo.interestRate l' = LenderInfo.interestRate l
  ∧ LenderInfo.isActive l' = LenderInfo.isActive l
  ∧ (LenderInfo.isApproved l = true → LenderInfo.isApproved l' = true)
  ∧ LenderInfo.successfulRequests l ≤ LenderInfo.successfulRequests l'
  ∧ LenderInfo.successfulRequests l' - LenderInfo.successfulRequests l
    ≤ LenderInfo.totalRequests l' - LenderInfo.totalRequests l.

(** [getLenderRequests], and what it is meant to return: once each, the
    ids of the stored requests of the lender. *)
Definition getLenderRequests (lender : address) (s : State) : list Z :=
  lenderRequests s lender.

Definition lender_index (s : State) : Prop :=
  ∀ a, NoDup (getLenderRequests a s)
       ∧ ∀ id, id ∈ getLenderRequests a s
               ↔ 1 ≤ id < nextRequestId s ∧ CreditRequest.lender (creditRequests s id) = a.

End Portal.

(** ** DataMarketplace *)

Module Marketplace.

Inductive Role : Type := DEFAULT_ADMIN_ROLE | SELLER_ROLE | VERIFIER_ROLE.

#[global] Instance Role_eq_dec : EqDecision Role.
Proof. solve_decision. Defined.

Module DataProduct.
Record t : Type := {
  productId : Z;
  seller : address;
  name : string;
  description : string;
  price : Z;
  dataHash : Z;
  isActive : bool;
  totalSales : Z;
  rating : Z;
  reviewCount : Z;
  createdAt : Z;
  features : list string;
  category : string
}.
Definition zero : t :=
  {| productId := 0; seller := 0; name := ""; description := ""; price := 0;
     dataHash := 0; isActive := false; totalSales := 0; rating := 0; reviewCount := 0;
     createdAt := 0; features := []; category := "" |}.
Definition set_price (n : Z) (p : t) : t :=
  {| productId := productId p; seller := seller p; name := name p;
     description := description p; price := n; dataHash := dataHash p;
     isActive := isActive p; totalSales := totalSales p; rating := rating p;
     reviewCount := reviewCount p; createdAt := createdAt p; features := features p;
     category := category p |}.
Definition set_isActive (b : bool) (p : t) : t :=
  {| productId := productId p; seller := seller p; name := name p;
     description := description p; price := price p; dataHash := dataHash p;
     isActive := b; totalSales := totalSales p; rating := rating p;
     reviewCount := reviewCount p; createdAt := createdAt p; features := features p;
     category := category p |}.
Definition set_totalSales (n : Z) (p : t) : t :=
  {| productId := productId p; seller := seller p; name := name p;
     description := description p; price := price p; dataHash := dataHash p;
     isActive := isActive p; totalSales := n; rating := rating p;
     reviewCount := reviewCount p; createdAt := createdAt p; features := features p;
     category := category p |}.
Definition set_rating (avg count : Z) (p : t) : t :=
  {| productId := productId p; seller := seller p; name := name p;
     description := description p; price := price p; dataHash := dataHash p;
     isActive := isActive p; totalSales := totalSales p; rating := avg;
     reviewCount := count; createdAt := createdAt p; features := features p;
     category := category p |}.
End DataProduct.

Module Purchase.
Record t : Type := {
  purchaseId : Z;
  productId : Z;
  buyer : address;
  seller : address;
  price : Z;
  timestamp : Z;
  isCompleted : bool;
  accessKey : Z
}.
Definition zero : t :=
  {| purchaseId := 0; productId := 0; buyer := 0; seller := 0; price := 0;
     timestamp := 0; isCompleted := false; accessKey := 0 |}.
End Purchase.

Module Review.
Record t : Type := {
  reviewer : address;
  productId : Z;
  rating : Z;
  comment : string;
  timestamp : Z;
  isVerified : bool
}.
End Review.

Record State : Type := {
  products : Z → DataProduct.t;
  purchases : Z → Purchase.t;
  productReviews : Z → list Review.t;
  userPurchases : address → list Z;
  sellerProducts : address → list Z;
  hasPurchased : address → Z → bool;
  nextProductId : Z;
  nextPurchaseId : Z;
  platformFeePercent : Z;
  feeRecipient : address;
  paymentToken : address;
  roles : Role → address → bool
}.

Definition set_products (f : Z → DataProduct.t) (s : State) : State :=
  {| products := f; purchases := purchases s; productReviews := productReviews s;
     userPurchases := userPurchases s; sellerProducts := sellerProducts s;
     hasPurchased := hasPurchased s; nextProductId := nextProductId s;
     nextPurchaseId := nextPurchaseId s; platformFeePercent := platformFeePercent s;
     feeRecipient := feeRecipient s; paymentToken := paymentToken s; roles := roles s |}.
Definition set_purchases (f : Z → Purchase.t) (s : State) : State :=
  {| products := products s; purchases := f; productReviews := productReviews s;
     userPurchases := userPurchases s; sellerProducts := sellerProducts s;
     hasPurchased := hasPurchased s; nextProductId := nextProductId s;
     nextPurchaseId := nextPurchaseId s; platformFeePercent := platformFeePercent s;
     feeRecipient := feeRecipient s; paymentToken := paymentToken s; roles := roles s |}.
Definition set_productReviews (f : Z → list Review.t) (s : State) : State :=
  {| products := products s; purchases := purchases s; productReviews := f;
     userPurchases := userPurchases s; sellerProducts := sellerProducts s;
     hasPurchased := hasPurchased s; nextProductId := nextProductId s;
     nextPurchaseId := nextPurchaseId s; platformFeePercent := platformFeePercent s;
     feeRecipient := feeRecipient s; paymentToken := paymentToken s; roles := roles s |}.
Definition set_userPurchases (f : address → list Z) (s : State) : State :=
  {| products := products s; purchases := purchases s; productReviews := productReviews s;
     userPurchases := f; sellerProducts := sellerProducts s;
     hasPurchased := hasPurchased s; nextProductId := nextProductId s;
     nextPurchaseId := nextPurchaseId s; platformFeePercent := platformFeePercent s;
     feeRecipient := feeRecipient s; paymentToken := paymentToken s; roles := roles s |}.
Definition set_sellerProducts (f : address → list Z) (s : State) : State :=
  {| products := products s; purchases := purchases s; productReviews := productReviews s;
     userPurchases := userPurchases s; sellerProducts := f;
     hasPurchased := hasPurchased s; nextProductId := nextProductId s;
     nextPurchaseId := nextPurchaseId s; platformFeePercent := platformFeePercent s;
     feeRecipient := feeRecipient s; paymentToken := paymentToken s; roles := roles s |}.
Definition set_hasPurchased (f : address → Z → bool) (s : State) : State :=
  {| products := products s; purchases := purchases s; productReviews := productReviews s;
     userPurchases := userPurchases s; sellerProducts := sellerProducts s;
     hasPurchased := f; nextProductId := nextProductId s;
     nextPurchaseId := nextPurchaseId s; platformFeePercent := platformFeePercent s;
     feeRecipient := feeRecipient s; paymentToken := paymentToken s; roles := roles s |}.
Definition set_nextProductId (n : Z) (s : State) : State :=
  {| products := products s; purchases := purchases s; productReviews := productReviews s;
     userPurchases := userPurchases s; sellerProducts := sellerProducts s;
     hasPurchased := hasPurchased s; nextProductId := n;
     nextPurchaseId := nextPurchaseId s; platformFeePercent := platformFeePercent s;
     feeRecipient := feeRecipient s; paymentToken := paymentToken s; roles := roles s |}.
Definition set_nextPurchaseId (n : Z) (s : State) : State :=
  {| products := products s; purchases := purchases s; productReviews := productReviews s;
     userPurchases := userPurchases s; sellerProducts := sellerProducts s;
     hasPurchased := hasPurchased s; nextProductId := nextProductId s;
     nextPurchaseId := n; platformFeePercent := platformFeePercent s;
     feeRecipient := feeRecipient s; paymentToken := paymentToken s; roles := roles s |}.
Definition set_platformFeePercent (n : Z) (s : State) : State :=
  {| products := products s; purchases := purchases s; productReviews := productReviews s;
     userPurchases := userPurchases s; sellerProducts := sellerProducts s;
     hasPurchased := hasPurchased s; nextProductId := nextProductId s;
     nextPurchaseId := nextPurchaseId s; platformFeePercent := n;
     feeRecipient := feeRecipient s; paymentToken := paymentToken s; roles := roles s |}.
Definition set_feeRecipient (a : address) (s : State) : State :=
  {| products := products s; purchases := purchases s; productReviews := productReviews s;
     userPurchases := userPurchases s; sellerProducts := sellerProducts s;
     hasPurchased := hasPurchased s; nextProductId := nextProductId s;
     nextPurchaseId := nextPurchaseId s; platformFeePercent := platformFeePercent s;
     feeRecipient := a; paymentToken := paymentToken s; roles := roles s |}.
Definition set_roles (f : Role → address → bool) (s : State) : State :=
  {| products := products s; purchases := purchases s; productReviews := productReviews s;
     userPurchases := userPurchases s; sellerProducts := sellerProducts s;
     hasPurchased := hasPurchased s; nextProductId := nextProductId s;
     nextPurchaseId := nextPurchaseId s; platformFeePercent := platformFeePercent s;
     feeRecipient := feeRecipient s; paymentToken := paymentToken s; roles := f |}.

Definition constructor (deployer _paymentToken _feeRecipient : address) : State :=
  {| products := λ _, DataProduct.zero;
     purchases := λ _, Purchase.zero;
     productReviews := λ _, [];
     userPurchases := λ _, [];
     sellerProducts := λ _, [];
     hasPurchased := λ _ _, false;
     nextProductId := 1;
     nextPurchaseId := 1;
     platformFeePercent := 250;
     feeRecipient := _feeRecipient;
     paymentToken := _paymentToken;
     roles := λ r a, bool_decide ((r = DEFAULT_ADMIN_ROLE ∨ r = VERIFIER_ROLE) ∧ a = deployer) |}.

Definition hasRole (r : Role) (a : address) (s : State) : bool := roles s r a.
Definition onlyRole (r : Role) (e : Env) (s : State) : result unit :=
  require (hasRole r (msg_sender e) s = true) "AccessControl: missing role".

(** [grantRole], [revokeRole] and [renounceRole] are inherited from
    AccessControl; the admin role of every role is [DEFAULT_ADMIN_ROLE]. *)
Definition grantRole (e : Env) (r : Role) (account : address) (s : State) : result State :=
  onlyRole DEFAULT_ADMIN_ROLE e s;;
  mret (set_roles (<[r := <[account := true]> (roles s r)]> (roles s)) s).
Definition revokeRole (e : Env) (r : Role) (account : address) (s : State) : result State :=
  onlyRole DEFAULT_ADMIN_ROLE e s;;
  mret (set_roles (<[r := <[account := false]> (roles s r)]> (roles s)) s).
Definition renounceRole (e : Env) (r : Role) (account : address) (s : State) : result State :=
  require (account = msg_sender e) "AccessControl: can only renounce roles for self";;
  mret (set_roles (<[r := <[account := false]> (roles s r)]> (roles s)) s).

Definition listProduct (e : Env) (name description : string) (price dataHash : Z)
  (features : list string) (category : string) (s : State) : result (State * Z) :=
  require (name ≠ "") "Name cannot be empty";;
  require (0 < price) "Price must be greater than 0";;
  require (dataHash ≠ 0) "Invalid data hash";;
  let productId := nextProductId s in
  next ← checked_add productId 1;
  let s := set_nextProductId next s in
  let product := {| DataProduct.productId := productId;
                    DataProduct.seller := msg_sender e;
                    DataProduct.name := name;
                    DataProduct.description := description;
                    DataProduct.price := price;
                    DataProduct.dataHash := dataHash;
                    DataProduct.isActive := true;
                    DataProduct.totalSales := 0;
                    DataProduct.rating := 0;
                    DataProduct.reviewCount := 0;
                    DataProduct.createdAt := block_timestamp e;
                    DataProduct.features := features;
                    DataProduct.category := category |} in
  let s := set_products (<[productId := product]> (products s)) s in
  let s := set_sellerProducts
             (<[msg_sender e := sellerProducts s (msg_sender e) ++ [productId]]>
                (sellerProducts s)) s in
  mret (s, productId).

(** The loop of [submitReview] that rejects a reviewer already present. *)
Fixpoint check_not_reviewed (sender : address) (reviews : list Review.t) : result unit :=
  match reviews with
  | [] => mret ()
  | r :: rest =>
      require (Review.reviewer r ≠ sender) "Already reviewed";;
      check_not_reviewed sender rest
  end.

(** [rating] is a [uint8]; [rating * 100] multiplies a [uint8] by a literal
    that fits [uint8], so it is evaluated, and checked, in [uint8]. *)
Definition submitReview (e : Env) (productId : Z) (rating : Z) (comment : string)
  (s : State) : result State :=
  require (hasPurchased s (msg_sender e) productId = true) "Must purchase to review";;
  require (1 ≤ rating ∧ rating ≤ 5) "Rating must be 1-5";;
  require (comment ≠ "") "Comment cannot be empty";;
  (* Check if user already reviewed *)
  let reviews := productReviews s productId in
  check_not_reviewed (msg_sender e) reviews;;
  let newReview := {| Review.reviewer := msg_sender e;
                      Review.productId := productId;
                      Review.rating := rating;
                      Review.comment := comment;
                      Review.timestamp := block_timestamp e;
                      Review.isVerified := true |} in
  let s := set_productReviews (<[productId := reviews ++ [newReview]]> (productReviews s)) s in
  (* Update product rating *)
  let product := products s productId in
  weighted ← checked_mul (DataProduct.rating product) (DataProduct.reviewCount product);
  scaled ← checked_mul8 rating 100;
  totalRating ← checked_add weighted scaled;
  count ← checked_add (DataProduct.reviewCount product) 1;
  avg ← checked_div totalRating count;
  mret (set_products (<[productId := DataProduct.set_rating avg count product]> (products s)) s).

Definition updateProductPrice (e : Env) (productId newPrice : Z) (s : State) : result State :=
  let product := products s productId in
  require (DataProduct.seller product = msg_sender e) "Only seller can update";;
  require (DataProduct.isActive product = true) "Product not active";;
  require (0 < newPrice) "Price must be greater than 0";;
  mret (set_products (<[productId := DataProduct.set_price newPrice product]> (products s)) s).

Definition deactivateProduct (e : Env) (productId : Z) (s : State) : result State :=
  let product := products s productId in
  require (DataProduct.seller product = msg_sender e) "Only seller can deactivate";;
  require (DataProduct.isActive product = true) "Product already inactive";;
  mret (set_products (<[productId := DataProduct.set_isActive false product]> (products s)) s).

Definition updatePlatformFee (e : Env) (newFeePercent : Z) (s : State) : result State :=
  onlyRole DEFAULT_ADMIN_ROLE e s;;
  require (newFeePercent ≤ 1000) "Fee cannot exceed 10%";;
  mret (set_platformFeePercent newFeePercent s).

Definition updateFeeRecipient (e : Env) (newRecipient : address) (s : State) : result State :=
  onlyRole DEFAULT_ADMIN_ROLE e s;;
  require (newRecipient ≠ 0) "Invalid recipient";;
  mret (set_feeRecipient newRecipient s).

Definition emergencyDeactivateProduct (e : Env) (productId : Z) (s : State) : result State :=
  onlyRole DEFAULT_ADMIN_ROLE e s;;
  mret (set_products (<[productId := DataProduct.set_isActive false (products s productId)]>
                        (products s)) s).

(** The payment token and the hash are collaborators outside the repository:
    [transferFrom this from to amount] is the [IERC20] call as the token at
    [paymentToken] answers it to the marketplace at [this] (it may revert; the
    boolean it returns is dropped by the source; it does not call back into
    the marketplace, whose [purchaseProduct] is [nonReentrant]), and
    [keccak256] hashes the packed triple of [purchaseProduct]. *)
Section WithToken.
Context {Token : Type}.
Context (transferFrom : address → address → address → Z → Token → result (Token * bool)).
Context (keccak256 : address → Z → Z → Z).
Context (this : address).

Definition purchaseProduct (e : Env) (productId : Z) (w : State * Token)
  : result (State * Token * Z) :=
  let '(s, tok) := w in
  let product := products s productId in
  require (DataProduct.isActive product = true) "Product not active";;
  require (DataProduct.seller product ≠ msg_sender e) "Cannot buy own product";;
  require (hasPurchased s (msg_sender e) productId = false) "Already purchased";;
  let totalPrice := DataProduct.price product in
  scaledFee ← checked_mul totalPrice (platformFeePercent s);
  let platformFee := scaledFee / 10000 in
  sellerAmount ← checked_sub totalPrice platformFee;
  (* Transfer payment *)
  '(tok, _) ← transferFrom this (msg_sender e) (DataProduct.seller product) sellerAmount tok;
  '(tok, _) ← transferFrom this (msg_sender e) (feeRecipient s) platformFee tok;
  let purchaseId := nextPurchaseId s in
  next ← checked_add purchaseId 1;
  let s := set_nextPurchaseId next s in
  let purchase := {| Purchase.purchaseId := purchaseId;
                     Purchase.productId := productId;
                     Purchase.buyer := msg_sender e;
                     Purchase.seller := DataProduct.seller product;
                     Purchase.price := totalPrice;
                     Purchase.timestamp := block_timestamp e;
                     Purchase.isCompleted := true;
                     Purchase.accessKey :=
                       keccak256 (msg_sender e) productId (block_timestamp e) |} in
  let s := set_purchases (<[purchaseId := purchase]> (purchases s)) s in
  (* Update tracking *)
  let s := set_userPurchases
             (<[msg_sender e := userPurchases s (msg_sender e) ++ [purchaseId]]>
                (userPurchases s)) s in
  let s := set_hasPurchased
             (<[msg_sender e := <[productId := true]> (hasPurchased s (msg_sender e))]>
                (hasPurchased s)) s in
  sales ← checked_add (DataProduct.totalSales (products s productId)) 1;
  let s := set_products (<[productId := DataProduct.set_totalSales sales (products s productId)]>
                           (products s)) s in
  mret (s, tok, purchaseId).

(** The state-changing entry points, and one call on the marketplace and
    the token. *)
Inductive Call : Type :=
| ListProduct (name description : string) (price dataHash : Z) (features : list string)
    (category : string)
| PurchaseProduct (productId : Z)
| SubmitReview (productId rating : Z) (comment : string)
| UpdateProductPrice (productId newPrice : Z)
| DeactivateProduct (productId : Z)
| UpdatePlatformFee (newFeePercent : Z)
| UpdateFeeRecipient (newRecipient : address)
| EmergencyDeactivateProduct (productId : Z)
| GrantRole (r : Role) (account : address)
| RevokeRole (r : Role) (account : address)
| RenounceRole (r : Role) (account : address).

Definition call (e : Env) (c : Call) (w : State * Token) : result (State * Token) :=
  match c with
  | ListProduct n d p h f c => r ← listProduct e n d p h f c w.1; mret (r.1, w.2)
  | PurchaseProduct p => r ← purchaseProduct e p w; mret r.1
  | SubmitReview p r c => s ← submitReview e p r c w.1; mret (s, w.2)
  | UpdateProductPrice p n => s ← updateProductPrice e p n w.1; mret (s, w.2)
  | DeactivateProduct p => s ← deactivateProduct e p w.1; mret (s, w.2)
  | UpdatePlatformFee n => s ← updatePlatformFee e n w.1; mret (s, w.2)
  | UpdateFeeRecipient a => s ← updateFeeRecipient e a w.1; mret (s, w.2)
  | EmergencyDeactivateProduct p => s ← emergencyDeactivateProduct e p w.1; mret (s, w.2)
  | GrantRole r a => s ← grantRole e r a w.1; mret (s, w.2)
  | RevokeRole r a => s ← revokeRole e r a w.1; mret (s, w.2)
  | RenounceRole r a => s ← renounceRole e r a w.1; mret (s, w.2)
  end.

(** Any number of transactions, each by any caller at any time.  The token
    may also change between two of them (others use it too). *)
Inductive later : State * Token → State * Token → Prop :=
| later_refl w : later w w
| later_call w1 w2 e c : later w1 w2 → later w1 (transact (call e c) w2)
| later_token w1 s tok tok' : later w1 (s, tok) → later w1 (s, tok').

(** The states a deployed marketplace can be in. *)
Definition reachable (w : State * Token) : Prop :=
  ∃ deployer _paymentToken _feeRecipient tok,
    later (constructor deployer _paymentToken _feeRecipient, tok) w.

End WithToken.

(** The view functions. *)
Definition getProduct (productId : Z) (s : State)
  : address * string * string * Z * bool * Z * Z * Z * string :=
  let product := products s productId in
  (DataProduct.seller product, DataProduct.name product, DataProduct.description product,
   DataProduct.price product, DataProduct.isActive product, DataProduct.totalSales product,
   DataProduct.rating product, DataProduct.reviewCount product,
   DataProduct.category product).
Definition getProductFeatures (productId : Z) (s : State) : list string :=
  DataProduct.features (products s productId).
Definition getUserPurchases (user : address) (s : State) : list Z := userPurchases s user.
Definition getSellerProducts (seller : address) (s : State) : list Z :=
  sellerProducts s seller.
Definition getProductReviews (productId : Z) (s : State) : list Review.t :=
  productReviews s productId.
Definition hasUserPurchased (user : address) (productId : Z) (s : State) : bool :=
  hasPurchased s user productId.

(** A product id that [listProduct] has handed out. *)
Definition listed (s : State) (p : Z) : Prop := 1 ≤ p < nextProductId s.

#[global] Instance listed_dec s p : Decision (listed s p).
Proof. unfold listed. apply _. Defined.

(** Product ids are handed out in order from 1; a listed product carries
    its id, a name, a positive price and a data hash, and an id that was
    never handed out holds no product, no review and no purchase flag. *)
Definition catalogue_in_order (s : State) : Prop :=
  1 ≤ nextProductId s
  ∧ (∀ p, listed s p →
       DataProduct.productId (products s p) = p
       ∧ DataProduct.name (products s p) ≠ ""
       ∧ 0 < DataProduct.price (products s p)
       ∧ DataProduct.dataHash (products s p) ≠ 0)
  ∧ (∀ p, ¬ listed s p →
       products s p = DataProduct.zero
       ∧ productReviews s p = []
       ∧ ∀ u, hasPurchased s u p = false).

(** [sellerProducts] lists, once each, the listed products of a seller. *)
Definition seller_index (s : State) : Prop :=
  ∀ a, NoDup (sellerProducts s a)
       ∧ ∀ p, p ∈ sellerProducts s a ↔ listed s p ∧ DataProduct.seller (products s p) = a.

(** A purchase id that [purchaseProduct] has handed out. *)
Definition recorded (s : State) (id : Z) : Prop := 1 ≤ id < nextPurchaseId s.

#[global] Instance recorded_dec s id : Decision (recorded s id).
Proof. unfold recorded. apply _. Defined.

(** Purchase ids are handed out in order from 1; a recorded purchase is
    completed, is of a listed product, by a buyer other than its seller, and
    its flag is set; a flag is set only where a purchase is recorded, and no
    buyer has two purchases of one product. *)
Definition purchases_in_order (s : State) : Prop :=
  1 ≤ nextPurchaseId s
  ∧ (∀ id, recorded s id →
       Purchase.purchaseId (purchases s id) = id
       ∧ Purchase.isCompleted (purchases s id) = true
       ∧ listed s (Purchase.productId (purchases s id))
       ∧ Purchase.seller (purchases s id)
         = DataProduct.seller (products s (Purchase.productId (purchases s id)))
       ∧ Purchase.buyer (purchases s id) ≠ Purchase.seller (purchases s id)
       ∧ hasPurchased s (Purchase.buyer (purchases s id))
           (Purchase.productId (purchases s id)) = true)
  ∧ (∀ id, ¬ recorded s id → purchases s id = Purchase.zero)
  ∧ (∀ u p, hasPurchased s u p = true →
       ∃ id, recorded s id ∧ Purchase.buyer (purchases s id) = u
             ∧ Purchase.productId (purchases s id) = p)
  ∧ (∀ id1 id2, recorded s id1 → recorded s id2 →
       Purchase.buyer (purchases s id1) = Purchase.buyer (purchases s id2) →
       Purchase.productId (purchases s id1) = Purchase.productId (purchases s id2) →
       id1 = id2).

(** [userPurchases] lists, once each, the recorded purchases of a buyer. *)
Definition buyer_index (s : State) : Prop :=
  ∀ u, NoDup (userPurchases s u)
       ∧ ∀ id, id ∈ userPurchases s u ↔ recorded s id ∧ Purchase.buyer (purchases s id) = u.

(** The recorded purchases of product [p]. *)
Definition sales_of (s : State) (p : Z) : list Z :=
  filter (λ id, Purchase.productId (purchases s id) = p)
         (seqZ 1 (nextPurchaseId s - 1)).

(** The reviews of a product: as many as its [reviewCount], by different
    reviewers who all purchased it, each with one to five stars; and the
    rating of a reviewed product lies between one and five stars. *)
Definition reviews_consistent (s : State) (p : Z) : Prop :=
  DataProduct.reviewCount (products s p) = Z.of_nat (length (productReviews s p))
  ∧ NoDup (Review.reviewer <$> productReviews s p)
  ∧ (∀ r, r ∈ productReviews s p →
       Review.productId r = p ∧ 1 ≤ Review.rating r ≤ 5
       ∧ hasPurchased s (Review.reviewer r) p = true)
  ∧ (productReviews s p = [] → DataProduct.rating (products s p) = 0)
  ∧ (productReviews s p ≠ [] → 100 ≤ DataProduct.rating (products s p) ≤ 500).

(** What a listed product may become: its identity stays, its price stays
    positive, once inactive it stays inactive, and its sales and reviews
    only grow. *)
Definition product_evolves (q q' : DataProduct.t) : Prop :=
  DataProduct.productId q' = DataProduct.productId q
  ∧ DataProduct.seller q' = DataProduct.seller q
  ∧ DataProduct.name q' = DataProduct.name q
  ∧ DataProduct.description q' = DataProduct.description q
  ∧ DataProduct.dataHash q' = DataProduct.dataHash q
  ∧ DataProduct.createdAt q' = DataProduct.createdAt q
  ∧ DataProduct.features q' = DataProduct.features q
  ∧ DataProduct.category q' = DataProduct.category q
  ∧ (DataProduct.isActive q = false → DataProduct.isActive q' = false
                                      ∧ DataProduct.price q' = DataProduct.price q
                                      ∧ DataProduct.totalSales q' = DataProduct.totalSales q)
  ∧ DataProduct.totalSales q ≤ DataProduct.totalSales q'
  ∧ DataProduct.reviewCount q ≤ DataProduct.reviewCount q'.

(** The books of the marketplace agree with each other. *)
Definition market_consistent (s : State) : Prop :=
  catalogue_in_order s ∧ seller_index s
  ∧ purchases_in_order s ∧ buyer_index s
  ∧ (∀ p, DataProduct.totalSales (products s p) = Z.of_nat (length (sales_of s p)))
  ∧ (∀ p, reviews_consistent s p)
  ∧ platformFeePercent s ≤ 1000.

End Marketplace.

(** ** FederatedLearningCoordinator *)

Module Coordinator.

Inductive Role : Type := DEFAULT_ADMIN_ROLE | VALIDATOR_ROLE | AGGREGATOR_ROLE.

#[global] Instance Role_eq_dec : EqDecision Role.
Proof. solve_decision. Defined.

Module ModelUpdate.
Record t : Type := {
  updateHash : Z;
  node : address;
  timestamp : Z;
  round : Z;
  isValidated : bool;
  stake : Z;
  gradientHash : Z
}.
Definition zero : t :=
  {| updateHash := 0; node := 0; timestamp := 0; round := 0; isValidated := false;
     stake := 0; gradientHash := 0 |}.
Definition set_isValidated (b : bool) (u : t) : t :=
  {| updateHash := updateHash u; node := node u; timestamp := timestamp u;
     round := round u; isValidated := b; stake := stake u;
     gradientHash := gradientHash u |}.
End ModelUpdate.

Module AggregatedModel.
Record t : Type := {
  modelHash : Z;
  round : Z;
  timestamp : Z;
  aggregator : address;
  participantCount : Z;
  isActive : bool;
  accuracy : Z
}.
Definition zero : t :=
  {| modelHash := 0; round := 0; timestamp := 0; aggregator := 0; participantCount := 0;
     isActive := false; accuracy := 0 |}.
Definition set_isActive (b : bool) (m : t) : t :=
  {| modelHash := modelHash m; round := round m; timestamp := timestamp m;
     aggregator := aggregator m; participantCount := participantCount m;
     isActive := b; accuracy := accuracy m |}.
End AggregatedModel.

Module TrainingRound.
Record t : Type := {
  roundId : Z;
  startTime : Z;
  endTime : Z;
  minParticipants : Z;
  maxParticipants : Z;
  currentParticipants : Z;
  isActive : bool;
  rewardPool : Z;
  participants : address → bool;
  updates : address → ModelUpdate.t
}.
Definition zero : t :=
  {| roundId := 0; startTime := 0; endTime := 0; minParticipants := 0;
     maxParticipants := 0; currentParticipants := 0; isActive := false; rewardPool := 0;
     participants := λ _, false; updates := λ _, ModelUpdate.zero |}.
Definition set_isActive (b : bool) (r : t) : t :=
  {| roundId := roundId r; startTime := startTime r; endTime := endTime r;
     minParticipants := minParticipants r; maxParticipants := maxParticipants r;
     currentParticipants := currentParticipants r; isActive := b;
     rewardPool := rewardPool r; participants := participants r; updates := updates r |}.
Definition set_updates (f : address → ModelUpdate.t) (r : t) : t :=
  {| roundId := roundId r; startTime := startTime r; endTime := endTime r;
     minParticipants := minParticipants r; maxParticipants := maxParticipants r;
     currentParticipants := currentParticipants r; isActive := isActive r;
     rewardPool := rewardPool r; participants := participants r; updates := f |}.
(** [participants[node] = true; currentParticipants = n] *)
Definition join (node : address) (n : Z) (r : t) : t :=
  {| roundId := roundId r; startTime := startTime r; endTime := endTime r;
     minParticipants := minParticipants r; maxParticipants := maxParticipants r;
     currentParticipants := n; isActive := isActive r;
     rewardPool := rewardPool r; participants := <[node := true]> (participants r);
     updates := updates r |}.
End TrainingRound.

Module NodeInfo.
Record t : Type := {
  nodeAddress : address;
  reputation : Z;
  totalContributions : Z;
  successfulRounds : Z;
  totalRewards : Z;
  isActive : bool;
  lastActiveRound : Z
}.
Definition zero : t :=
  {| nodeAddress := 0; reputation := 0; totalContributions := 0; successfulRounds := 0;
     totalRewards := 0; isActive := false; lastActiveRound := 0 |}.
Definition set_reputation (n : Z) (i : t) : t :=
  {| nodeAddress := nodeAddress i; reputation := n;
     totalContributions := totalContributions i; successfulRounds := successfulRounds i;
     totalRewards := totalRewards i; isActive := isActive i;
     lastActiveRound := lastActiveRound i |}.
(** [totalContributions = n; lastActiveRound = r] *)
Definition contributed (n r : Z) (i : t) : t :=
  {| nodeAddress := nodeAddress i; reputation := reputation i;
     totalContributions := n; successfulRounds := successfulRounds i;
     totalRewards := totalRewards i; isActive := isActive i;
     lastActiveRound := r |}.
End NodeInfo.

Inductive Event : Type :=
| ModelUpdateSubmitted (node : address) (updateHash round stake : Z)
| ModelAggregated (round modelHash : Z) (aggregator : address) (participantCount : Z)
| TrainingRoundStarted (round startTime endTime rewardPool : Z)
| TrainingRoundEnded (round participantCount finalModelHash : Z)
| NodeRegistered (node : address) (initialReputation : Z)
| RewardsDistributed (round totalRewards : Z)
| NodeSlashed (node : address) (amount : Z) (reason : string).

Record State : Type := {
  modelUpdates : address → ModelUpdate.t;
  models : Z → AggregatedModel.t;
  trainingRounds : Z → TrainingRound.t;
  nodes : address → NodeInfo.t;
  currentRound : Z;
  totalRounds : Z;
  minStakeAmount : Z;
  rewardPerParticipant : Z;
  rewardToken : address;
  roles : Role → address → bool;
  events : list Event
}.

Definition set_modelUpdates (f : address → ModelUpdate.t) (s : State) : State :=
  {| modelUpdates := f; models := models s; trainingRounds := trainingRounds s;
     nodes := nodes s; currentRound := currentRound s; totalRounds := totalRounds s;
     minStakeAmount := minStakeAmount s; rewardPerParticipant := rewardPerParticipant s;
     rewardToken := rewardToken s; roles := roles s; events := events s |}.
Definition set_models (f : Z → AggregatedModel.t) (s : State) : State :=
  {| modelUpdates := modelUpdates s; models := f; trainingRounds := trainingRounds s;
     nodes := nodes s; currentRound := currentRound s; totalRounds := totalRounds s;
     minStakeAmount := minStakeAmount s; rewardPerParticipant := rewardPerParticipant s;
     rewardToken := rewardToken s; roles := roles s; events := events s |}.
Definition set_trainingRounds (f : Z → TrainingRound.t) (s : State) : State :=
  {| modelUpdates := modelUpdates s; models := models s; trainingRounds := f;
     nodes := nodes s; currentRound := currentRound s; totalRounds := totalRounds s;
     minStakeAmount := minStakeAmount s; rewardPerParticipant := rewardPerParticipant s;
     rewardToken := rewardToken s; roles := roles s; events := events s |}.
Definition set_nodes (f : address → NodeInfo.t) (s : State) : State :=
  {| modelUpdates := modelUpdates s; models := models s; trainingRounds := trainingRounds s;
     nodes := f; currentRound := currentRound s; totalRounds := totalRounds s;
     minStakeAmount := minStakeAmount s; rewardPerParticipant := rewardPerParticipant s;
     rewardToken := rewardToken s; roles := roles s; events := events s |}.
Definition set_currentRound (n : Z) (s : State) : State :=
  {| modelUpdates := modelUpdates s; models := models s; trainingRounds := trainingRounds s;
     nodes := nodes s; currentRound := n; totalRounds := totalRounds s;
     minStakeAmount := minStakeAmount s; rewardPerParticipant := rewardPerParticipant s;
     rewardToken := rewardToken s; roles := roles s; events := events s |}.
Definition set_totalRounds (n : Z) (s : State) : State :=
  {| modelUpdates := modelUpdates s; models := models s; trainingRounds := trainingRounds s;
     nodes := nodes s; currentRound := currentRound s; totalRounds := n;
     minStakeAmount := minStakeAmount s; rewardPerParticipant := rewardPerParticipant s;
     rewardToken := rewardToken s; roles := roles s; events := events s |}.
Definition set_minStakeAmount (n : Z) (s : State) : State :=
  {| modelUpdates := modelUpdates s; models := models s; trainingRounds := trainingRounds s;
     nodes := nodes s; currentRound := currentRound s; totalRounds := totalRounds s;
     minStakeAmount := n; rewardPerParticipant := rewardPerParticipant s;
     rewardToken := rewardToken s; roles := roles s; events := events s |}.
Definition set_rewardPerParticipant (n : Z) (s : State) : State :=
  {| modelUpdates := modelUpdates s; models := models s; trainingRounds := trainingRounds s;
     nodes := nodes s; currentRound := currentRound s; totalRounds := totalRounds s;
     minStakeAmount := minStakeAmount s; rewardPerParticipant := n;
     rewardToken := rewardToken s; roles := roles s; events := events s |}.
Definition set_roles (f : Role → address → bool) (s : State) : State :=
  {| modelUpdates := modelUpdates s; models := models s; trainingRounds := trainingRounds s;
     nodes := nodes s; currentRound := currentRound s; totalRounds := totalRounds s;
     minStakeAmount := minStakeAmount s; rewardPerParticipant := rewardPerParticipant s;
     rewardToken := rewardToken s; roles := f; events := events s |}.
(** [emit ev]: the event log only grows. *)
Definition emit (ev : Event) (s : State) : State :=
  {| modelUpdates := modelUpdates s; models := models s; trainingRounds := trainingRounds s;
     nodes := nodes s; currentRound := currentRound s; totalRounds := totalRounds s;
     minStakeAmount := minStakeAmount s; rewardPerParticipant := rewardPerParticipant s;
     rewardToken := rewardToken s; roles := roles s; events := events s ++ [ev] |}.

Definition constructor (deployer _rewardToken : address)
  (_minStakeAmount _rewardPerParticipant : Z) : State :=
  {| modelUpdates := λ _, ModelUpdate.zero;
     models := λ _, AggregatedModel.zero;
     trainingRounds := λ _, TrainingRound.zero;
     nodes := λ _, NodeInfo.zero;
     currentRound := 1;
     totalRounds := 0;
     minStakeAmount := _minStakeAmount;
     rewardPerParticipant := _rewardPerParticipant;
     rewardToken := _rewardToken;
     roles := λ r a, bool_decide ((r = DEFAULT_ADMIN_ROLE ∨ r = AGGREGATOR_ROLE) ∧ a = deployer);
     events := [] |}.

Definition hasRole (r : Role) (a : address) (s : State) : bool := roles s r a.
Definition onlyRole (r : Role) (e : Env) (s : State) : result unit :=
  require (hasRole r (msg_sender e) s = true) "AccessControl: missing role".

(** [grantRole], [revokeRole] and [renounceRole] are inherited from
    AccessControl; the admin role of every role is [DEFAULT_ADMIN_ROLE]. *)
Definition grantRole (e : Env) (r : Role) (account : address) (s : State) : result State :=
  onlyRole DEFAULT_ADMIN_ROLE e s;;
  mret (set_roles (<[r := <[account := true]> (roles s r)]> (roles s)) s).
Definition revokeRole (e : Env) (r : Role) (account : address) (s : State) : result State :=
  onlyRole DEFAULT_ADMIN_ROLE e s;;
  mret (set_roles (<[r := <[account := false]> (roles s r)]> (roles s)) s).
Definition renounceRole (e : Env) (r : Role) (account : address) (s : State) : result State :=
  require (account = msg_sender e) "AccessControl: can only renounce roles for self";;
  mret (set_roles (<[r := <[account := false]> (roles s r)]> (roles s)) s).

Definition registerNode (e : Env) (s : State) : result State :=
  require (NodeInfo.isActive (nodes s (msg_sender e)) = false) "Node already registered";;
  let info := {| NodeInfo.nodeAddress := msg_sender e;
                 NodeInfo.reputation := 100;
                 NodeInfo.totalContributions := 0;
                 NodeInfo.successfulRounds := 0;
                 NodeInfo.totalRewards := 0;
                 NodeInfo.isActive := true;
                 NodeInfo.lastActiveRound := 0 |} in
  mret (emit (NodeRegistered (msg_sender e) 100)
          (set_nodes (<[msg_sender e := info]> (nodes s)) s)).

Definition submitModelUpdate (e : Env) (updateHash gradientHash : Z) (s : State)
  : result State :=
  require (NodeInfo.isActive (nodes s (msg_sender e)) = true) "Node not registered";;
  require (updateHash ≠ 0) "Invalid update hash";;
  require (gradientHash ≠ 0) "Invalid gradient hash";;
  let round := trainingRounds s (currentRound s) in
  require (TrainingRound.isActive round = true) "No active training round";;
  require (block_timestamp e ≤ TrainingRound.endTime round) "Training round ended";;
  require (TrainingRound.participants round (msg_sender e) = false)
    "Already participated in this round";;
  require (TrainingRound.currentParticipants round < TrainingRound.maxParticipants round)
    "Round is full";;
  require (minStakeAmount s ≤ msg_value e) "Insufficient stake";;
  (* Record participation *)
  count ← checked_add (TrainingRound.currentParticipants round) 1;
  let round := TrainingRound.join (msg_sender e) count round in
  (* Store model update *)
  let update := {| ModelUpdate.updateHash := updateHash;
                   ModelUpdate.node := msg_sender e;
                   ModelUpdate.timestamp := block_timestamp e;
                   ModelUpdate.round := currentRound s;
                   ModelUpdate.isValidated := false;
                   ModelUpdate.stake := msg_value e;
                   ModelUpdate.gradientHash := gradientHash |} in
  let round := TrainingRound.set_updates
                 (<[msg_sender e := update]> (TrainingRound.updates round)) round in
  let s := set_trainingRounds (<[currentRound s := round]> (trainingRounds s)) s in
  (* Update global mapping *)
  let s := set_modelUpdates (<[msg_sender e := update]> (modelUpdates s)) s in
  (* Update node info *)
  contributions ← checked_add (NodeInfo.totalContributions (nodes s (msg_sender e))) 1;
  let s := set_nodes (<[msg_sender e := NodeInfo.contributed contributions (currentRound s)
                                          (nodes s (msg_sender e))]> (nodes s)) s in
  mret (emit (ModelUpdateSubmitted (msg_sender e) updateHash (currentRound s) (msg_value e)) s).

Definition validateModelUpdate (e : Env) (node : address) (isValid : bool) (s : State)
  : result State :=
  onlyRole VALIDATOR_ROLE e s;;
  let round := trainingRounds s (currentRound s) in
  require (TrainingRound.participants round node = true) "Node did not participate";;
  let update := TrainingRound.updates round node in
  require (ModelUpdate.isValidated update = false) "Already validated";;
  if isValid then
    let round := TrainingRound.set_updates
                   (<[node := ModelUpdate.set_isValidated true update]>
                      (TrainingRound.updates round)) round in
    let s := set_trainingRounds (<[currentRound s := round]> (trainingRounds s)) s in
    (* Increase reputation *)
    reputation ← checked_add (NodeInfo.reputation (nodes s node)) 10;
    mret (set_nodes (<[node := NodeInfo.set_reputation reputation (nodes s node)]> (nodes s)) s)
  else
    (* Slash stake for invalid update *)
    let reputation := if decide (20 < NodeInfo.reputation (nodes s node))
                      then NodeInfo.reputation (nodes s node) - 20 else 0 in
    let s := set_nodes (<[node := NodeInfo.set_reputation reputation (nodes s node)]>
                          (nodes s)) s in
    mret (emit (NodeSlashed node (ModelUpdate.stake update) "Invalid model update") s).

(** The counting loop of [_distributeRewards]: it runs once per unit of
    [round.currentParticipants]. *)
Fixpoint count_participants (iterations : nat) (validParticipants : Z) : result Z :=
  match iterations with
  | O => mret validParticipants
  | S rest =>
      (* This is simplified - in practice, you'd iterate through participants *)
      validParticipants ← checked_add validParticipants 1;
      count_participants rest validParticipants
  end.

Definition _distributeRewards (roundId : Z) (s : State) : result State :=
  let round := trainingRounds s roundId in
  let totalRewards := TrainingRound.rewardPool round in
  validParticipants ←
    count_participants (Z.to_nat (TrainingRound.currentParticipants round)) 0;
  if decide (0 < validParticipants ∧ 0 < totalRewards) then
    rewardPerNode ← checked_div totalRewards validParticipants;
    (* Distribute rewards (simplified implementation) *)
    (* In practice, you'd iterate through all participants and distribute *)
    mret (emit (RewardsDistributed roundId totalRewards) s)
  else mret s.

Definition aggregateModel (e : Env) (roundId modelHash accuracy : Z) (s : State)
  : result State :=
  nonpayable e;;
  onlyRole AGGREGATOR_ROLE e s;;
  let round := trainingRounds s roundId in
  require (TrainingRound.isActive round = true) "Round not active";;
  require (TrainingRound.endTime round < block_timestamp e) "Round not ended";;
  require (TrainingRound.minParticipants round ≤ TrainingRound.currentParticipants round)
    "Insufficient participants";;
  require (modelHash ≠ 0) "Invalid model hash";;
  require (accuracy ≤ 10000) "Invalid accuracy";;
  (* Create aggregated model *)
  let model := {| AggregatedModel.modelHash := modelHash;
                  AggregatedModel.round := roundId;
                  AggregatedModel.timestamp := block_timestamp e;
                  AggregatedModel.aggregator := msg_sender e;
                  AggregatedModel.participantCount := TrainingRound.currentParticipants round;
                  AggregatedModel.isActive := true;
                  AggregatedModel.accuracy := accuracy |} in
  let s := set_models (<[roundId := model]> (models s)) s in
  (* Deactivate previous model *)
  let s := if decide (1 < roundId)
           then set_models (<[roundId - 1 := AggregatedModel.set_isActive false
                                               (models s (roundId - 1))]> (models s)) s
           else s in
  (* End training round *)
  let s := set_trainingRounds
             (<[roundId := TrainingRound.set_isActive false (trainingRounds s roundId)]>
                (trainingRounds s)) s in
  let s := emit (ModelAggregated roundId modelHash (msg_sender e)
                   (TrainingRound.currentParticipants round)) s in
  let s := emit (TrainingRoundEnded roundId (TrainingRound.currentParticipants round)
                   modelHash) s in
  (* Distribute rewards *)
  s ← _distributeRewards roundId s;
  (* Increment round counter *)
  current ← checked_add (currentRound s) 1;
  total ← checked_add (totalRounds s) 1;
  mret (set_totalRounds total (set_currentRound current s)).

Definition updateMinStakeAmount (e : Env) (newAmount : Z) (s : State) : result State :=
  onlyRole DEFAULT_ADMIN_ROLE e s;;
  mret (set_minStakeAmount newAmount s).
Definition updateRewardPerParticipant (e : Env) (newAmount : Z) (s : State) : result State :=
  onlyRole DEFAULT_ADMIN_ROLE e s;;
  mret (set_rewardPerParticipant newAmount s).

(** The reward token is a collaborator outside the repository, as for the
    marketplace: [transferFrom this from to amount]. *)
Section WithToken.
Context {Token : Type}.
Context (transferFrom : address → address → address → Z → Token → result (Token * bool)).
Context (this : address).

Definition startTrainingRound (e : Env) (duration minParticipants maxParticipants rewardPool : Z)
  (w : State * Token) : result (State * Token) :=
  let '(s, tok) := w in
  onlyRole AGGREGATOR_ROLE e s;;
  require (TrainingRound.isActive (trainingRounds s (currentRound s)) = false)
    "Round already active";;
  require (0 < duration) "Invalid duration";;
  require (0 < minParticipants ∧ minParticipants ≤ maxParticipants)
    "Invalid participant limits";;
  let round := trainingRounds s (currentRound s) in
  endTime ← checked_add (block_timestamp e) duration;
  let round := {| TrainingRound.roundId := currentRound s;
                  TrainingRound.startTime := block_timestamp e;
                  TrainingRound.endTime := endTime;
                  TrainingRound.minParticipants := minParticipants;
                  TrainingRound.maxParticipants := maxParticipants;
                  TrainingRound.currentParticipants := 0;
                  TrainingRound.isActive := true;
                  TrainingRound.rewardPool := rewardPool;
                  TrainingRound.participants := TrainingRound.participants round;
                  TrainingRound.updates := TrainingRound.updates round |} in
  let s := set_trainingRounds (<[currentRound s := round]> (trainingRounds s)) s in
  (* Transfer reward tokens to contract *)
  tok ← (if decide (0 < rewardPool)
         then r ← transferFrom this (msg_sender e) this rewardPool tok; mret r.1
         else mret tok);
  mret (emit (TrainingRoundStarted (currentRound s) (block_timestamp e) endTime rewardPool) s,
        tok).

(** The state-changing entry points, and one call on the coordinator and
    the token. *)
Inductive Call : Type :=
| RegisterNode
| StartTrainingRound (duration minParticipants maxParticipants rewardPool : Z)
| SubmitModelUpdate (updateHash gradientHash : Z)
| ValidateModelUpdate (node : address) (isValid : bool)
| AggregateModel (roundId modelHash accuracy : Z)
| UpdateMinStakeAmount (newAmount : Z)
| UpdateRewardPerParticipant (newAmount : Z)
| GrantRole (r : Role) (account : address)
| RevokeRole (r : Role) (account : address)
| RenounceRole (r : Role) (account : address).

Definition call (e : Env) (c : Call) (w : State * Token) : result (State * Token) :=
  match c with
  | RegisterNode => s ← registerNode e w.1; mret (s, w.2)
  | StartTrainingRound d mn mx p => startTrainingRound e d mn mx p w
  | SubmitModelUpdate u g => s ← submitModelUpdate e u g w.1; mret (s, w.2)
  | ValidateModelUpdate n v => s ← validateModelUpdate e n v w.1; mret (s, w.2)
  | AggregateModel r h a => s ← aggregateModel e r h a w.1; mret (s, w.2)
  | UpdateMinStakeAmount n => s ← updateMinStakeAmount e n w.1; mret (s, w.2)
  | UpdateRewardPerParticipant n => s ← updateRewardPerParticipant e n w.1; mret (s, w.2)
  | GrantRole r a => s ← grantRole e r a w.1; mret (s, w.2)
  | RevokeRole r a => s ← revokeRole e r a w.1; mret (s, w.2)
  | RenounceRole r a => s ← renounceRole e r a w.1; mret (s, w.2)
  end.

(** The coordinator states a deployment can reach, whatever the token does. *)
Inductive reachable : State → Prop :=
| reachable_init deployer token stake reward :
    reachable (constructor deployer token stake reward)
| reachable_call e c s tok :
    reachable s → reachable (transact (call e c) (s, tok)).1.

(** Any number of transactions after a state, whatever the token does. *)
Inductive later : State → State → Prop :=
| later_refl s : later s s
| later_call e c s1 s2 tok :
    later s1 s2 → later s1 (transact (call e c) (s2, tok)).1.

End WithToken.

(** The loop of [getCurrentModel], from round [i] down to round 1. *)
Fixpoint find_active_model (i : nat) (s : State) : result (Z * Z * Z * Z) :=
  match i with
  | O => Revert "No active model found"
  | S rest =>
      if AggregatedModel.isActive (models s (Z.of_nat i)) then
        let model := models s (Z.of_nat i) in
        mret (AggregatedModel.modelHash model, AggregatedModel.round model,
              AggregatedModel.timestamp model, AggregatedModel.accuracy model)
      else find_active_model rest s
  end.

Definition getCurrentModel (s : State) : result (Z * Z * Z * Z) :=
  find_active_model (Z.to_nat (totalRounds s)) s.

Definition getNodeInfo (node : address) (s : State) : Z * Z * Z * Z * bool :=
  let nodeInfo := nodes s node in
  (NodeInfo.reputation nodeInfo, NodeInfo.totalContributions nodeInfo,
   NodeInfo.successfulRounds nodeInfo, NodeInfo.totalRewards nodeInfo,
   NodeInfo.isActive nodeInfo).

Definition getTrainingRoundInfo (roundId : Z) (s : State) : Z * Z * Z * Z * bool * Z :=
  let round := trainingRounds s roundId in
  (TrainingRound.startTime round, TrainingRound.endTime round,
   TrainingRound.currentParticipants round, TrainingRound.maxParticipants round,
   TrainingRound.isActive round, TrainingRound.rewardPool round).

(** Rounds are closed in order: only the current round can be open, and
    only the model of the round before it can be active. *)
Definition rounds_in_order (s : State) : Prop :=
  1 ≤ currentRound s
  ∧ (∀ r, TrainingRound.isActive (trainingRounds s r) = true → r = currentRound s)
  ∧ (∀ r, AggregatedModel.isActive (models s r) = true → 1 ≤ r ∧ r + 1 = currentRound s).

(** The reputation after a rejected update. *)
Definition slashed (reputation : Z) : Z :=
  if decide (20 < reputation) then reputation - 20 else 0.

(** At most one aggregated model is active. *)
Definition single_active_model (s : State) : Prop :=
  ∀ i j, AggregatedModel.isActive (models s i) = true →
         AggregatedModel.isActive (models s j) = true → i = j.

(** A round that [startTrainingRound] has not opened yet. *)
Definition unopened (s : State) (r : Z) : Prop :=
  r < 1 ∨ currentRound s < r
  ∨ (r = currentRound s ∧ TrainingRound.isActive (trainingRounds s r) = false).

#[global] Instance unopened_dec s r : Decision (unopened s r).
Proof. unfold unopened. apply _. Defined.

(** The rounds: [totalRounds] rounds are closed and the next one is the
    current round; a round not opened yet holds nothing; an opened round
    carries its id, a quorum of at least one and a capacity of at least the
    quorum, and ends after it starts; no round is over its capacity; and a
    closed round has reached its quorum. *)
Definition rounds_recorded (s : State) : Prop :=
  0 ≤ totalRounds s
  ∧ currentRound s = totalRounds s + 1
  ∧ (∀ r, unopened s r → trainingRounds s r = TrainingRound.zero)
  ∧ (∀ r, ¬ unopened s r →
       TrainingRound.roundId (trainingRounds s r) = r
       ∧ 0 < TrainingRound.minParticipants (trainingRounds s r)
       ∧ TrainingRound.minParticipants (trainingRounds s r)
         ≤ TrainingRound.maxParticipants (trainingRounds s r)
       ∧ TrainingRound.startTime (trainingRounds s r)
         < TrainingRound.endTime (trainingRounds s r))
  ∧ (∀ r, 0 ≤ TrainingRound.currentParticipants (trainingRounds s r)
          ∧ TrainingRound.currentParticipants (trainingRounds s r)
            ≤ TrainingRound.maxParticipants (trainingRounds s r))
  ∧ (∀ r, 1 ≤ r ≤ totalRounds s →
       TrainingRound.isActive (trainingRounds s r) = false
       ∧ TrainingRound.minParticipants (trainingRounds s r)
         ≤ TrainingRound.currentParticipants (trainingRounds s r)).

(** The models: each closed round has one, which carries the round's id
    and number of participants, a model hash and an accuracy of at most
    10000; the model of the last closed round is the active one; and no other
    round has a model. *)
Definition models_recorded (s : State) : Prop :=
  (∀ r, 1 ≤ r ≤ totalRounds s →
     AggregatedModel.round (models s r) = r
     ∧ AggregatedModel.modelHash (models s r) ≠ 0
     ∧ AggregatedModel.accuracy (models s r) ≤ 10000
     ∧ AggregatedModel.participantCount (models s r)
       = TrainingRound.currentParticipants (trainingRounds s r)
     ∧ (AggregatedModel.isActive (models s r) = true ↔ r = totalRounds s))
  ∧ (∀ r, ¬ (1 ≤ r ≤ totalRounds s) → models s r = AggregatedModel.zero).

(** The nodes: an address that has not registered holds nothing; a
    registered node carries its address; reputation and contributions are
    never negative; and no node has a successful round or a reward. *)
Definition nodes_recorded (s : State) : Prop :=
  ∀ n, (NodeInfo.isActive (nodes s n) = false → nodes s n = NodeInfo.zero)
       ∧ (NodeInfo.isActive (nodes s n) = true → NodeInfo.nodeAddress (nodes s n) = n)
       ∧ 0 ≤ NodeInfo.reputation (nodes s n)
       ∧ 0 ≤ NodeInfo.totalContributions (nodes s n)
       ∧ NodeInfo.successfulRounds (nodes s n) = 0
       ∧ NodeInfo.totalRewards (nodes s n) = 0.

(** The participants of a round are registered nodes, and the round holds
    the update of each. *)
Definition participants_recorded (s : State) : Prop :=
  ∀ r n, TrainingRound.participants (trainingRounds s r) n = true →
         NodeInfo.isActive (nodes s n) = true
         ∧ ModelUpdate.node (TrainingRound.updates (trainingRounds s r) n) = n
         ∧ ModelUpdate.round (TrainingRound.updates (trainingRounds s r) n) = r
         ∧ ModelUpdate.updateHash (TrainingRound.updates (trainingRounds s r) n) ≠ 0
         ∧ ModelUpdate.gradientHash (TrainingRound.updates (trainingRounds s r) n) ≠ 0.

(** The books of the coordinator agree with each other. *)
Definition coordinator_consistent (s : State) : Prop :=
  rounds_in_order s ∧ rounds_recorded s ∧ models_recorded s
  ∧ nodes_recorded s ∧ participants_recorded s.

End Coordinator.

(** ** Scenarios: concrete ledgers on which the properties below are run *)

Module Scenario.

Definition admin : address := 1.
Definition alice : address := 10.
Definition bob : address := 11.
Definition carol : address := 12.
Definition lender : address := 20.
Definition portal : address := 30.

Definition at_time (sender : address) (value now : Z) : Env :=
  {| msg_sender := sender; msg_value := value; block_timestamp := now |}.

(** A freshly deployed registry, and the same registry paused. *)
Definition registry0 : Registry.State := Registry.constructor admin.
Definition registry_paused : Registry.State := Registry.set_paused true registry0.

(** A registry that lets the portal read scores (lender role), holding the
    scores 700, 650 and 600 for Alice, Bob and Carol, and none for Dave. *)
Definition dave : address := 13.
Definition registry1 : Registry.State :=
  transact (Registry.call (at_time admin 0 900) (Registry.UpdateScore carol 600))
  (transact (Registry.call (at_time admin 0 900) (Registry.UpdateScore bob 650))
  (transact (Registry.call (at_time admin 0 900) (Registry.UpdateScore alice 700))
  (transact (Registry.call (at_time admin 0 900) (Registry.GrantLenderRole portal))
     registry0))).

(** A portal with one approved lender holding a [basic] grant issued at
    time 1000, whose base rate is [rate]. *)
Definition portal_with_rate (rate : Z) : Portal.State :=
  transact (Portal.requestAPIAccess (at_time lender 0 1000) "basic")
  (transact (Portal.approveLender (at_time admin 0 999) lender)
  (transact (Portal.registerLender (at_time lender Portal.ETHER 998) "Acme" "L-1" [] 0 rate)
     (Portal.constructor admin))).
Definition portal1 : Portal.State := portal_with_rate 500.
Definition portal_maxrate : Portal.State := portal_with_rate MAX_UINT256.

(** Alice authorizes the lender on the registry. *)
Definition registry_granted : Registry.State :=
  transact (Registry.call (at_time alice 0 910) (Registry.GrantLenderAccess lender)) registry1.

Definition registry_revoked : Registry.State :=
  transact (Registry.call (at_time alice 0 920) (Registry.RevokeLenderAccess lender))
    registry_granted.

(** The fee of one request, and a call by the lender at time [now]. *)
Definition fee : Z := Portal.ETHER / 100.
Definition lender_at (now : Z) : Env := at_time lender fee now.

(** The same lender after a batch of one hundred requests at time 1500:
    the [basic] quota of 100 is used up, and its window ends at
    [1000 + 30 days]. *)
Definition portal_exhausted : Portal.State :=
  Portal.commit (Portal.submitBatchRequest portal registry1 (at_time lender Portal.ETHER 1500)
                   (replicate 100 alice) (replicate 100 1000)) portal1.
(** A time after the window has ended. *)
Definition after_window : Z := 1000 + DAYS_30 + 1.

(** The same history as a sequence of calls on the portal, followed by one
    credit request for Bob. *)
Definition portal_history : Portal.State :=
  transact (Portal.call portal registry1 (lender_at 1600)
              (Portal.SubmitCreditRequest bob 500))
  (transact (Portal.call portal registry1 (at_time lender 0 1000)
               (Portal.RequestAPIAccess "basic"))
  (transact (Portal.call portal registry1 (at_time admin 0 999)
               (Portal.ApproveLender lender))
  (transact (Portal.call portal registry1 (at_time lender Portal.ETHER 998)
               (Portal.RegisterLender "Acme" "L-1" [] 0 500))
     (Portal.constructor admin)))).

(** A token that keeps balances and reverts a transfer the payer cannot
    cover, and a stand-in for the hash, to run the scenarios below. *)
Definition Balances : Type := address → Z.
Definition simple_transferFrom (spender from to : address) (amount : Z) (bal : Balances)
  : result (Balances * bool) :=
  if decide (amount ≤ bal from) then
    let bal := <[from := bal from - amount]> bal in
    Ok (<[to := bal to + amount]> bal, true)
  else Revert "ERC20: transfer amount exceeds balance".
Definition simple_hash (a : address) (p now : Z) : Z := a + p + now.

Definition market : address := 40.
Definition token : address := 41.
Definition treasury : address := 42.
Definition wallets : Balances := λ a, if decide (a = bob) then 5000 else 0.

Definition market_call : Env → Marketplace.Call → Marketplace.State * Balances
                         → result (Marketplace.State * Balances) :=
  Marketplace.call simple_transferFrom simple_hash market.

(** Alice lists product 1 at price 1000; then Bob buys it. *)
Definition market1 : Marketplace.State * Balances :=
  transact (market_call (at_time alice 0 100)
              (Marketplace.ListProduct "Scores" "Monthly credit scores" 1000 77 [] "credit"))
    (Marketplace.constructor admin token treasury, wallets).
Definition market2 : Marketplace.State * Balances :=
  transact (market_call (at_time bob 0 200) (Marketplace.PurchaseProduct 1)) market1.
(** Then Bob gives two stars, and Alice takes the product off sale. *)
Definition market3 : Marketplace.State * Balances :=
  transact (market_call (at_time bob 0 300) (Marketplace.SubmitReview 1 2 "Fair")) market2.
Definition market4 : Marketplace.State * Balances :=
  transact (market_call (at_time alice 0 400) (Marketplace.DeactivateProduct 1)) market3.

(** A coordinator whose admin is also validator; Alice and Bob register
    and join round 1, opened at time 1000 for 100 seconds with at least two
    participants and a reward pool of 1000. *)
Definition coordinator : address := 50.
Definition funds : Balances := λ a, if decide (a = admin) then 5000 else 0.
Definition coordinator_call : Env → Coordinator.Call → Coordinator.State * Balances
                              → result (Coordinator.State * Balances) :=
  Coordinator.call simple_transferFrom coordinator.
Definition round_open : Coordinator.State * Balances :=
  transact (coordinator_call (at_time bob 10 1050) (Coordinator.SubmitModelUpdate 21 22))
  (transact (coordinator_call (at_time alice 10 1040) (Coordinator.SubmitModelUpdate 11 12))
  (transact (coordinator_call (at_time admin 0 1000)
               (Coordinator.StartTrainingRound 100 2 5 1000))
  (transact (coordinator_call (at_time bob 0 903) Coordinator.RegisterNode)
  (transact (coordinator_call (at_time alice 0 902) Coordinator.RegisterNode)
  (transact (coordinator_call (at_time admin 0 901)
               (Coordinator.GrantRole Coordinator.VALIDATOR_ROLE admin))
     (Coordinator.constructor admin token 10 5, funds)))))).

(** The same history before the round is opened, and once it is open. *)
Definition nodes_registered : Coordinator.State * Balances :=
  transact (coordinator_call (at_time bob 0 903) Coordinator.RegisterNode)
  (transact (coordinator_call (at_time alice 0 902) Coordinator.RegisterNode)
  (transact (coordinator_call (at_time admin 0 901)
               (Coordinator.GrantRole Coordinator.VALIDATOR_ROLE admin))
     (Coordinator.constructor admin token 10 5, funds))).
Definition round_started : Coordinator.State * Balances :=
  transact (coordinator_call (at_time admin 0 1000)
              (Coordinator.StartTrainingRound 100 2 5 1000)) nodes_registered.
Definition alice_joined : Coordinator.State * Balances :=
  transact (coordinator_call (at_time alice 10 1040) (Coordinator.SubmitModelUpdate 11 12))
    round_started.
(** Alice's update is rejected; and the round is closed after its end. *)
Definition alice_rejected : Coordinator.State * Balances :=
  transact (coordinator_call (at_time admin 0 1060)
              (Coordinator.ValidateModelUpdate alice false)) round_open.
Definition round_closed : Coordinator.State * Balances :=
  transact (coordinator_call (at_time admin 0 1101) (Coordinator.AggregateModel 1 99 9000))
    round_open.
(** Round 2, opened at time 1200 for 100 seconds while the model of round 1
    is the active one, with Alice and Bob again. *)
Definition round2_open : Coordinator.State * Balances :=
  transact (coordinator_call (at_time bob 10 1250) (Coordinator.SubmitModelUpdate 41 42))
  (transact (coordinator_call (at_time alice 10 1240) (Coordinator.SubmitModelUpdate 31 32))
  (transact (coordinator_call (at_time admin 0 1200)
               (Coordinator.StartTrainingRound 100 2 5 500)) round_closed)).

End Scenario.

(** * Properties *)

Lemma bind_Ok {A B} (m : result A) (f : A → result B) (b : B) :
  m ≫= f = Ok b ↔ ∃ a, m = Ok a ∧ f a = Ok b.
Proof.
  destruct m as [a|r]; simpl.
  - split; [eauto | intros (a' & [= <-] & ?); done].
  - split; [done | intros (a' & ? & ?); done].
Qed.

Lemma require_Ok (P : Prop) `{Decision P} msg u :
  require P msg = Ok u ↔ P.
Proof. unfold require. destruct u. case_decide; naive_solver. Qed.

Lemma require_true (P : Prop) `{Decision P} msg :
  P → require P msg = Ok ().
Proof. intros. unfold require. by case_decide. Qed.

Lemma require_false (P : Prop) `{Decision P} msg :
  ¬ P → require P msg = Revert msg.
Proof. intros. unfold require. by case_decide. Qed.

Lemma checked_add_Ok a b c :
  checked_add a b = Ok c ↔ a + b ≤ MAX_UINT256 ∧ c = a + b.
Proof. unfold checked_add. case_decide; naive_solver. Qed.

Lemma checked_add_fits a b :
  a + b ≤ MAX_UINT256 → checked_add a b = Ok (a + b).
Proof. intros. unfold checked_add. by case_decide. Qed.

Lemma is_ok_bind {A B} (m : result A) (f : A → result B) :
  is_ok m → (∀ a, m = Ok a → is_ok (f a)) → is_ok (m ≫= f).
Proof. destruct m; simpl; [auto | done]. Qed.

Lemma is_ok_require (P : Prop) `{Decision P} msg : P → is_ok (require P msg).
Proof. intros. by rewrite require_true. Qed.

Lemma is_ok_checked_add a b : a + b ≤ MAX_UINT256 → is_ok (checked_add a b).
Proof. intros. by rewrite checked_add_fits. Qed.

(** Passes the check at the head of a call whose condition holds. *)
Ltac pass :=
  lazymatch goal with
  | |- (nonpayable ?e ≫= _) = _ =>
      unfold nonpayable at 1;
      rewrite (require_true (msg_value e = 0)) by (first [done | lia]); simpl
  | |- (@require ?P ?d ?m ≫= _) = _ =>
      rewrite (@require_true P d m) by (first [done | lia]); simpl
  | |- (checked_add ?a ?b ≫= _) = _ =>
      rewrite (checked_add_fits a b) by lia; simpl
  end.

(** Stops at the check at the head of a call whose condition fails. *)
Ltac stop :=
  lazymatch goal with
  | |- (nonpayable ?e ≫= _) = _ =>
      unfold nonpayable at 1;
      rewrite (require_false (msg_value e = 0)) by (first [done | lia | congruence]); simpl
  | |- (@require ?P ?d ?m ≫= _) = _ =>
      rewrite (@require_false P d m) by (first [done | lia | congruence]); simpl
  end.

(** Unfolds the binds of a call that returned and names each step. *)
Ltac inv_ok :=
  repeat match goal with
  | H : _ ≫= _ = Ok _ |- _ => apply bind_Ok in H; destruct H as (? & ? & H)
  | H : require _ _ = Ok _ |- _ => apply require_Ok in H
  | H : nonpayable _ = Ok _ |- _ => unfold nonpayable in H; apply require_Ok in H
  | H : checked_add _ _ = Ok _ |- _ => apply checked_add_Ok in H; destruct H as [? ->]
  | H : Ok _ = Ok _ |- _ => injection H as H
  | H : mret _ = Ok _ |- _ => injection H as H
  end.


(** ** CreditScoreRegistry *)

Section RegistryFacts.
Import Registry.

Lemma write_score_Ok e u sc s s' :
  write_score e u sc s = Ok s' ↔
  CreditScore.version (scores s u) < MAX_UINT256 ∧
  s' = set_scores (<[u := {| CreditScore.score := sc;
                             CreditScore.lastUpdated := block_timestamp e;
                             CreditScore.version := CreditScore.version (scores s u) + 1;
                             CreditScore.isActive := true;
                             CreditScore.updatedBy := msg_sender e |}]> (scores s)) s.
Proof.
  unfold write_score. rewrite bind_Ok. split.
  - intros (v & Hv & Hs). apply checked_add_Ok in Hv as [Hle ->].
    injection Hs as <-. split; [lia | done].
  - intros [Hlt ->]. eexists. split; [apply checked_add_fits; lia | done].
Qed.

Lemma updateScore_Ok e u sc s s' :
  updateScore e u sc s = Ok s' ↔
  msg_value e = 0
  ∧ hasRole ORACLE_ROLE (msg_sender e) s = true ∧ paused s = false ∧ u ≠ 0
  ∧ (300 ≤ sc ∧ sc ≤ 850) ∧ write_score e u sc s = Ok s'.
Proof.
  unfold updateScore, nonpayable, onlyRole, whenNotPaused.
  repeat setoid_rewrite bind_Ok. repeat setoid_rewrite require_Ok.
  naive_solver.
Qed.

(** C4, as the code has it: [updateScore(u,s)] succeeds exactly when the
    call carries no ether (the function is not payable), the caller holds
    the oracle role, the registry is not paused, [u] is not the zero
    address, [300 ≤ s ≤ 850] and the version counter of [u] can still be
    incremented; in every other case the call reverts and the transaction
    leaves the whole state as it was. *)
Theorem updateScore_succeeds_iff (e : Env) (u : address) (sc : Z) (s : State) :
  (is_ok (updateScore e u sc s) ↔
     msg_value e = 0
     ∧ hasRole ORACLE_ROLE (msg_sender e) s = true ∧ paused s = false ∧ u ≠ 0
     ∧ 300 ≤ sc ≤ 850 ∧ CreditScore.version (scores s u) < MAX_UINT256)
  ∧ (¬ is_ok (updateScore e u sc s) →
     (∃ reason, updateScore e u sc s = Revert reason)
     ∧ transact (updateScore e u sc) s = s).
Proof.
  split.
  - split.
    + destruct (updateScore e u sc s) as [s'|] eqn:E; [intros _ | done].
      apply updateScore_Ok in E as (? & ? & ? & ? & ? & E).
      apply write_score_Ok in E as [? _]. done.
    + intros (Hval & Hr & Hp & Hu & Hsc & Hv).
      pose proof (proj2 (write_score_Ok e u sc s _) (conj Hv eq_refl)) as W.
      pose proof (proj2 (updateScore_Ok e u sc s _)
                    (conj Hval (conj Hr (conj Hp (conj Hu (conj Hsc W)))))) as U.
      by rewrite U.
  - unfold transact. destruct (updateScore e u sc s); simpl; [tauto | eauto].
Qed.

Lemma updateScore_succeeds_iff_witness :
  is_ok (updateScore (Scenario.at_time Scenario.admin 0 1000) Scenario.alice 700
           Scenario.registry0)
  ∧ transact (updateScore (Scenario.at_time Scenario.admin 0 1000) Scenario.alice 299)
      Scenario.registry0
    = Scenario.registry0.
Proof.
  split.
  - apply (proj1 (updateScore_succeeds_iff (Scenario.at_time Scenario.admin 0 1000)
                    Scenario.alice 700 Scenario.registry0)).
    split_and!; by vm_compute.
  - apply (proj2 (updateScore_succeeds_iff (Scenario.at_time Scenario.admin 0 1000)
                    Scenario.alice 299 Scenario.registry0)).
    vm_compute. tauto.
Defined.

(** C4, the claim as the specification words it, fails: an oracle's call
    with a score in range reverts for the zero address, and for any user
    while the registry is paused. *)
Lemma updateScore_oracle_in_range_reverts :
  hasRole ORACLE_ROLE Scenario.admin Scenario.registry0 = true
  ∧ hasRole ORACLE_ROLE Scenario.admin Scenario.registry_paused = true
  ∧ 300 ≤ 700 ≤ 850
  ∧ updateScore (Scenario.at_time Scenario.admin 0 1000) 0 700 Scenario.registry0
    = Revert "Invalid user address"
  ∧ updateScore (Scenario.at_time Scenario.admin 0 1000) Scenario.alice 700
      Scenario.registry_paused
    = Revert "Pausable: paused".
Proof. repeat split; done. Qed.

(** *** The authorized-lender list against the access flags *)

Lemma find_lender_Some lender l i j :
  find_lender lender l i = Some j →
  ∃ l1 l2, l = l1 ++ (lender :: l2) ∧ (lender ∉ l1) ∧ j = (i + length l1)%nat.
Proof.
  revert i. induction l as [|x l IH]; intros i; simpl; [done|].
  case_decide as Hx.
  - intros [= <-]. exists [], l. subst x. split_and!; [done | set_solver | simpl; lia].
  - intros (l1 & l2 & -> & Hl1 & ->)%IH. exists (x :: l1), l2.
    split_and!; [done | | simpl; lia].
    rewrite not_elem_of_cons. done.
Qed.

Lemma find_lender_None lender l i :
  find_lender lender l i = None ↔ lender ∉ l.
Proof.
  revert i. induction l as [|x l IH]; intros i; simpl.
  - split; [set_solver | done].
  - case_decide as Hx.
    + subst x. split; [done | set_solver].
    + rewrite IH, not_elem_of_cons. naive_solver.
Qed.

(** Copying the last element over slot [length l1] and popping leaves the
    other elements, up to order. *)
Lemma swap_remove_split lender (l1 l2 : list address) :
  lender ∉ l1 →
  swap_remove lender (l1 ++ lender :: l2) ≡ₚ l1 ++ l2.
Proof.
  intros Hl1. unfold swap_remove.
  destruct (find_lender lender (l1 ++ lender :: l2) 0) as [j|] eqn:E; last first.
  { apply find_lender_None in E. set_solver. }
  apply find_lender_Some in E as (k1 & k2 & Heq & Hk1 & ->). simpl.
  assert (k1 = l1 ∧ k2 = l2) as [-> ->].
  { clear -Heq Hl1 Hk1. revert k1 Heq Hk1.
    induction l1 as [|a l1 IH]; intros [|b k1] Heq Hk1; simplify_eq/=.
    - done.
    - set_solver.
    - set_solver.
    - apply not_elem_of_cons in Hl1 as [? ?], Hk1 as [? ?].
      destruct (IH ltac:(done) k1) as [-> ->]; done. }
  destruct (decide (l2 = [])) as [->|Hne].
  - replace (length (l1 ++ [lender]) - 1)%nat with (pred (length (l1 ++ [lender]))) by lia.
    rewrite <- last_lookup, last_snoc.
    rewrite insert_app_r_alt by lia. rewrite Nat.sub_diag. simpl.
    rewrite take_app_length' by (repeat (rewrite length_app || simpl); lia).
    by rewrite app_nil_r.
  - apply last_is_Some in Hne as [z Hz]. apply last_Some in Hz as [l2' ->].
    replace (l1 ++ lender :: l2' ++ [z]) with ((l1 ++ lender :: l2') ++ [z])
      by (by rewrite <- app_assoc).
    replace (length ((l1 ++ lender :: l2') ++ [z]) - 1)%nat
      with (pred (length ((l1 ++ lender :: l2') ++ [z]))) by lia.
    rewrite <- last_lookup, last_snoc.
    rewrite insert_app_l by (rewrite length_app; simpl; lia).
    rewrite insert_app_r_alt by lia. rewrite Nat.sub_diag. simpl.
    rewrite take_app_length' by (repeat (rewrite length_app || simpl); lia).
    rewrite <- Permutation_middle. rewrite app_assoc.
    by rewrite <- Permutation_cons_append.
Qed.

Lemma swap_remove_spec lender (l : list address) :
  NoDup l → lender ∈ l →
  NoDup (swap_remove lender l) ∧ ∀ x, x ∈ swap_remove lender l ↔ x ∈ l ∧ x ≠ lender.
Proof.
  intros Hnd Hin.
  destruct (find_lender lender l 0) as [j|] eqn:E; last first.
  { apply find_lender_None in E. done. }
  apply find_lender_Some in E as (l1 & l2 & -> & Hl1 & _).
  pose proof (swap_remove_split lender l1 l2 Hl1) as HP.
  apply list.NoDup_app in Hnd as (Hnd1 & Hdisj & Hnd2).
  apply list.NoDup_cons in Hnd2 as [Hl2 Hnd2].
  split.
  - rewrite HP. apply list.NoDup_app. split_and!; [done | | done].
    intros x Hx1 Hx2. apply (Hdisj x Hx1). set_solver.
  - intros x. rewrite HP. rewrite !elem_of_app, elem_of_cons. split.
    + intros [Hx|Hx]; (split; [tauto|]); intros ->; done.
    + naive_solver.
Qed.

Lemma same_access_consistent s s' u :
  same_access s s' → lenders_consistent s u → lenders_consistent s' u.
Proof.
  intros [Ha Hl] [H1 H2]. unfold lenders_consistent. rewrite Ha, Hl. done.
Qed.

Lemma write_score_same_access e u sc s s' :
  write_score e u sc s = Ok s' → same_access s s'.
Proof. intros [_ ->]%write_score_Ok. done. Qed.

Lemma batch_loop_same_access e users newScores i s s' :
  batch_loop e users newScores i s = Ok s' → same_access s s'.
Proof.
  revert i s. induction users as [|u users IH]; intros i s; simpl.
  - intros [= <-]. done.
  - intros H. inv_ok. destruct (newScores !! i); [|done].
    inv_ok. subst.
    match goal with W : write_score _ _ _ _ = Ok _ |- _ =>
      apply write_score_same_access in W as [Wa Wl] end.
    apply IH in H as [Ha Hl]. split; [congruence|].
    intros u'. rewrite Hl. apply Wl.
Qed.

Lemma grantLenderAccess_consistent e lender s s' u :
  grantLenderAccess e lender s = Ok s' →
  lenders_consistent s u → lenders_consistent s' u.
Proof.
  unfold grantLenderAccess, whenNotPaused. intros H [Hflag Hnd]. inv_ok. subst s'.
  unfold lenders_consistent. simpl.
  destruct (decide (msg_sender e = u)) as [<-|Hne].
  - rewrite !fn_lookup_insert. simpl.
    assert (lender ∉ DataConsent.authorizedLenders (consents s (msg_sender e))) as Hnotin.
    { rewrite Hflag. congruence. }
    split.
    + intros a. rewrite elem_of_app, list_elem_of_singleton.
      destruct (decide (lender = a)) as [<-|Hx].
      * rewrite fn_lookup_insert. naive_solver.
      * rewrite fn_lookup_insert_ne by done. rewrite Hflag. naive_solver.
    + apply list.NoDup_app. split_and!; [done | | apply NoDup_singleton].
      intros a Ha ->%list_elem_of_singleton. done.
  - rewrite !fn_lookup_insert_ne by done. done.
Qed.

Lemma revokeLenderAccess_consistent e lender s s' u :
  revokeLenderAccess e lender s = Ok s' →
  lenders_consistent s u → lenders_consistent s' u.
Proof.
  unfold revokeLenderAccess, whenNotPaused. intros H [Hflag Hnd]. inv_ok. subst s'.
  unfold lenders_consistent. simpl.
  destruct (decide (msg_sender e = u)) as [<-|Hne].
  - rewrite !fn_lookup_insert. simpl.
    assert (lender ∈ DataConsent.authorizedLenders (consents s (msg_sender e))) as Hin.
    { by rewrite Hflag. }
    destruct (swap_remove_spec lender _ Hnd Hin) as [Hnd' Hel].
    split; [|done].
    intros a. rewrite Hel.
    destruct (decide (lender = a)) as [<-|Hx].
    + rewrite fn_lookup_insert. naive_solver.
    + rewrite fn_lookup_insert_ne by done. rewrite Hflag. naive_solver.
  - rewrite !fn_lookup_insert_ne by done. done.
Qed.

Lemma call_consistent e c s s' u :
  call e c s = Ok s' → lenders_consistent s u → lenders_consistent s' u.
Proof.
  destruct c; simpl.
  - intros (_ & _ & _ & _ & _ & W)%updateScore_Ok.
    apply same_access_consistent. by eapply write_score_same_access.
  - unfold updateScoreFactors. intros H. inv_ok. subst s'. done.
  - unfold updateConsent. intros H. inv_ok. subst s'.
    apply same_access_consistent. split; [done|]. intros u'. simpl.
    destruct (decide (msg_sender e = u')) as [<-|?].
    + by rewrite fn_lookup_insert.
    + by rewrite fn_lookup_insert_ne.
  - apply grantLenderAccess_consistent.
  - apply revokeLenderAccess_consistent.
  - unfold batchUpdateScores. intros H. inv_ok.
    apply same_access_consistent. by eapply batch_loop_same_access.
  - unfold pause. intros H. inv_ok. subst s'. done.
  - unfold unpause. intros H. inv_ok. subst s'. done.
  - unfold grantOracleRole. intros H. inv_ok. subst s'. done.
  - unfold grantLenderRole. intros H. inv_ok. subst s'. done.
  - unfold grantRole. intros H. inv_ok. subst s'. done.
  - unfold revokeRole. intros H. inv_ok. subst s'. done.
  - unfold renounceRole. intros H. inv_ok. subst s'. done.
Qed.

(** C10: for every user, a lender is in [authorizedLenders] exactly when its
    [lenderAccess] flag is set, and at most once.  This holds after
    deployment, is preserved by every transaction on the registry (a
    reverted one included), and so holds in every reachable state. *)
Theorem lenders_consistent_invariant :
  (∀ deployer user, lenders_consistent (constructor deployer) user)
  ∧ (∀ e c s user,
       lenders_consistent s user → lenders_consistent (transact (call e c) s) user)
  ∧ (∀ s user, reachable s → lenders_consistent s user).
Proof.
  assert (∀ deployer user, lenders_consistent (constructor deployer) user) as Hinit.
  { intros deployer user. split; simpl.
    - intros lender. split; [by intros ?%elem_of_nil | done].
    - apply NoDup_nil_2. }
  assert (∀ e c s user,
    lenders_consistent s user → lenders_consistent (transact (call e c) s) user) as Hstep.
  { intros e c s user Hs. unfold transact.
    destruct (call e c s) as [s'|] eqn:E; [|done].
    by eapply call_consistent. }
  split_and!; [done | done |].
  intros s user Hr. induction Hr; auto.
Qed.

Lemma lenders_consistent_invariant_witness :
  lenders_consistent
    (transact (call (Scenario.at_time Scenario.alice 0 1000)
                 (GrantLenderAccess Scenario.lender)) Scenario.registry0)
    Scenario.alice.
Proof.
  apply (proj1 (proj2 lenders_consistent_invariant)).
  apply (proj1 lenders_consistent_invariant).
Defined.

(** Grant, revoke, grant again: the lender is listed once. *)
Lemma grant_revoke_grant_no_duplicate :
  DataConsent.authorizedLenders
    (consents
       (transact (call (Scenario.at_time Scenario.alice 0 1003) (GrantLenderAccess Scenario.lender))
       (transact (call (Scenario.at_time Scenario.alice 0 1002) (RevokeLenderAccess Scenario.lender))
       (transact (call (Scenario.at_time Scenario.alice 0 1001) (GrantLenderAccess Scenario.lender))
          Scenario.registry0)))
       Scenario.alice)
  = [Scenario.lender].
Proof. reflexivity. Qed.

End RegistryFacts.

(** ** LenderPortal *)

Section PortalFacts.
Import Portal.

(** What [_processCreditRequest] writes, branch by branch. *)
Lemma _processCreditRequest_Ok this reg e id s :
  CreditRequest.isProcessed (creditRequests s id) = false →
  LenderInfo.successfulRequests (lenders s (CreditRequest.lender (creditRequests s id)))
    < MAX_UINT256 →
  (∀ sc, registry_getScore this reg e (CreditRequest.borrower (creditRequests s id)) = Ok sc →
         650 ≤ sc < 700 →
         LenderInfo.interestRate (lenders s (CreditRequest.lender (creditRequests s id))) + 200
           ≤ MAX_UINT256) →
  ∃ s', _processCreditRequest this reg e id s = Ok s'
    ∧ nextRequestId s' = nextRequestId s
    ∧ (∀ id', id' ≠ id → creditRequests s' id' = creditRequests s id')
    ∧ creditRequests s' id =
        let q := creditRequests s id in
        let base := LenderInfo.interestRate (lenders s (CreditRequest.lender q)) in
        match registry_getScore this reg e (CreditRequest.borrower q) with
        | Ok sc =>
            if decide (700 ≤ sc)
            then CreditRequest.decided true sc "Low Risk" (CreditRequest.requestedAmount q)
                   base true q
            else if decide (650 ≤ sc)
            then CreditRequest.decided true sc "Medium Risk"
                   (CreditRequest.requestedAmount q / 2) (base + 200) true q
            else CreditRequest.decided false sc "High Risk" 0 (CreditRequest.interestRate q)
                   true q
        | Revert _ =>
            CreditRequest.decided false 0 "No Credit History" (CreditRequest.approvedAmount q)
              (CreditRequest.interestRate q) true q
        end.
Proof.
  intros Hfresh Hsucc Hrate. unfold _processCreditRequest.
  rewrite require_true by done. simpl.
  destruct (registry_getScore this reg e _) as [sc|reason] eqn:E.
  - specialize (Hrate sc eq_refl).
    destruct (decide (700 ≤ sc)); [|destruct (decide (650 ≤ sc))].
    + rewrite checked_add_fits by lia. simpl. eexists. split; [done|].
      simpl. split_and!; [done | | by rewrite fn_lookup_insert].
      intros id' ?. by rewrite fn_lookup_insert_ne.
    + rewrite checked_add_fits by lia. simpl.
      rewrite checked_add_fits by lia. simpl. eexists. split; [done|].
      simpl. split_and!; [done | | by rewrite fn_lookup_insert].
      intros id' ?. by rewrite fn_lookup_insert_ne.
    + eexists. split; [done|].
      simpl. split_and!; [done | | by rewrite fn_lookup_insert].
      intros id' ?. by rewrite fn_lookup_insert_ne.
  - eexists. split; [done|].
    simpl. split_and!; [done | | by rewrite fn_lookup_insert].
    intros id' ?. by rewrite fn_lookup_insert_ne.
Qed.

(** C1, as the code has it.  A request by an approved lender with the fee
    paid, a non-zero borrower, a positive amount and quota left is stored
    and decisioned in the same call, from the score the registry returns to
    the portal: at 700 and above it is approved in full at the lender's base
    rate with assessment ["Low Risk"]; from 650 to 699 it is approved for
    half the amount (rounded down) at the base rate plus 200 with assessment
    ["Medium Risk"], provided the raised rate fits a [uint256]; below 650 it
    is denied with approved amount 0 and assessment ["High Risk"]; and when
    the lookup reverts it is denied with approved amount 0, score 0 and
    assessment ["No Credit History"], the call itself returning.  The
    counters the call increments are taken below their maximum. *)
Theorem submitCreditRequest_decision (this : address) (reg : Registry.State) (e : Env)
  (borrower : address) (amount : Z) (s : State) :
  hasRole APPROVED_LENDER_ROLE (msg_sender e) s = true →
  apiRequestFee s ≤ msg_value e →
  borrower ≠ 0 →
  0 < amount →
  APIAccess.hasAccess (apiAccess s (msg_sender e)) = true →
  APIAccess.requestsUsed (apiAccess s (msg_sender e))
    < APIAccess.requestLimit (apiAccess s (msg_sender e)) →
  APIAccess.requestLimit (apiAccess s (msg_sender e)) ≤ MAX_UINT256 →
  block_timestamp e + DAYS_30 ≤ MAX_UINT256 →
  nextRequestId s < MAX_UINT256 →
  LenderInfo.totalRequests (lenders s (msg_sender e)) < MAX_UINT256 →
  LenderInfo.successfulRequests (lenders s (msg_sender e)) < MAX_UINT256 →
  (∀ sc, registry_getScore this reg e borrower = Ok sc → 650 ≤ sc < 700 →
         LenderInfo.interestRate (lenders s (msg_sender e)) + 200 ≤ MAX_UINT256) →
  ∃ s', submitCreditRequest this reg e borrower amount s = Ok (s', nextRequestId s)
    ∧ CreditRequest.isProcessed (creditRequests s' (nextRequestId s)) = true
    ∧ CreditRequest.lender (creditRequests s' (nextRequestId s)) = msg_sender e
    ∧ CreditRequest.borrower (creditRequests s' (nextRequestId s)) = borrower
    ∧ CreditRequest.requestedAmount (creditRequests s' (nextRequestId s)) = amount
    ∧ (∀ sc, registry_getScore this reg e borrower = Ok sc → 700 ≤ sc →
         CreditRequest.creditScore (creditRequests s' (nextRequestId s)) = sc
         ∧ CreditRequest.isApproved (creditRequests s' (nextRequestId s)) = true
         ∧ CreditRequest.approvedAmount (creditRequests s' (nextRequestId s)) = amount
         ∧ CreditRequest.interestRate (creditRequests s' (nextRequestId s))
           = LenderInfo.interestRate (lenders s (msg_sender e))
         ∧ CreditRequest.riskAssessment (creditRequests s' (nextRequestId s)) = "Low Risk")
    ∧ (∀ sc, registry_getScore this reg e borrower = Ok sc → 650 ≤ sc < 700 →
         CreditRequest.creditScore (creditRequests s' (nextRequestId s)) = sc
         ∧ CreditRequest.isApproved (creditRequests s' (nextRequestId s)) = true
         ∧ CreditRequest.approvedAmount (creditRequests s' (nextRequestId s)) = amount / 2
         ∧ CreditRequest.interestRate (creditRequests s' (nextRequestId s))
           = LenderInfo.interestRate (lenders s (msg_sender e)) + 200
         ∧ CreditRequest.riskAssessment (creditRequests s' (nextRequestId s)) = "Medium Risk")
    ∧ (∀ sc, registry_getScore this reg e borrower = Ok sc → sc < 650 →
         CreditRequest.creditScore (creditRequests s' (nextRequestId s)) = sc
         ∧ CreditRequest.isApproved (creditRequests s' (nextRequestId s)) = false
         ∧ CreditRequest.approvedAmount (creditRequests s' (nextRequestId s)) = 0
         ∧ CreditRequest.riskAssessment (creditRequests s' (nextRequestId s)) = "High Risk")
    ∧ (∀ reason, registry_getScore this reg e borrower = Revert reason →
         CreditRequest.creditScore (creditRequests s' (nextRequestId s)) = 0
         ∧ CreditRequest.isApproved (creditRequests s' (nextRequestId s)) = false
         ∧ CreditRequest.approvedAmount (creditRequests s' (nextRequestId s)) = 0
         ∧ CreditRequest.riskAssessment (creditRequests s' (nextRequestId s))
           = "No Credit History").
Proof.
  intros Hrole Hfee Hb Hamt Hacc Hquota Hlim Htime Hid Htot Hsucc Hrate.
  unfold submitCreditRequest, onlyRole.
  rewrite !require_true by done. simpl.
  assert (∃ access',
    reset_if_expired e (apiAccess s (msg_sender e)) = Ok access'
    ∧ APIAccess.requestsUsed access' < MAX_UINT256) as (access' & -> & Hused).
  { unfold reset_if_expired. case_decide.
    - rewrite checked_add_fits by done. simpl. eexists. split; [done|].
      simpl. unfold MAX_UINT256. lia.
    - eexists. split; [done|]. lia. }
  simpl. rewrite !checked_add_fits by lia. simpl.
  match goal with |- context [_processCreditRequest this reg e ?id ?st] =>
    destruct (_processCreditRequest_Ok this reg e id st) as (s' & -> & _ & _ & Hq)
  end.
  { simpl. by rewrite fn_lookup_insert. }
  { simpl. rewrite !fn_lookup_insert. simpl. done. }
  { simpl. rewrite !fn_lookup_insert. simpl. done. }
  simpl in Hq. rewrite !fn_lookup_insert in Hq. simpl in Hq.
  simpl. exists s'. split; [done|]. rewrite Hq. clear Hq.
  destruct (registry_getScore this reg e borrower) as [sc|reason];
    [destruct (decide (700 ≤ sc)); [|destruct (decide (650 ≤ sc))]|];
    simpl; repeat split; intros; simplify_eq; first [lia | done].
Qed.

Lemma submitCreditRequest_decision_witness :
  ∃ s', submitCreditRequest Scenario.portal Scenario.registry1 (Scenario.lender_at 2000)
          Scenario.bob 1001 Scenario.portal1 = Ok (s', 1)
    ∧ CreditRequest.isApproved (creditRequests s' 1) = true
    ∧ CreditRequest.approvedAmount (creditRequests s' 1) = 500
    ∧ CreditRequest.interestRate (creditRequests s' 1) = 700
    ∧ CreditRequest.riskAssessment (creditRequests s' 1) = "Medium Risk".
Proof.
  destruct (submitCreditRequest_decision Scenario.portal Scenario.registry1
              (Scenario.lender_at 2000) Scenario.bob 1001 Scenario.portal1)
    as (s' & Hcall & _ & _ & _ & _ & _ & Hmedium & _).
  1-11: by vm_compute.
  { intros sc _ _. by vm_compute. }
  exists s'. split; [exact Hcall|].
  destruct (Hmedium 650) as (_ & Happroved & Hamount & Hrate & Htier).
  { by vm_compute. }
  { lia. }
  split_and!; [exact Happroved | exact Hamount | exact Hrate | exact Htier].
Defined.

(** C1, the claim as the specification words it, fails.  The assessment
    stored at score 700 is ["Low Risk"], which is not the string
    ["LowRisk"]; at score 650 a lender registered with the largest base rate
    makes the whole call revert, where the claim promises an approval at the
    base rate plus 200; and a request for the zero address reverts before
    any decision. *)
Lemma submitCreditRequest_claim_counterexample :
  (registry_getScore Scenario.portal Scenario.registry1 (Scenario.lender_at 2000)
     Scenario.alice = Ok 700
   ∧ ∃ s', submitCreditRequest Scenario.portal Scenario.registry1 (Scenario.lender_at 2000)
             Scenario.alice 1000 Scenario.portal1 = Ok (s', 1)
       ∧ CreditRequest.riskAssessment (creditRequests s' 1) = "Low Risk"
       ∧ CreditRequest.riskAssessment (creditRequests s' 1) ≠ "LowRisk")
  ∧ (registry_getScore Scenario.portal Scenario.registry1 (Scenario.lender_at 2000)
       Scenario.bob = Ok 650
     ∧ hasRole APPROVED_LENDER_ROLE Scenario.lender Scenario.portal_maxrate = true
     ∧ APIAccess.hasAccess (apiAccess Scenario.portal_maxrate Scenario.lender) = true
     ∧ APIAccess.requestsUsed (apiAccess Scenario.portal_maxrate Scenario.lender) = 0
     ∧ APIAccess.requestLimit (apiAccess Scenario.portal_maxrate Scenario.lender) = 100
     ∧ apiRequestFee Scenario.portal_maxrate ≤ msg_value (Scenario.lender_at 2000)
     ∧ submitCreditRequest Scenario.portal Scenario.registry1 (Scenario.lender_at 2000)
         Scenario.bob 1000 Scenario.portal_maxrate = Revert PANIC_OVERFLOW)
  ∧ submitCreditRequest Scenario.portal Scenario.registry1 (Scenario.lender_at 2000)
      0 1000 Scenario.portal1 = Revert "Invalid borrower address".
Proof.
  split; [|split].
  - split; [by vm_compute|]. eexists. split; [vm_compute; reflexivity|].
    split; [by vm_compute|]. by vm_compute.
  - split_and!; by vm_compute.
  - by vm_compute.
Qed.

(** *** What decisioning leaves alone *)

Lemma _processCreditRequest_frame this reg e id s s' :
  _processCreditRequest this reg e id s = Ok s' →
  nextRequestId s' = nextRequestId s
  ∧ apiAccess s' = apiAccess s
  ∧ batchRequests s' = batchRequests s
  ∧ nextBatchId s' = nextBatchId s.
Proof.
  unfold _processCreditRequest. intros H. inv_ok.
  destruct (registry_getScore this reg e _); repeat case_decide; inv_ok; subst; done.
Qed.

Lemma process_items_Ok this reg e batchId todo i s s' :
  process_items this reg e batchId todo i s = Ok s' →
  nextRequestId s' = nextRequestId s + Z.of_nat (length todo)
  ∧ apiAccess s' = apiAccess s
  ∧ nextBatchId s' = nextBatchId s
  ∧ BatchRequest.processedCount (batchRequests s' batchId)
    = BatchRequest.processedCount (batchRequests s batchId) + Z.of_nat (length todo)
  ∧ BatchRequest.borrowers (batchRequests s' batchId)
    = BatchRequest.borrowers (batchRequests s batchId).
Proof.
  revert i s. induction todo as [|b todo IH]; intros i s; simpl.
  - intros [= <-]. split_and!; [lia | done | done | lia | done].
  - intros H. inv_ok.
    destruct (BatchRequest.requestedAmounts (batchRequests s batchId) !! i); [|done].
    inv_ok. subst.
    match goal with P : _processCreditRequest _ _ _ _ _ = Ok _ |- _ =>
      apply _processCreditRequest_frame in P as (Pn & Pa & Pb & Pi) end.
    apply IH in H as (Hn & Ha & Hi & Hc & Hb). simpl in *.
    rewrite fn_lookup_insert in Hc, Hb. simpl in *.
    rewrite Pb in Hc, Hb. simpl in *.
    split_and!; [lia | congruence | congruence | lia | done].
Qed.

Lemma _processBatchRequest_Ok this reg e batchId s s' :
  _processBatchRequest this reg e batchId s = Ok s' →
  nextRequestId s'
    = nextRequestId s + Z.of_nat (length (BatchRequest.borrowers (batchRequests s batchId)))
  ∧ apiAccess s' = apiAccess s
  ∧ nextBatchId s' = nextBatchId s
  ∧ BatchRequest.isProcessed (batchRequests s' batchId) = true
  ∧ BatchRequest.processedCount (batchRequests s' batchId)
    = BatchRequest.processedCount (batchRequests s batchId)
      + Z.of_nat (length (BatchRequest.borrowers (batchRequests s batchId))).
Proof.
  unfold _processBatchRequest. intros H. inv_ok. subst s'.
  match goal with P : process_items _ _ _ _ _ _ _ = Ok _ |- _ =>
    apply process_items_Ok in P as (Pn & Pa & Pi & Pc & Pb) end.
  simpl. rewrite fn_lookup_insert. simpl. done.
Qed.

Lemma submitBatchRequest_Ok this reg e borrowers amounts s s' id :
  submitBatchRequest this reg e borrowers amounts s = Ok (s', id) →
  (hasRole APPROVED_LENDER_ROLE (msg_sender e) s = true
   ∧ length borrowers = length amounts
   ∧ (length borrowers ≤ 100)%nat
   ∧ apiRequestFee s * Z.of_nat (length borrowers) ≤ msg_value e
   ∧ APIAccess.hasAccess (apiAccess s (msg_sender e)) = true
   ∧ APIAccess.requestsUsed (apiAccess s (msg_sender e)) + Z.of_nat (length borrowers)
     ≤ APIAccess.requestLimit (apiAccess s (msg_sender e)))
  ∧ id = nextBatchId s
  ∧ nextBatchId s' = nextBatchId s + 1
  ∧ nextRequestId s' = nextRequestId s + Z.of_nat (length borrowers)
  ∧ BatchRequest.isProcessed (batchRequests s' id) = true
  ∧ BatchRequest.processedCount (batchRequests s' id) = Z.of_nat (length borrowers)
  ∧ apiAccess s' (msg_sender e)
    = APIAccess.set_requestsUsed
        (APIAccess.requestsUsed (apiAccess s (msg_sender e)) + Z.of_nat (length borrowers))
        (apiAccess s (msg_sender e)).
Proof.
  unfold submitBatchRequest, onlyRole. intros H. inv_ok.
  match goal with P : checked_mul _ _ = Ok _ |- _ =>
    unfold checked_mul in P; case_decide; [injection P as <-|done] end.
  match goal with P : _processBatchRequest _ _ _ _ _ = Ok _ |- _ =>
    apply _processBatchRequest_Ok in P as (Pn & Pa & Pi & Pp & Pc) end.
  simpl in *. rewrite fn_lookup_insert in Pn, Pc. simpl in *.
  simplify_eq. rewrite Pa, fn_lookup_insert.
  split_and!; try done; lia.
Qed.

(** C6: a batch whose arrays differ in length, that holds more than 100
    pairs, that is underpaid or that exceeds the quota reverts, and the
    transaction leaves the state as it was, so no request record exists that
    did not exist before; and whatever the arguments, the transaction either
    leaves the state as it was or leaves the batch processed in full: marked
    processed, its count equal to its size, one request id taken per pair. *)
Theorem submitBatchRequest_all_or_nothing (this : address) (reg : Registry.State) (e : Env)
  (borrowers : list address) (amounts : list Z) (s : State) :
  (length borrowers ≠ length amounts
   ∨ (100 < length borrowers)%nat
   ∨ msg_value e < apiRequestFee s * Z.of_nat (length borrowers)
   ∨ APIAccess.requestLimit (apiAccess s (msg_sender e))
     < APIAccess.requestsUsed (apiAccess s (msg_sender e)) + Z.of_nat (length borrowers) →
   (∃ reason, submitBatchRequest this reg e borrowers amounts s = Revert reason)
   ∧ commit (submitBatchRequest this reg e borrowers amounts) s = s
   ∧ creditRequests (commit (submitBatchRequest this reg e borrowers amounts) s)
     = creditRequests s
   ∧ nextRequestId (commit (submitBatchRequest this reg e borrowers amounts) s)
     = nextRequestId s)
  ∧ (commit (submitBatchRequest this reg e borrowers amounts) s = s
     ∨ ∃ s', commit (submitBatchRequest this reg e borrowers amounts) s = s'
         ∧ submitBatchRequest this reg e borrowers amounts s = Ok (s', nextBatchId s)
         ∧ BatchRequest.isProcessed (batchRequests s' (nextBatchId s)) = true
         ∧ BatchRequest.processedCount (batchRequests s' (nextBatchId s))
           = Z.of_nat (length borrowers)
         ∧ nextRequestId s' = nextRequestId s + Z.of_nat (length borrowers)).
Proof.
  unfold commit, transact.
  destruct (submitBatchRequest this reg e borrowers amounts s) as [[s' id]|reason] eqn:E;
    simpl.
  - apply submitBatchRequest_Ok in E as (Hpre & -> & _ & Hn & Hp & Hc & _).
    split.
    + intros Hbad. exfalso. lia.
    + right. exists s'. done.
  - split; [|by left]. intros _. eauto.
Qed.

Lemma submitBatchRequest_all_or_nothing_witness :
  commit (submitBatchRequest Scenario.portal Scenario.registry1 (Scenario.lender_at 2000)
            [Scenario.alice; Scenario.bob] [1000]) Scenario.portal1
  = Scenario.portal1.
Proof.
  apply (proj1 (submitBatchRequest_all_or_nothing Scenario.portal Scenario.registry1
                  (Scenario.lender_at 2000) [Scenario.alice; Scenario.bob] [1000]
                  Scenario.portal1)).
  left. simpl. lia.
Defined.

(** C3 against the code.  Once the recorded usage has reached the limit,
    [submitCreditRequest] reverts on the limit check, which stands before
    the reset, however long ago the window ended; a batch of at least one
    pair reverts as well; and a batch that succeeds after the window ended
    adds to the recorded usage, for [submitBatchRequest] has no reset. *)
Theorem quota_reset_not_applied_before_limit (this : address) (reg : Registry.State)
  (e : Env) (s : State) :
  APIAccess.requestLimit (apiAccess s (msg_sender e))
    ≤ APIAccess.requestsUsed (apiAccess s (msg_sender e)) →
  APIAccess.resetTime (apiAccess s (msg_sender e)) ≤ block_timestamp e →
  (∀ borrower amount,
     hasRole APPROVED_LENDER_ROLE (msg_sender e) s = true →
     apiRequestFee s ≤ msg_value e → borrower ≠ 0 → 0 < amount →
     APIAccess.hasAccess (apiAccess s (msg_sender e)) = true →
     submitCreditRequest this reg e borrower amount s = Revert "Request limit exceeded")
  ∧ (∀ borrowers amounts,
       borrowers ≠ [] →
       ∃ reason, submitBatchRequest this reg e borrowers amounts s = Revert reason).
Proof.
  intros Hfull Hexpired. split.
  - intros borrower amount Hrole Hfee Hb Hamt Hacc.
    unfold submitCreditRequest, onlyRole.
    rewrite (require_true (hasRole _ _ _ = true)) by done. simpl.
    rewrite (require_true (_ ≤ _)) by done. simpl.
    rewrite (require_true (_ ≠ _)) by done. simpl.
    rewrite (require_true (_ < amount)) by done. simpl.
    rewrite (require_true (_ = true)) by done. simpl.
    rewrite require_false by lia. done.
  - intros borrowers amounts Hne.
    destruct (submitBatchRequest this reg e borrowers amounts s) as [[s' id]|reason] eqn:E;
      [|eauto].
    apply submitBatchRequest_Ok in E as (Hpre & _).
    destruct borrowers; [done|]. simpl in Hpre. lia.
Qed.

Lemma quota_reset_not_applied_before_limit_witness :
  APIAccess.requestsUsed (apiAccess Scenario.portal_exhausted Scenario.lender) = 100
  ∧ APIAccess.requestLimit (apiAccess Scenario.portal_exhausted Scenario.lender) = 100
  ∧ APIAccess.resetTime (apiAccess Scenario.portal_exhausted Scenario.lender)
    < Scenario.after_window
  ∧ submitCreditRequest Scenario.portal Scenario.registry1
      (Scenario.lender_at Scenario.after_window) Scenario.alice 1000
      Scenario.portal_exhausted
    = Revert "Request limit exceeded".
Proof.
  split_and!; [by vm_compute..|].
  apply (proj1 (quota_reset_not_applied_before_limit Scenario.portal Scenario.registry1
                  (Scenario.lender_at Scenario.after_window) Scenario.portal_exhausted
                  ltac:(by vm_compute) ltac:(by vm_compute)));
    by vm_compute.
Defined.

(** A batch never resets the counter: after the window has ended a batch
    that succeeds still adds its size to the recorded usage. *)
Lemma submitBatchRequest_never_resets this reg e borrowers amounts s s' id :
  submitBatchRequest this reg e borrowers amounts s = Ok (s', id) →
  APIAccess.requestsUsed (apiAccess s' (msg_sender e))
  = APIAccess.requestsUsed (apiAccess s (msg_sender e)) + Z.of_nat (length borrowers)
  ∧ APIAccess.resetTime (apiAccess s' (msg_sender e))
    = APIAccess.resetTime (apiAccess s (msg_sender e)).
Proof.
  intros (_ & _ & _ & _ & _ & _ & ->)%submitBatchRequest_Ok. done.
Qed.

(** With quota left the reset is applied: the counter restarts at one. *)
Lemma submitCreditRequest_resets_with_quota_left this reg e borrower amount s s' id :
  submitCreditRequest this reg e borrower amount s = Ok (s', id) →
  APIAccess.resetTime (apiAccess s (msg_sender e)) ≤ block_timestamp e →
  APIAccess.requestsUsed (apiAccess s (msg_sender e))
    < APIAccess.requestLimit (apiAccess s (msg_sender e))
  ∧ APIAccess.requestsUsed (apiAccess s' (msg_sender e)) = 1
  ∧ APIAccess.resetTime (apiAccess s' (msg_sender e)) = block_timestamp e + DAYS_30.
Proof.
  unfold submitCreditRequest, onlyRole, reset_if_expired. intros H Hexpired.
  inv_ok. case_decide; [|lia]. inv_ok. subst.
  match goal with P : _processCreditRequest _ _ _ _ _ = Ok _ |- _ =>
    apply _processCreditRequest_frame in P as (_ & Pa & _) end.
  rewrite Pa. simpl. rewrite fn_lookup_insert. simpl. done.
Qed.

End PortalFacts.

(** ** DataMarketplace *)

Section MarketplaceFacts.
Import Marketplace.
Context {Token : Type}.
Context (transferFrom : address → address → address → Z → Token → result (Token * bool)).
Context (keccak256 : address → Z → Z → Z).
Context (this : address).

Lemma purchaseProduct_Ok e pid s tok s' tok' id :
  purchaseProduct transferFrom keccak256 this e pid (s, tok) = Ok (s', tok', id) →
  DataProduct.isActive (products s pid) = true
  ∧ DataProduct.seller (products s pid) ≠ msg_sender e
  ∧ hasPurchased s (msg_sender e) pid = false
  ∧ id = nextPurchaseId s
  ∧ hasPurchased s' = <[msg_sender e := <[pid := true]> (hasPurchased s (msg_sender e))]>
                        (hasPurchased s)
  ∧ products s' = <[pid := DataProduct.set_totalSales
                             (DataProduct.totalSales (products s pid) + 1)
                             (products s pid)]> (products s).
Proof.
  unfold purchaseProduct. intros H. inv_ok.
  repeat (match goal with p : (Token * bool)%type |- _ => destruct p end;
          simpl in H; inv_ok).
  simplify_eq/=. done.
Qed.

Lemma purchaseProduct_already_purchased e pid s tok :
  DataProduct.isActive (products s pid) = true →
  DataProduct.seller (products s pid) ≠ msg_sender e →
  hasPurchased s (msg_sender e) pid = true →
  purchaseProduct transferFrom keccak256 this e pid (s, tok) = Revert "Already purchased".
Proof.
  intros Ha Hs Hp. unfold purchaseProduct.
  rewrite (require_true (_ = true)) by done. simpl.
  rewrite (require_true (_ ≠ _)) by done. simpl.
  rewrite require_false by congruence. done.
Qed.

Lemma purchaseProduct_purchased_reverts e pid s tok :
  hasPurchased s (msg_sender e) pid = true →
  ∃ reason, purchaseProduct transferFrom keccak256 this e pid (s, tok) = Revert reason.
Proof.
  intros Hp.
  destruct (purchaseProduct transferFrom keccak256 this e pid (s, tok))
    as [[[s' tok'] id]|reason] eqn:E; [|eauto].
  apply purchaseProduct_Ok in E as (_ & _ & Hnot & _). congruence.
Qed.

(** No call clears a purchase flag. *)
Lemma call_hasPurchased e c w w' buyer pid :
  call transferFrom keccak256 this e c w = Ok w' →
  hasPurchased w.1 buyer pid = true → hasPurchased w'.1 buyer pid = true.
Proof.
  destruct w as [s tok]. intros H Hp. cbn [fst] in Hp.
  destruct c; unfold call in H; cbn [fst snd] in H;
    apply bind_Ok in H as (res & P & H); injection H as <-; cbn [fst].
  2: { destruct res as [[s' tok'] id].
       apply purchaseProduct_Ok in P as (_ & _ & _ & _ & Hh & _).
       cbn [fst]. rewrite Hh.
       destruct (decide (msg_sender e = buyer)) as [<-|?].
       - rewrite fn_lookup_insert.
         destruct (decide (productId = pid)) as [<-|?].
         + by rewrite fn_lookup_insert.
         + by rewrite fn_lookup_insert_ne.
       - by rewrite fn_lookup_insert_ne. }
  all: unfold listProduct, submitReview, updateProductPrice, deactivateProduct,
         updatePlatformFee, updateFeeRecipient, emergencyDeactivateProduct,
         grantRole, revokeRole, renounceRole in P;
       inv_ok; simplify_eq/=; done.
Qed.

Lemma later_hasPurchased w1 w2 buyer pid :
  later transferFrom keccak256 this w1 w2 →
  hasPurchased w1.1 buyer pid = true → hasPurchased w2.1 buyer pid = true.
Proof.
  induction 1 as [w|w1 w2 e c _ IH|w1 s tok tok' _ IH]; intros Hp; [done| |by apply IH].
  unfold transact.
  destruct (call transferFrom keccak256 this e c w2) as [w'|] eqn:E; [|by apply IH].
  eapply call_hasPurchased; [done | by apply IH].
Qed.

(** C7: after a purchase that succeeded, a second [purchaseProduct] by the
    same buyer for the same product reverts with ["Already purchased"] and
    its transaction leaves marketplace and token as they were, so across the
    two calls [totalSales] has grown by exactly one; and the same buyer's
    purchase of that product reverts in every later state as well. *)
Theorem purchaseProduct_once (e : Env) (pid : Z) (s : State) (tok : Token)
  (s1 : State) (tok1 : Token) (id : Z) :
  purchaseProduct transferFrom keccak256 this e pid (s, tok) = Ok (s1, tok1, id) →
  DataProduct.totalSales (products s1 pid) = DataProduct.totalSales (products s pid) + 1
  ∧ (∀ e2 tok2, msg_sender e2 = msg_sender e →
       purchaseProduct transferFrom keccak256 this e2 pid (s1, tok2)
         = Revert "Already purchased"
       ∧ transact (call transferFrom keccak256 this e2 (PurchaseProduct pid)) (s1, tok2)
         = (s1, tok2)
       ∧ DataProduct.totalSales
           (products (transact (call transferFrom keccak256 this e2 (PurchaseProduct pid))
                        (s1, tok2)).1 pid)
         = DataProduct.totalSales (products s pid) + 1)
  ∧ (∀ e2 w2, msg_sender e2 = msg_sender e →
       later transferFrom keccak256 this (s1, tok1) w2 →
       (∃ reason, purchaseProduct transferFrom keccak256 this e2 pid w2 = Revert reason)
       ∧ transact (call transferFrom keccak256 this e2 (PurchaseProduct pid)) w2 = w2).
Proof.
  intros (Ha & Hs & Hnot & -> & Hh & Hp)%purchaseProduct_Ok.
  assert (hasPurchased s1 (msg_sender e) pid = true) as Hdone.
  { rewrite Hh. by rewrite !fn_lookup_insert. }
  assert (DataProduct.totalSales (products s1 pid)
          = DataProduct.totalSales (products s pid) + 1) as Hsales.
  { rewrite Hp. by rewrite fn_lookup_insert. }
  split_and!; [done | |].
  - intros e2 tok2 He2.
    assert (purchaseProduct transferFrom keccak256 this e2 pid (s1, tok2)
            = Revert "Already purchased") as Hrev.
    { apply purchaseProduct_already_purchased.
      - rewrite Hp. by rewrite fn_lookup_insert.
      - rewrite Hp, fn_lookup_insert, He2. done.
      - by rewrite He2. }
    unfold transact, call. rewrite Hrev. done.
  - intros e2 [s2 tok2] He2 Hlater.
    destruct (purchaseProduct_purchased_reverts e2 pid s2 tok2) as [reason Hrev].
    { rewrite He2. by apply (later_hasPurchased _ _ _ _ Hlater). }
    split; [eauto|]. unfold transact, call. by rewrite Hrev.
Qed.

(** *** Reviews *)

Lemma check_not_reviewed_Ok sender reviews u :
  check_not_reviewed sender reviews = Ok u ↔
  ∀ r, r ∈ reviews → Review.reviewer r ≠ sender.
Proof.
  destruct u. induction reviews as [|r reviews IH]; simpl.
  - split; [by intros _ r ?%elem_of_nil | done].
  - rewrite bind_Ok. setoid_rewrite require_Ok. split.
    + intros ([] & Hr & Hrest) r' [->|Hin]%elem_of_cons; [done|].
      by apply IH.
    + intros Hall. exists (). split.
      * apply Hall. by left.
      * apply IH. intros r' Hin. apply Hall. by right.
Qed.

(** What a review that succeeded has written. *)
Lemma submitReview_Ok e pid stars comment s s' :
  submitReview e pid stars comment s = Ok s' →
  hasPurchased s (msg_sender e) pid = true
  ∧ 1 ≤ stars ∧ stars * 100 ≤ MAX_UINT8
  ∧ (∀ r, r ∈ productReviews s pid → Review.reviewer r ≠ msg_sender e)
  ∧ DataProduct.reviewCount (products s' pid) = DataProduct.reviewCount (products s pid) + 1
  ∧ DataProduct.rating (products s' pid)
    = (DataProduct.rating (products s pid) * DataProduct.reviewCount (products s pid)
       + stars * 100) / (DataProduct.reviewCount (products s pid) + 1)
  ∧ (∃ r, r ∈ productReviews s' pid ∧ Review.reviewer r = msg_sender e)
  ∧ hasPurchased s' = hasPurchased s.
Proof.
  unfold submitReview. intros H. inv_ok. simpl in *.
  match goal with P : check_not_reviewed _ _ = Ok _ |- _ =>
    pose proof (proj1 (check_not_reviewed_Ok _ _ _) P) as Hnone end.
  match goal with P : checked_mul _ _ = Ok _ |- _ =>
    unfold checked_mul in P; case_decide; [injection P as <-|done] end.
  match goal with P : checked_mul8 _ _ = Ok _ |- _ =>
    unfold checked_mul8 in P; case_decide; [injection P as <-|done] end.
  match goal with P : checked_div _ _ = Ok _ |- _ =>
    unfold checked_div in P; case_decide; [done|injection P as <-] end.
  subst s'. simpl. rewrite !fn_lookup_insert. simpl.
  split_and!; try done; try lia.
  eexists. split; [apply elem_of_app; right; by apply list_elem_of_singleton | done].
Qed.

(** C8 against the code.  [rating] is a [uint8] and [rating * 100] is
    evaluated in [uint8]: for three, four and five stars the product is
    above 255 and the call reverts with an arithmetic panic, whatever the
    product's stored rating, although the reviewer has purchased, has not
    reviewed before and the guard admits one to five stars. *)
Theorem submitReview_reverts_from_three_stars (e : Env) (pid stars : Z) (comment : string)
  (s : State) :
  hasPurchased s (msg_sender e) pid = true →
  3 ≤ stars ≤ 5 →
  comment ≠ "" →
  (∀ r, r ∈ productReviews s pid → Review.reviewer r ≠ msg_sender e) →
  submitReview e pid stars comment s = Revert PANIC_OVERFLOW
  ∧ transact (submitReview e pid stars comment) s = s.
Proof.
  intros Hp Hstars Hc Hnew.
  assert (submitReview e pid stars comment s = Revert PANIC_OVERFLOW) as Hrev.
  { unfold submitReview.
    rewrite (require_true (_ = true)) by done. simpl.
    rewrite (require_true (_ ∧ _)) by lia. simpl.
    rewrite (require_true (_ ≠ _)) by done. simpl.
    rewrite (proj2 (check_not_reviewed_Ok _ _ ())) by done. simpl.
    unfold checked_mul. case_decide; [|done]. simpl.
    unfold checked_mul8, MAX_UINT8. case_decide; [lia|done]. }
  split; [done|]. unfold transact. by rewrite Hrev.
Qed.

(** For one and two stars the stored rating follows the formula, and the
    same reviewer cannot review the product again. *)
Lemma submitReview_rating_formula e pid stars comment s s' :
  submitReview e pid stars comment s = Ok s' →
  (stars = 1 ∨ stars = 2)
  ∧ DataProduct.reviewCount (products s' pid) = DataProduct.reviewCount (products s pid) + 1
  ∧ DataProduct.rating (products s' pid)
    = (DataProduct.rating (products s pid) * DataProduct.reviewCount (products s pid)
       + stars * 100) / (DataProduct.reviewCount (products s pid) + 1)
  ∧ (DataProduct.reviewCount (products s pid) = 0 →
     DataProduct.rating (products s' pid) = stars * 100)
  ∧ ∀ e2 stars2 comment2, msg_sender e2 = msg_sender e →
      ∃ reason, submitReview e2 pid stars2 comment2 s' = Revert reason.
Proof.
  intros H. pose proof H as (Hp & H1 & H8 & Hnew & Hcount & Hrating & (r & Hr & Hrr) & Hh)
    %submitReview_Ok.
  split_and!; [unfold MAX_UINT8 in H8; lia | done | done | |].
  - intros H0. rewrite Hrating, H0. rewrite Z.mul_0_r. simpl. by rewrite Z.div_1_r.
  - intros e2 stars2 comment2 He2.
    destruct (submitReview e2 pid stars2 comment2 s') as [s2|reason] eqn:E; [|eauto].
    apply submitReview_Ok in E as (_ & _ & _ & Hnone & _).
    exfalso. apply (Hnone r Hr). congruence.
Qed.

End MarketplaceFacts.

Lemma purchaseProduct_once_witness :
  Marketplace.DataProduct.totalSales (Marketplace.products Scenario.market2.1 1) = 1
  ∧ Marketplace.purchaseProduct Scenario.simple_transferFrom Scenario.simple_hash
      Scenario.market (Scenario.at_time Scenario.bob 0 300) 1 Scenario.market2
    = Revert "Already purchased".
Proof.
  assert (Marketplace.purchaseProduct Scenario.simple_transferFrom Scenario.simple_hash
            Scenario.market (Scenario.at_time Scenario.bob 0 200) 1
            (Scenario.market1.1, Scenario.market1.2)
          = Ok (Scenario.market2.1, Scenario.market2.2, 1)) as Hfirst.
  { vm_compute. reflexivity. }
  pose proof (purchaseProduct_once _ _ _ _ _ _ _ _ _ _ Hfirst) as (Hsales & Hsecond & _).
  split.
  - rewrite Hsales. vm_compute. reflexivity.
  - pose proof (Hsecond (Scenario.at_time Scenario.bob 0 300) Scenario.market2.2 eq_refl)
      as (Hrev & _).
    rewrite <- Hrev. vm_compute. reflexivity.
Defined.

Lemma submitReview_reverts_from_three_stars_witness :
  Marketplace.hasPurchased Scenario.market2.1 Scenario.bob 1 = true
  ∧ Marketplace.submitReview (Scenario.at_time Scenario.bob 0 300) 1 5 "Excellent"
      Scenario.market2.1
    = Revert PANIC_OVERFLOW.
Proof.
  split; [vm_compute; reflexivity|].
  apply (submitReview_reverts_from_three_stars
           (Scenario.at_time Scenario.bob 0 300) 1 5 "Excellent" Scenario.market2.1).
  - vm_compute. reflexivity.
  - lia.
  - discriminate.
  - intros r Hr. vm_compute in Hr. by apply elem_of_nil in Hr.
Defined.

(** Two stars on a product without reviews: the rating becomes 200. *)
Lemma submitReview_two_stars_example :
  ∃ s', Marketplace.submitReview (Scenario.at_time Scenario.bob 0 300) 1 2 "Fair"
          Scenario.market2.1 = Ok s'
    ∧ Marketplace.DataProduct.rating (Marketplace.products s' 1) = 200
    ∧ Marketplace.DataProduct.reviewCount (Marketplace.products s' 1) = 1.
Proof. eexists. split; [vm_compute; reflexivity|]. split; vm_compute; reflexivity. Qed.

(** ** FederatedLearningCoordinator *)

Section CoordinatorFacts.
Import Coordinator.
Context {Token : Type}.
Context (transferFrom : address → address → address → Z → Token → result (Token * bool)).
Context (this : address).

(** *** Validation *)

(** After an accepted update a second validation reverts, whatever the
    verdict. *)
Lemma validateModelUpdate_accept_once e node s s1 e2 verdict :
  validateModelUpdate e node true s = Ok s1 →
  validateModelUpdate e2 node verdict s1 = Revert "Already validated"
  ∨ validateModelUpdate e2 node verdict s1 = Revert "AccessControl: missing role".
Proof.
  unfold validateModelUpdate at 1, onlyRole. intros H. inv_ok. subst s1.
  unfold validateModelUpdate, onlyRole, hasRole.
  destruct (decide (roles s VALIDATOR_ROLE (msg_sender e2) = true)) as [Hr|Hr].
  - left. cbn. rewrite !fn_lookup_insert. cbn. rewrite !fn_lookup_insert. cbn.
    do 2 pass. done.
  - right. cbn. stop. done.
Qed.

(** C2 against the code.  A rejection does not mark the update: for a
    participant whose update is not yet validated, two rejections in a row
    both succeed, and the reputation is slashed twice. *)
Theorem validateModelUpdate_rejection_repeats (e e2 : Env) (node : address) (s : State) :
  hasRole VALIDATOR_ROLE (msg_sender e) s = true →
  hasRole VALIDATOR_ROLE (msg_sender e2) s = true →
  TrainingRound.participants (trainingRounds s (currentRound s)) node = true →
  ModelUpdate.isValidated (TrainingRound.updates (trainingRounds s (currentRound s)) node)
    = false →
  ∃ s1 s2,
    validateModelUpdate e node false s = Ok s1
    ∧ validateModelUpdate e2 node false s1 = Ok s2
    ∧ NodeInfo.reputation (nodes s1 node) = slashed (NodeInfo.reputation (nodes s node))
    ∧ NodeInfo.reputation (nodes s2 node)
      = slashed (slashed (NodeInfo.reputation (nodes s node)))
    ∧ (20 < NodeInfo.reputation (nodes s node) →
       NodeInfo.reputation (nodes s2 node) < NodeInfo.reputation (nodes s1 node)).
Proof.
  intros Hr Hr2 Hp Hv. unfold validateModelUpdate, onlyRole, hasRole in *.
  eexists _, _. split; [do 3 pass; reflexivity|].
  split; [cbn; do 3 pass; reflexivity|].
  cbn. rewrite !fn_lookup_insert. cbn. unfold slashed.
  split_and!; [done..|].
  intros Hrep. repeat case_decide; lia.
Qed.

(** *** Aggregation *)

Lemma count_participants_Ok n acc v :
  count_participants n acc = Ok v → v = acc + Z.of_nat n.
Proof.
  revert acc. induction n as [|n IH]; intros acc; simpl.
  - intros [= <-]. lia.
  - intros H. inv_ok. apply IH in H. lia.
Qed.

Lemma count_participants_fits n acc :
  acc + Z.of_nat n ≤ MAX_UINT256 → count_participants n acc = Ok (acc + Z.of_nat n).
Proof.
  revert acc. induction n as [|n IH]; intros acc Hle; simpl.
  - f_equal. lia.
  - rewrite checked_add_fits by lia. simpl. rewrite IH by lia. f_equal. lia.
Qed.

(** What [_distributeRewards] does: it emits one event or nothing. *)
Lemma _distributeRewards_Ok roundId s s' :
  _distributeRewards roundId s = Ok s' →
  s' = if decide (0 < TrainingRound.currentParticipants (trainingRounds s roundId)
                  ∧ 0 < TrainingRound.rewardPool (trainingRounds s roundId))
       then emit (RewardsDistributed roundId
                    (TrainingRound.rewardPool (trainingRounds s roundId))) s
       else s.
Proof.
  unfold _distributeRewards. intros H. inv_ok.
  match goal with P : count_participants _ _ = Ok _ |- _ =>
    apply count_participants_Ok in P end.
  subst. repeat case_decide; inv_ok; subst; try done; lia.
Qed.

Lemma _distributeRewards_succeeds roundId s :
  TrainingRound.currentParticipants (trainingRounds s roundId) ≤ MAX_UINT256 →
  is_ok (_distributeRewards roundId s).
Proof.
  intros Hle. unfold _distributeRewards.
  rewrite count_participants_fits by (unfold MAX_UINT256 in *; lia). simpl.
  case_decide; [|done]. unfold checked_div. case_decide; [lia|done].
Qed.

Lemma aggregateModel_Ok e roundId modelHash accuracy s s' :
  aggregateModel e roundId modelHash accuracy s = Ok s' →
  let round := trainingRounds s roundId in
  let model := {| AggregatedModel.modelHash := modelHash;
                  AggregatedModel.round := roundId;
                  AggregatedModel.timestamp := block_timestamp e;
                  AggregatedModel.aggregator := msg_sender e;
                  AggregatedModel.participantCount := TrainingRound.currentParticipants round;
                  AggregatedModel.isActive := true;
                  AggregatedModel.accuracy := accuracy |} in
  (hasRole AGGREGATOR_ROLE (msg_sender e) s = true
   ∧ TrainingRound.isActive round = true
   ∧ TrainingRound.endTime round < block_timestamp e
   ∧ TrainingRound.minParticipants round ≤ TrainingRound.currentParticipants round
   ∧ modelHash ≠ 0 ∧ accuracy ≤ 10000)
  ∧ models s' = (if decide (1 < roundId)
                 then <[roundId - 1 := AggregatedModel.set_isActive false
                                         (<[roundId := model]> (models s) (roundId - 1))]>
                        (<[roundId := model]> (models s))
                 else <[roundId := model]> (models s))
  ∧ trainingRounds s' = <[roundId := TrainingRound.set_isActive false round]> (trainingRounds s)
  ∧ currentRound s' = currentRound s + 1
  ∧ nodes s' = nodes s
  ∧ events s' = events s
      ++ [ModelAggregated roundId modelHash (msg_sender e)
            (TrainingRound.currentParticipants round);
          TrainingRoundEnded roundId (TrainingRound.currentParticipants round) modelHash]
      ++ (if decide (0 < TrainingRound.currentParticipants round
                     ∧ 0 < TrainingRound.rewardPool round)
          then [RewardsDistributed roundId (TrainingRound.rewardPool round)] else []).
Proof.
  unfold aggregateModel, onlyRole. intros H. inv_ok.
  match goal with P : _distributeRewards _ _ = Ok _ |- _ =>
    apply _distributeRewards_Ok in P;
    destruct (decide (1 < roundId)); cbn in P; rewrite ?fn_lookup_insert in P; cbn in P
  end.
  all: subst; cbn; case_decide; cbn; rewrite <- ?app_assoc, ?app_nil_r; split_and!; done.
Qed.

Lemma aggregateModel_succeeds e roundId modelHash accuracy s :
  msg_value e = 0 →
  hasRole AGGREGATOR_ROLE (msg_sender e) s = true →
  TrainingRound.isActive (trainingRounds s roundId) = true →
  TrainingRound.endTime (trainingRounds s roundId) < block_timestamp e →
  TrainingRound.minParticipants (trainingRounds s roundId)
    ≤ TrainingRound.currentParticipants (trainingRounds s roundId) →
  modelHash ≠ 0 →
  accuracy ≤ 10000 →
  TrainingRound.currentParticipants (trainingRounds s roundId) ≤ MAX_UINT256 →
  currentRound s < MAX_UINT256 →
  totalRounds s < MAX_UINT256 →
  is_ok (aggregateModel e roundId modelHash accuracy s).
Proof.
  intros Hval Hrole Hact Hend Hmin Hhash Hacc Hcp Hcur Htot.
  unfold aggregateModel, nonpayable, onlyRole.
  do 7 (apply is_ok_bind; [by apply is_ok_require | intros [] _]).
  apply is_ok_bind.
  { apply _distributeRewards_succeeds.
    destruct (decide (1 < roundId)); cbn; rewrite fn_lookup_insert; cbn; done. }
  intros s1 E. apply _distributeRewards_Ok in E. subst s1.
  destruct (decide (1 < roundId)); cbn; rewrite ?fn_lookup_insert; cbn;
    case_decide; cbn;
    (apply is_ok_bind; [apply is_ok_checked_add; lia | intros ? _]);
    (apply is_ok_bind; [apply is_ok_checked_add; lia | intros ? _]); done.
Qed.

(** *** Rounds are closed in order *)

Lemma rounds_in_order_frame s s' :
  currentRound s' = currentRound s →
  models s' = models s →
  (∀ r, TrainingRound.isActive (trainingRounds s' r) = true →
        r = currentRound s ∨ TrainingRound.isActive (trainingRounds s r) = true) →
  rounds_in_order s → rounds_in_order s'.
Proof.
  intros Hc Hm Ht (H1 & Hrounds & Hmodels). unfold rounds_in_order.
  rewrite Hc, Hm. split_and!; [done | | done].
  intros r [?|?]%Ht; [done | auto].
Qed.

Lemma rounds_in_order_same_rounds s s' :
  currentRound s' = currentRound s →
  models s' = models s →
  trainingRounds s' = trainingRounds s →
  rounds_in_order s → rounds_in_order s'.
Proof.
  intros Hc Hm Ht. apply rounds_in_order_frame; [done..|].
  intros r. rewrite Ht. auto.
Qed.

Lemma rounds_in_order_current_round s s' round :
  currentRound s' = currentRound s →
  models s' = models s →
  trainingRounds s' = <[currentRound s := round]> (trainingRounds s) →
  rounds_in_order s → rounds_in_order s'.
Proof.
  intros Hc Hm Ht. apply rounds_in_order_frame; [done..|].
  intros r. rewrite Ht.
  destruct (decide (currentRound s = r)) as [<-|?]; [by left|].
  rewrite fn_lookup_insert_ne by done. auto.
Qed.

Lemma aggregateModel_rounds_in_order e roundId modelHash accuracy s s' :
  aggregateModel e roundId modelHash accuracy s = Ok s' →
  rounds_in_order s → rounds_in_order s'.
Proof.
  intros ((_ & Hact & _) & Hm & Ht & Hc & _)%aggregateModel_Ok (H1 & Hrounds & Hmodels).
  cbn zeta in *.
  assert (roundId = currentRound s) as -> by auto.
  unfold rounds_in_order. rewrite Hc, Hm, Ht. split_and!; [lia | |].
  - intros r.
    destruct (decide (currentRound s = r)) as [<-|?].
    + rewrite fn_lookup_insert. done.
    + rewrite fn_lookup_insert_ne by done. intros ?%Hrounds. done.
  - intros r Hr.
    destruct (decide (r = currentRound s)) as [->|Hne]; [lia|]. exfalso.
    destruct (decide (1 < currentRound s)).
    + destruct (decide (currentRound s - 1 = r)) as [<-|?].
      * rewrite fn_lookup_insert in Hr. done.
      * rewrite !fn_lookup_insert_ne in Hr by done.
        apply Hmodels in Hr. lia.
    + rewrite fn_lookup_insert_ne in Hr by done.
      apply Hmodels in Hr. lia.
Qed.

Lemma call_rounds_in_order e c (w w' : State * Token) :
  call transferFrom this e c w = Ok w' →
  rounds_in_order w.1 → rounds_in_order w'.1.
Proof.
  destruct w as [s tok]. intros H. cbn [fst].
  destruct c; unfold call in H; cbn [fst snd] in H.
  - apply bind_Ok in H as (s' & P & [= <-]). cbn [fst].
    unfold registerNode in P. inv_ok. subst s'.
    by apply rounds_in_order_same_rounds.
  - unfold startTrainingRound in H. inv_ok.
    case_decide; inv_ok; simplify_eq/=; by eapply rounds_in_order_current_round.
  - apply bind_Ok in H as (s' & P & [= <-]). cbn [fst].
    unfold submitModelUpdate in P. inv_ok. subst s'.
    by eapply rounds_in_order_current_round.
  - apply bind_Ok in H as (s' & P & [= <-]). cbn [fst].
    unfold validateModelUpdate in P. inv_ok. destruct isValid; inv_ok; subst s'.
    + by eapply rounds_in_order_current_round.
    + by apply rounds_in_order_same_rounds.
  - apply bind_Ok in H as (s' & P & [= <-]). cbn [fst].
    by eapply aggregateModel_rounds_in_order.
  - apply bind_Ok in H as (s' & P & [= <-]). cbn [fst].
    unfold updateMinStakeAmount in P. inv_ok. subst s'.
    by apply rounds_in_order_same_rounds.
  - apply bind_Ok in H as (s' & P & [= <-]). cbn [fst].
    unfold updateRewardPerParticipant in P. inv_ok. subst s'.
    by apply rounds_in_order_same_rounds.
  - apply bind_Ok in H as (s' & P & [= <-]). cbn [fst].
    unfold grantRole in P. inv_ok. subst s'.
    by apply rounds_in_order_same_rounds.
  - apply bind_Ok in H as (s' & P & [= <-]). cbn [fst].
    unfold revokeRole in P. inv_ok. subst s'.
    by apply rounds_in_order_same_rounds.
  - apply bind_Ok in H as (s' & P & [= <-]). cbn [fst].
    unfold renounceRole in P. inv_ok. subst s'.
    by apply rounds_in_order_same_rounds.
Qed.

Lemma reachable_call_pair e c (w : State * Token) :
  reachable transferFrom this w.1 →
  reachable transferFrom this (transact (call transferFrom this e c) w).1.
Proof. destruct w as [s tok]. apply reachable_call. Qed.

Lemma later_call_pair e c s1 (w : State * Token) :
  later transferFrom this s1 w.1 →
  later transferFrom this s1 (transact (call transferFrom this e c) w).1.
Proof. destruct w as [s tok]. apply later_call. Qed.

Lemma reachable_rounds_in_order s :
  reachable transferFrom this s → rounds_in_order s.
Proof.
  induction 1 as [deployer token stake reward|e c s tok _ IH].
  - unfold rounds_in_order. cbn. split_and!; [lia | done | done].
  - unfold transact.
    destruct (call transferFrom this e c (s, tok)) as [w'|] eqn:E; [|done].
    by apply (call_rounds_in_order _ _ _ _ E).
Qed.

Lemma rounds_in_order_single_active s :
  rounds_in_order s → single_active_model s.
Proof.
  intros (_ & _ & Hmodels) i j Hi%Hmodels Hj%Hmodels. lia.
Qed.

(** C5: [aggregateModel] reverts while the round's end time has not passed
    and, after it, while there are fewer participants than the minimum,
    whatever else holds of the call; for an aggregator's call that carries
    no ether (the function is not payable) on a round still active, the
    reasons are ["Round not ended"] and ["Insufficient participants"].  Such
    a call on a round still active, after its end, with exactly the minimum
    of participants, a non-zero model hash and an accuracy of at most 10000
    succeeds (the counters it increments being below their maximum),
    activates the model of the round and deactivates the model of the round
    before; and in every state a deployment can reach, before and after such
    a call, at most one aggregated model is active. *)
Theorem aggregateModel_round_closing (e : Env) (roundId modelHash accuracy : Z) (s : State) :
  (block_timestamp e ≤ TrainingRound.endTime (trainingRounds s roundId) →
   (∃ reason, aggregateModel e roundId modelHash accuracy s = Revert reason)
   ∧ (msg_value e = 0 →
      hasRole AGGREGATOR_ROLE (msg_sender e) s = true →
      TrainingRound.isActive (trainingRounds s roundId) = true →
      aggregateModel e roundId modelHash accuracy s = Revert "Round not ended"))
  ∧ (TrainingRound.endTime (trainingRounds s roundId) < block_timestamp e →
     TrainingRound.currentParticipants (trainingRounds s roundId)
       < TrainingRound.minParticipants (trainingRounds s roundId) →
     (∃ reason, aggregateModel e roundId modelHash accuracy s = Revert reason)
     ∧ (msg_value e = 0 →
        hasRole AGGREGATOR_ROLE (msg_sender e) s = true →
        TrainingRound.isActive (trainingRounds s roundId) = true →
        aggregateModel e roundId modelHash accuracy s = Revert "Insufficient participants"))
  ∧ (msg_value e = 0 →
     hasRole AGGREGATOR_ROLE (msg_sender e) s = true →
     TrainingRound.isActive (trainingRounds s roundId) = true →
     TrainingRound.endTime (trainingRounds s roundId) < block_timestamp e →
     TrainingRound.currentParticipants (trainingRounds s roundId)
       = TrainingRound.minParticipants (trainingRounds s roundId) →
     modelHash ≠ 0 →
     accuracy ≤ 10000 →
     TrainingRound.currentParticipants (trainingRounds s roundId) ≤ MAX_UINT256 →
     currentRound s < MAX_UINT256 →
     totalRounds s < MAX_UINT256 →
     ∃ s', aggregateModel e roundId modelHash accuracy s = Ok s'
       ∧ AggregatedModel.isActive (models s' roundId) = true
       ∧ (1 < roundId → AggregatedModel.isActive (models s' (roundId - 1)) = false)
       ∧ TrainingRound.isActive (trainingRounds s' roundId) = false
       ∧ (reachable transferFrom this s → single_active_model s'))
  ∧ (reachable transferFrom this s → single_active_model s).
Proof.
  split_and!.
  - intros Hearly. split.
    + destruct (aggregateModel e roundId modelHash accuracy s) as [s'|reason] eqn:E;
        [|eauto].
      apply aggregateModel_Ok in E as ((_ & _ & Hend & _) & _). lia.
    + intros Hval Hrole Hact. unfold aggregateModel, onlyRole. do 3 pass. stop. done.
  - intros Hended Hfew. split.
    + destruct (aggregateModel e roundId modelHash accuracy s) as [s'|reason] eqn:E;
        [|eauto].
      apply aggregateModel_Ok in E as ((_ & _ & _ & Hmin & _) & _). lia.
    + intros Hval Hrole Hact. unfold aggregateModel, onlyRole. do 4 pass. stop. done.
  - intros Hval Hrole Hact Hend Hmin Hhash Hacc Hcp Hcur Htot.
    destruct (aggregateModel e roundId modelHash accuracy s) as [s'|reason] eqn:E.
    + exists s'. split; [done|].
      pose proof E as (_ & Hm & Ht & _)%aggregateModel_Ok. cbn zeta in *.
      split_and!.
      * rewrite Hm. case_decide.
        -- rewrite fn_lookup_insert_ne by lia. by rewrite fn_lookup_insert.
        -- by rewrite fn_lookup_insert.
      * intros Hprev. rewrite Hm. case_decide; [|lia].
        by rewrite fn_lookup_insert.
      * rewrite Ht. by rewrite fn_lookup_insert.
      * intros Hreach. apply rounds_in_order_single_active.
        eapply aggregateModel_rounds_in_order; [done|].
        by apply reachable_rounds_in_order.
    + exfalso.
      pose proof (aggregateModel_succeeds e roundId modelHash accuracy s) as Hok.
      rewrite E in Hok. apply Hok; try done. lia.
  - intros Hreach. by apply rounds_in_order_single_active, reachable_rounds_in_order.
Qed.

(** C9 against the code.  An aggregation that succeeds on a round with a
    reward pool and participants announces the distribution in an event and
    transfers nothing: the reward token is left as it was and no node's
    [totalRewards] changes. *)
Theorem aggregateModel_pays_no_participant (e : Env) (roundId modelHash accuracy : Z)
  (s : State) (tok : Token) (w' : State * Token) :
  call transferFrom this e (AggregateModel roundId modelHash accuracy) (s, tok) = Ok w' →
  0 < TrainingRound.rewardPool (trainingRounds s roundId) →
  0 < TrainingRound.currentParticipants (trainingRounds s roundId) →
  w'.2 = tok
  ∧ (∀ node, NodeInfo.totalRewards (nodes w'.1 node) = NodeInfo.totalRewards (nodes s node))
  ∧ events w'.1
    = events s
      ++ [ModelAggregated roundId modelHash (msg_sender e)
            (TrainingRound.currentParticipants (trainingRounds s roundId));
          TrainingRoundEnded roundId
            (TrainingRound.currentParticipants (trainingRounds s roundId)) modelHash;
          RewardsDistributed roundId (TrainingRound.rewardPool (trainingRounds s roundId))].
Proof.
  unfold call. cbn [fst snd]. intros H Hpool Hcp.
  apply bind_Ok in H as (s' & P & [= <-]). cbn [fst snd].
  apply aggregateModel_Ok in P as (_ & _ & _ & _ & Hn & He). cbn zeta in *.
  split_and!; [done | by rewrite Hn |].
  rewrite He. case_decide; [done|lia].
Qed.

End CoordinatorFacts.

Lemma validateModelUpdate_rejection_repeats_witness :
  ∃ s1 s2,
    Coordinator.validateModelUpdate (Scenario.at_time Scenario.admin 0 1060) Scenario.alice
      false Scenario.round_open.1 = Ok s1
    ∧ Coordinator.validateModelUpdate (Scenario.at_time Scenario.admin 0 1070) Scenario.alice
        false s1 = Ok s2
    ∧ Coordinator.NodeInfo.reputation (Coordinator.nodes Scenario.round_open.1 Scenario.alice)
      = 100
    ∧ Coordinator.NodeInfo.reputation (Coordinator.nodes s1 Scenario.alice) = 80
    ∧ Coordinator.NodeInfo.reputation (Coordinator.nodes s2 Scenario.alice) = 60.
Proof.
  destruct (validateModelUpdate_rejection_repeats
              (Scenario.at_time Scenario.admin 0 1060) (Scenario.at_time Scenario.admin 0 1070)
              Scenario.alice Scenario.round_open.1)
    as (s1 & s2 & H1 & H2 & R1 & R2 & _).
  1-4: vm_compute; reflexivity.
  exists s1, s2. split; [exact H1|]. split; [exact H2|].
  split; [vm_compute; reflexivity|].
  split; [rewrite R1|rewrite R2]; vm_compute; reflexivity.
Defined.

Lemma reachable_round2_open :
  Coordinator.reachable Scenario.simple_transferFrom Scenario.coordinator
    Scenario.round2_open.1.
Proof.
  unfold Scenario.round2_open, Scenario.round_closed, Scenario.round_open,
    Scenario.coordinator_call.
  do 10 apply reachable_call_pair. apply Coordinator.reachable_init.
Qed.

(** Round 2 is closed while the model of round 1 is the active one: the
    model of round 2 becomes the active one and that of round 1 is
    deactivated. *)
Lemma aggregateModel_round_closing_witness :
  Coordinator.AggregatedModel.isActive (Coordinator.models Scenario.round2_open.1 1) = true
  ∧ ∃ s', Coordinator.aggregateModel (Scenario.at_time Scenario.admin 0 1301) 2 77 9500
            Scenario.round2_open.1 = Ok s'
      ∧ Coordinator.AggregatedModel.isActive (Coordinator.models s' 2) = true
      ∧ Coordinator.AggregatedModel.isActive (Coordinator.models s' 1) = false
      ∧ Coordinator.TrainingRound.isActive (Coordinator.trainingRounds s' 2) = false
      ∧ Coordinator.single_active_model s'.
Proof.
  split; [vm_compute; reflexivity|].
  destruct (proj1 (proj2 (proj2
              (aggregateModel_round_closing Scenario.simple_transferFrom Scenario.coordinator
                 (Scenario.at_time Scenario.admin 0 1301) 2 77 9500
                 Scenario.round2_open.1))))
    as (s' & H & Hactive & Hprev & Hclosed & Hsingle).
  1-10: by vm_compute.
  exists s'. split; [exact H|]. split; [exact Hactive|].
  split; [exact (Hprev ltac:(lia))|]. split; [exact Hclosed|].
  exact (Hsingle reachable_round2_open).
Defined.

Lemma aggregateModel_pays_no_participant_witness :
  (transact (Scenario.coordinator_call (Scenario.at_time Scenario.admin 0 1101)
               (Coordinator.AggregateModel 1 99 9000)) Scenario.round_open).2
  = Scenario.round_open.2
  ∧ Scenario.round_open.2 Scenario.alice = 0
  ∧ Scenario.round_open.2 Scenario.bob = 0
  ∧ Scenario.round_open.2 Scenario.coordinator = 1000.
Proof.
  assert (Coordinator.call Scenario.simple_transferFrom Scenario.coordinator
            (Scenario.at_time Scenario.admin 0 1101) (Coordinator.AggregateModel 1 99 9000)
            (Scenario.round_open.1, Scenario.round_open.2)
          = Ok (transact (Scenario.coordinator_call (Scenario.at_time Scenario.admin 0 1101)
                            (Coordinator.AggregateModel 1 99 9000)) Scenario.round_open))
    as Hcall.
  { vm_compute. reflexivity. }
  pose proof (aggregateModel_pays_no_participant _ _ _ _ _ _ _ _ _ Hcall) as Hpaid.
  destruct Hpaid as (Htok & _ & _); [vm_compute; reflexivity..|].
  split; [exact Htok|]. split_and!; vm_compute; reflexivity.
Defined.

(** * Further properties *)

(** ** CreditScoreRegistry: reading, consent, batches, pausing *)

Section RegistryReading.
Import Registry.

Lemma getScore_authorized e u s :
  u ≠ 0 →
  msg_sender e = u ∨ hasRole LENDER_ROLE (msg_sender e) s = true
    ∨ lenderAccess s u (msg_sender e) = true →
  getScore e u s = (if CreditScore.isActive (scores s u)
                    then Ok (CreditScore.score (scores s u))
                    else Revert "No active score found").
Proof.
  intros Hu Hauth. unfold getScore. do 2 pass.
  destruct (CreditScore.isActive (scores s u)) eqn:E.
  - pass. done.
  - stop. done.
Qed.

(** X1: A score written by [updateScore] is the score [getScore] returns to the
    user, to a holder of the lender role and to a lender the user has
    authorized; the version of that user has grown by one and no other
    user's score record has changed. *)
Theorem updateScore_then_getScore (e e' : Env) (u : address) (sc : Z) (s s' : State) :
  updateScore e u sc s = Ok s' →
  msg_sender e' = u ∨ hasRole LENDER_ROLE (msg_sender e') s' = true
    ∨ lenderAccess s' u (msg_sender e') = true →
  getScore e' u s' = Ok sc
  ∧ getScoreDetails e' u s'
    = Ok (sc, block_timestamp e, CreditScore.version (scores s u) + 1, true)
  ∧ ∀ v, v ≠ u → scores s' v = scores s v.
Proof.
  intros (_ & _ & _ & Hu & _ & W)%updateScore_Ok Hauth.
  apply write_score_Ok in W as [_ ->].
  split_and!.
  - rewrite getScore_authorized by done. simpl. by rewrite fn_lookup_insert.
  - unfold getScoreDetails. pass. simpl. by rewrite fn_lookup_insert.
  - intros v Hv. simpl. by rewrite fn_lookup_insert_ne.
Qed.

(** X2: A grant lets the lender read what the user reads, and a revocation of
    the grant takes reading away again from a lender who is neither the user
    nor a holder of the lender role. *)
Theorem grant_and_revoke_govern_getScore (e e2 eL : Env) (lender : address)
  (s s1 s2 : State) :
  grantLenderAccess e lender s = Ok s1 →
  msg_sender eL = lender →
  (getScore eL (msg_sender e) s1 = getScore e (msg_sender e) s1)
  ∧ (msg_sender e2 = msg_sender e →
     revokeLenderAccess e2 lender s1 = Ok s2 →
     msg_sender e ≠ 0 → lender ≠ msg_sender e →
     hasRole LENDER_ROLE lender s2 = false →
     getScore eL (msg_sender e) s2 = Revert "Unauthorized access").
Proof.
  intros Hgrant HL. split.
  - unfold grantLenderAccess, whenNotPaused in Hgrant. inv_ok. subst s1.
    destruct (decide (msg_sender e = 0)) as [Hz|Hz].
    + unfold getScore. rewrite Hz. do 2 (stop; try done).
    + rewrite !getScore_authorized; try done; [by left|].
      right. right. simpl. rewrite HL. by rewrite !fn_lookup_insert.
  - intros He2 Hrevoke Hu Hne Hrole.
    unfold revokeLenderAccess, whenNotPaused in Hrevoke. inv_ok. subst s2.
    unfold getScore. pass.
    lazymatch goal with |- (@require ?P ?d ?m ≫= _) = _ =>
      rewrite (@require_false P d m); [done|] end.
    simpl. rewrite HL, He2, !fn_lookup_insert.
    unfold hasRole in Hrole. simpl in Hrole. rewrite Hrole.
    intros [?|[?|?]]; done.
Qed.

Lemma swap_remove_last lender (l : list address) :
  lender ∉ l → swap_remove lender (l ++ [lender]) = l.
Proof.
  intros Hl. unfold swap_remove.
  destruct (find_lender lender (l ++ [lender]) 0) as [j|] eqn:E; last first.
  { apply find_lender_None in E. exfalso. apply E, elem_of_app. right.
    by apply list_elem_of_singleton. }
  apply find_lender_Some in E as (k1 & k2 & Heq & Hk1 & ->). simpl.
  assert (k1 = l ∧ k2 = []) as [-> ->].
  { clear -Heq Hl Hk1. revert k1 Heq Hk1.
    induction l as [|a l IH]; intros [|b k1] Heq Hk1; simplify_eq/=.
    - done.
    - destruct k1; done.
    - exfalso. apply Hl. by left.
    - apply not_elem_of_cons in Hl as [? ?], Hk1 as [? ?].
      destruct (IH ltac:(done) k1) as [-> ->]; done. }
  replace (length (l ++ [lender]) - 1)%nat with (pred (length (l ++ [lender]))) by lia.
  rewrite <- last_lookup, last_snoc.
  rewrite insert_app_r_alt by lia. rewrite Nat.sub_diag. simpl.
  by rewrite take_app_length' by (rewrite length_app; simpl; lia).
Qed.

(** X3: Granting access to a lender and revoking it again, in a call that
    carries no ether ([revokeLenderAccess] is not payable), leaves the user's
    list of authorized lenders and every access flag as they were before. *)
Theorem grant_then_revoke_restores (e e2 : Env) (lender : address) (s s1 : State) :
  lenders_consistent s (msg_sender e) →
  grantLenderAccess e lender s = Ok s1 →
  msg_sender e2 = msg_sender e →
  msg_value e2 = 0 →
  ∃ s2, revokeLenderAccess e2 lender s1 = Ok s2
    ∧ (∀ u, DataConsent.authorizedLenders (consents s2 u)
            = DataConsent.authorizedLenders (consents s u))
    ∧ (∀ u l, lenderAccess s2 u l = lenderAccess s u l).
Proof.
  intros [Hflag _] Hgrant He2 Hval.
  unfold grantLenderAccess, whenNotPaused in Hgrant. inv_ok. subst s1.
  assert (lender ∉ DataConsent.authorizedLenders (consents s (msg_sender e))) as Hnotin.
  { rewrite Hflag. congruence. }
  unfold revokeLenderAccess, whenNotPaused. rewrite He2.
  eexists. split.
  { do 3 pass. simpl. rewrite !fn_lookup_insert. pass. reflexivity. }
  simpl. split.
  - intros u. destruct (decide (msg_sender e = u)) as [<-|?].
    + rewrite !fn_lookup_insert. simpl. by rewrite swap_remove_last.
    + by rewrite !fn_lookup_insert_ne.
  - intros u l. destruct (decide (msg_sender e = u)) as [<-|?].
    + rewrite !fn_lookup_insert.
      destruct (decide (lender = l)) as [<-|?].
      * rewrite fn_lookup_insert. congruence.
      * by rewrite !fn_lookup_insert_ne.
    + by rewrite !fn_lookup_insert_ne.
Qed.

(** X4: A consent given by [updateConsent] is valid exactly until its expiry,
    keeps the lenders authorized so far, and counts one more nonce. *)
Theorem updateConsent_valid_until_expiry (e : Env) (h expiry : Z) (s s' : State) :
  updateConsent e h expiry s = Ok s' →
  (∀ e', isConsentValid e' (msg_sender e) s' = true ↔ block_timestamp e' < expiry)
  ∧ isConsentValid e (msg_sender e) s' = true
  ∧ DataConsent.authorizedLenders (consents s' (msg_sender e))
    = DataConsent.authorizedLenders (consents s (msg_sender e))
  ∧ userNonces s' (msg_sender e) = userNonces s (msg_sender e) + 1.
Proof.
  unfold updateConsent, whenNotPaused. intros H. inv_ok. subst s'.
  unfold isConsentValid. simpl. rewrite !fn_lookup_insert. simpl.
  split_and!; [| by apply bool_decide_eq_true | done | done].
  intros e'. by rewrite bool_decide_eq_true.
Qed.

(** *** A batch is the sequence of its updates *)

Lemma write_score_keeps_gates e u sc s s' :
  write_score e u sc s = Ok s' → roles s' = roles s ∧ paused s' = paused s.
Proof. intros [_ ->]%write_score_Ok. done. Qed.

Lemma batch_loop_update_each e users newScores i s s' :
  msg_value e = 0 →
  hasRole ORACLE_ROLE (msg_sender e) s = true →
  paused s = false →
  (length users ≤ length (drop i newScores))%nat →
  batch_loop e users newScores i s = Ok s'
  ↔ update_each e (zip users (drop i newScores)) s = Ok s'.
Proof.
  intros Hval. revert i s.
  induction users as [|u users IH]; intros i s Hrole Hpaused Hlen.
  - done.
  - destruct (drop i newScores) as [|sc rest] eqn:Hdrop; [simpl in Hlen; lia|].
    assert (newScores !! i = Some sc) as Hi.
    { rewrite <- (Nat.add_0_r i), <- lookup_drop, Hdrop. done. }
    assert (drop (S i) newScores = rest) as Hrest.
    { rewrite <- Nat.add_1_r, <- drop_drop, Hdrop. done. }
    assert (∀ s1, write_score e u sc s = Ok s1 →
              batch_loop e users newScores (S i) s1 = Ok s'
              ↔ update_each e (zip users rest) s1 = Ok s') as Hnext.
    { intros s1 [Wr Wp]%write_score_keeps_gates. rewrite <- Hrest. apply IH.
      - unfold hasRole in *. by rewrite Wr.
      - congruence.
      - rewrite Hrest. simpl in Hlen. lia. }
    cbn [batch_loop zip zip_with update_each]. rewrite Hi. split.
    + intros H. inv_ok. simpl in H. inv_ok. subst.
      apply bind_Ok. eexists. split.
      * apply updateScore_Ok. split_and!; first [done | lia | eassumption].
      * by apply Hnext.
    + intros (s1 & (_ & _ & _ & Hu & Hsc & W)%updateScore_Ok & H)%bind_Ok.
      pass. pass. rewrite W. simpl. by apply Hnext.
Qed.

(** X5: [batchUpdateScores] on arrays of equal length, of at most 100 entries,
    by an oracle on a registry that is not paused, returns exactly when the
    calls of [updateScore] one after the other, under the same call data,
    all return, and with the same state; so one entry that [updateScore]
    would refuse makes the whole batch revert.  Neither function is
    payable: with ether the batch reverts, and so does its first
    [updateScore]; only for the empty batch with ether is there no call of
    [updateScore] to revert, and the batch still does. *)
Theorem batchUpdateScores_is_update_each (e : Env) (users : list address)
  (newScores : list Z) (s s' : State) :
  hasRole ORACLE_ROLE (msg_sender e) s = true →
  paused s = false →
  length users = length newScores →
  (length users ≤ 100)%nat →
  (msg_value e = 0 ∨ users ≠ [] →
   batchUpdateScores e users newScores s = Ok s'
   ↔ update_each e (zip users newScores) s = Ok s')
  ∧ (batchUpdateScores e users newScores s = Ok s'
     ↔ msg_value e = 0 ∧ update_each e (zip users newScores) s = Ok s').
Proof.
  intros Hrole Hpaused Hlen H100.
  destruct (decide (msg_value e = 0)) as [Hval|Hval].
  - assert (batchUpdateScores e users newScores s
            = batch_loop e users newScores 0 s) as ->.
    { unfold batchUpdateScores, onlyRole, whenNotPaused. do 5 pass. done. }
    rewrite batch_loop_update_each; [rewrite drop_0; tauto | done..|].
    rewrite drop_0. lia.
  - assert (batchUpdateScores e users newScores s = Revert NO_REASON) as ->.
    { unfold batchUpdateScores. stop. done. }
    split; [|split; [done | tauto]].
    intros [?|Hne]; [done|].
    destruct users as [|u users]; [done|].
    destruct newScores as [|sc newScores]; [done|].
    assert (update_each e (zip (u :: users) (sc :: newScores)) s = Revert NO_REASON) as ->.
    { cbn [zip zip_with update_each].
      assert (updateScore e u sc s = Revert NO_REASON) as ->; [|done].
      unfold updateScore. stop. done. }
    done.
Qed.

(** X6: While the registry is paused no transaction changes a score, a factor
    record, a consent, an access flag or a nonce. *)
Theorem paused_registry_is_frozen (e : Env) (c : Call) (s : State) :
  paused s = true →
  scores (transact (call e c) s) = scores s
  ∧ scoreFactors (transact (call e c) s) = scoreFactors s
  ∧ consents (transact (call e c) s) = consents s
  ∧ lenderAccess (transact (call e c) s) = lenderAccess s
  ∧ userNonces (transact (call e c) s) = userNonces s.
Proof.
  intros Hp. unfold transact.
  destruct (call e c s) as [s'|] eqn:E; [|done].
  destruct c; simpl in E;
    unfold updateScore, updateScoreFactors, updateConsent, grantLenderAccess,
      revokeLenderAccess, batchUpdateScores, pause, unpause, grantOracleRole,
      grantLenderRole, grantRole, revokeRole, renounceRole, whenNotPaused in E;
    inv_ok; try congruence; subst s'; done.
Qed.

End RegistryReading.

Lemma updateScore_then_getScore_witness :
  Registry.getScore (Scenario.at_time Scenario.alice 0 950) Scenario.alice Scenario.registry1
  = Ok 700.
Proof.
  assert (Registry.updateScore (Scenario.at_time Scenario.admin 0 900) Scenario.alice 700
            (transact (Registry.call (Scenario.at_time Scenario.admin 0 900)
                         (Registry.GrantLenderRole Scenario.portal)) Scenario.registry0)
          = Ok (transact (Registry.call (Scenario.at_time Scenario.admin 0 900)
                            (Registry.UpdateScore Scenario.alice 700))
                  (transact (Registry.call (Scenario.at_time Scenario.admin 0 900)
                               (Registry.GrantLenderRole Scenario.portal))
                     Scenario.registry0))) as Hupdate.
  { vm_compute. reflexivity. }
  pose proof (updateScore_then_getScore _ (Scenario.at_time Scenario.alice 0 950) _ _ _ _
                Hupdate (or_introl eq_refl)) as (Hget & _).
  rewrite <- Hget. vm_compute. reflexivity.
Defined.

Lemma grant_and_revoke_govern_getScore_witness :
  Registry.getScore (Scenario.at_time Scenario.lender 0 950) Scenario.alice
    Scenario.registry_granted = Ok 700
  ∧ Registry.getScore (Scenario.at_time Scenario.lender 0 950) Scenario.alice
      Scenario.registry_revoked
    = Revert "Unauthorized access".
Proof.
  assert (Registry.grantLenderAccess (Scenario.at_time Scenario.alice 0 910) Scenario.lender
            Scenario.registry1 = Ok Scenario.registry_granted) as Hgrant.
  { vm_compute. reflexivity. }
  assert (Registry.revokeLenderAccess (Scenario.at_time Scenario.alice 0 920) Scenario.lender
            Scenario.registry_granted = Ok Scenario.registry_revoked) as Hrevoke.
  { vm_compute. reflexivity. }
  pose proof (grant_and_revoke_govern_getScore _ (Scenario.at_time Scenario.alice 0 920)
                (Scenario.at_time Scenario.lender 0 950) _ _ _ Scenario.registry_revoked
                Hgrant eq_refl)
    as (Hread & Hdenied).
  split.
  - etransitivity; [exact Hread|]. vm_compute. reflexivity.
  - apply Hdenied; [reflexivity | exact Hrevoke | by vm_compute | by vm_compute |].
    vm_compute. reflexivity.
Defined.

Lemma grant_then_revoke_restores_witness :
  ∃ s2, Registry.revokeLenderAccess (Scenario.at_time Scenario.alice 0 920) Scenario.lender
          Scenario.registry_granted = Ok s2
    ∧ Registry.DataConsent.authorizedLenders (Registry.consents s2 Scenario.alice) = [].
Proof.
  assert (Registry.grantLenderAccess (Scenario.at_time Scenario.alice 0 910) Scenario.lender
            Scenario.registry1 = Ok Scenario.registry_granted) as Hgrant.
  { vm_compute. reflexivity. }
  assert (Registry.lenders_consistent Scenario.registry1 Scenario.alice) as Hcons.
  { split.
    - intros l. split; [intros Hin; vm_compute in Hin; by apply elem_of_nil in Hin|].
      intros Hl. vm_compute in Hl. discriminate.
    - apply NoDup_nil_2. }
  destruct (grant_then_revoke_restores (Scenario.at_time Scenario.alice 0 910)
              (Scenario.at_time Scenario.alice 0 920) Scenario.lender
              Scenario.registry1 Scenario.registry_granted Hcons Hgrant eq_refl eq_refl)
    as (s2 & Hrevoke & Hlist & _).
  exists s2. split; [exact Hrevoke|]. rewrite Hlist. vm_compute. reflexivity.
Defined.

Lemma updateConsent_valid_until_expiry_witness :
  Registry.isConsentValid (Scenario.at_time Scenario.bob 0 1999) Scenario.alice
    (transact (Registry.call (Scenario.at_time Scenario.alice 0 1000)
                 (Registry.UpdateConsent 5 2000)) Scenario.registry1) = true
  ∧ Registry.isConsentValid (Scenario.at_time Scenario.bob 0 2000) Scenario.alice
      (transact (Registry.call (Scenario.at_time Scenario.alice 0 1000)
                   (Registry.UpdateConsent 5 2000)) Scenario.registry1) = false.
Proof.
  assert (Registry.updateConsent (Scenario.at_time Scenario.alice 0 1000) 5 2000
            Scenario.registry1
          = Ok (transact (Registry.call (Scenario.at_time Scenario.alice 0 1000)
                            (Registry.UpdateConsent 5 2000)) Scenario.registry1)) as Hc.
  { vm_compute. reflexivity. }
  pose proof (updateConsent_valid_until_expiry _ _ _ _ _ Hc) as (Hvalid & _).
  split.
  - apply (Hvalid (Scenario.at_time Scenario.bob 0 1999)). simpl. lia.
  - apply not_true_is_false. intros Hv.
    apply (Hvalid (Scenario.at_time Scenario.bob 0 2000)) in Hv. simpl in Hv. lia.
Defined.

Lemma batchUpdateScores_is_update_each_witness :
  ∃ s', Registry.batchUpdateScores (Scenario.at_time Scenario.admin 0 900)
          [Scenario.alice; Scenario.bob] [700; 650] Scenario.registry0 = Ok s'
    ∧ Registry.CreditScore.score (Registry.scores s' Scenario.bob) = 650.
Proof.
  assert (Registry.hasRole Registry.ORACLE_ROLE Scenario.admin Scenario.registry0 = true)
    as Hrole by (vm_compute; reflexivity).
  assert (Registry.paused Scenario.registry0 = false) as Hpaused
    by (vm_compute; reflexivity).
  eexists. split.
  - apply (proj1 (proj1 (batchUpdateScores_is_update_each
                           (Scenario.at_time Scenario.admin 0 900)
                           [Scenario.alice; Scenario.bob] [700; 650] Scenario.registry0 _
                           Hrole Hpaused eq_refl ltac:(simpl; lia))
                    (or_introl eq_refl))).
    vm_compute. reflexivity.
  - vm_compute. reflexivity.
Defined.

Lemma paused_registry_is_frozen_witness :
  Registry.scores
    (transact (Registry.call (Scenario.at_time Scenario.admin 0 900)
                 (Registry.UpdateScore Scenario.alice 700)) Scenario.registry_paused)
  = Registry.scores Scenario.registry_paused.
Proof.
  apply (paused_registry_is_frozen (Scenario.at_time Scenario.admin 0 900)
           (Registry.UpdateScore Scenario.alice 700) Scenario.registry_paused).
  reflexivity.
Defined.

(** ** LenderPortal: request ids, counters, quota, registration *)

Section PortalLedger.
Import Portal.

(** Everything [_processCreditRequest] does to the state. *)
Lemma _processCreditRequest_effect this reg e id s s' :
  _processCreditRequest this reg e id s = Ok s' →
  let q := creditRequests s id in
  let l := CreditRequest.lender q in
  CreditRequest.isProcessed q = false
  ∧ (∃ approved sc tier amount rate,
       creditRequests s' = <[id := CreditRequest.decided approved sc tier amount rate true q]>
                             (creditRequests s)
       ∧ (tier = "Low Risk" ∨ tier = "Medium Risk" ∨ tier = "High Risk"
          ∨ tier = "No Credit History")
       ∧ (approved = false → amount = 0 ∨ amount = CreditRequest.approvedAmount q)
       ∧ (lenders s' = lenders s
          ∨ approved = true
            ∧ lenders s' = <[l := LenderInfo.set_successfulRequests
                                    (LenderInfo.successfulRequests (lenders s l) + 1)
                                    (lenders s l)]> (lenders s)))
  ∧ apiAccess s' = apiAccess s
  ∧ batchRequests s' = batchRequests s
  ∧ lenderRequests s' = lenderRequests s
  ∧ pendingApprovals s' = pendingApprovals s
  ∧ nextRequestId s' = nextRequestId s
  ∧ nextBatchId s' = nextBatchId s
  ∧ registrationFee s' = registrationFee s
  ∧ apiRequestFee s' = apiRequestFee s
  ∧ roles s' = roles s.
Proof.
  unfold _processCreditRequest. intros H. inv_ok. cbn zeta.
  split; [done|].
  destruct (registry_getScore this reg e _); repeat case_decide; inv_ok; subst s';
    simpl; (split; [|done]); eexists _, _, _, _, _;
    (split; [reflexivity|]); (split; [tauto|]); split; (done || tauto || auto).
Qed.

Lemma more_successes_refl l : more_successes 0 l l.
Proof. unfold more_successes. destruct l; simpl. split_and!; [done | lia | lia]. Qed.

Lemma more_successes_trans n m l1 l2 l3 :
  more_successes n l1 l2 → more_successes m l2 l3 → more_successes (n + m) l1 l3.
Proof.
  unfold more_successes. intros (E1 & ? & ?) (E2 & ? & ?).
  split_and!; [|lia..]. rewrite E2, E1. by destruct l1.
Qed.

(** One request stored under a fresh id and decisioned: the step shared by
    [submitCreditRequest] and by each round of the batch loop. *)
Lemma fresh_request_effect this reg e id lender borrower amount s0 s' :
  creditRequests s0 id
    = CreditRequest.fresh id lender borrower amount (block_timestamp e) →
  _processCreditRequest this reg e id s0 = Ok s' →
  nextRequestId s' = nextRequestId s0
  ∧ (∀ id', id' ≠ id → creditRequests s' id' = creditRequests s0 id')
  ∧ CreditRequest.requestId (creditRequests s' id) = id
  ∧ CreditRequest.lender (creditRequests s' id) = lender
  ∧ settled (creditRequests s' id)
  ∧ (∀ a, a ≠ lender → lenders s' a = lenders s0 a)
  ∧ more_successes 1 (lenders s0 lender) (lenders s' lender)
  ∧ apiAccess s' = apiAccess s0
  ∧ batchRequests s' = batchRequests s0
  ∧ nextBatchId s' = nextBatchId s0.
Proof.
  intros Hfresh H. apply _processCreditRequest_effect in H. cbn zeta in H.
  rewrite Hfresh in H. simpl in H.
  destruct H as (_ & (approved & sc & tier & amt & rate & Hq & Htier & Hden & Hl)
                 & Ha & Hb & _ & _ & Hn & Hnb & _).
  split_and!; try done.
  - intros id' Hne. rewrite Hq. by rewrite fn_lookup_insert_ne.
  - rewrite Hq. by rewrite fn_lookup_insert.
  - rewrite Hq. by rewrite fn_lookup_insert.
  - rewrite Hq, fn_lookup_insert. unfold settled. simpl.
    split_and!; [done | done |]. intros ->. destruct Hden; done.
  - intros a Hne. destruct Hl as [->|[_ ->]]; [done|]. by rewrite fn_lookup_insert_ne.
  - destruct Hl as [->|[_ ->]].
    + pose proof (more_successes_refl (lenders s0 lender)) as (? & ? & ?).
      unfold more_successes. split_and!; [done | lia | lia].
    + rewrite fn_lookup_insert. unfold more_successes. simpl.
      split_and!; [by destruct (lenders s0 lender) | lia | lia].
Qed.

Lemma submitCreditRequest_effect this reg e borrower amount s s' id :
  submitCreditRequest this reg e borrower amount s = Ok (s', id) →
  id = nextRequestId s
  ∧ nextRequestId s' = nextRequestId s + 1
  ∧ (∀ id', id' ≠ id → creditRequests s' id' = creditRequests s id')
  ∧ CreditRequest.requestId (creditRequests s' id) = id
  ∧ settled (creditRequests s' id)
  ∧ (∀ a, a ≠ msg_sender e → lenders s' a = lenders s a)
  ∧ more_successes 1
      (LenderInfo.set_totalRequests (LenderInfo.totalRequests (lenders s (msg_sender e)) + 1)
         (lenders s (msg_sender e)))
      (lenders s' (msg_sender e))
  ∧ (∀ a, a ≠ msg_sender e → apiAccess s' a = apiAccess s a)
  ∧ APIAccess.requestLimit (apiAccess s' (msg_sender e))
    = APIAccess.requestLimit (apiAccess s (msg_sender e))
  ∧ APIAccess.requestsUsed (apiAccess s (msg_sender e))
    < APIAccess.requestLimit (apiAccess s (msg_sender e))
  ∧ (APIAccess.requestsUsed (apiAccess s' (msg_sender e))
     = APIAccess.requestsUsed (apiAccess s (msg_sender e)) + 1
     ∨ APIAccess.requestsUsed (apiAccess s' (msg_sender e)) = 1).
Proof.
  unfold submitCreditRequest, onlyRole. intros H. inv_ok. simplify_eq/=.
  match goal with P : _processCreditRequest _ _ _ _ _ = Ok _ |- _ =>
    eapply fresh_request_effect in P; [|simpl; by rewrite fn_lookup_insert];
    destruct P as (Pn & Pq & Pid & _ & Pset & Pl & Pm & Pa & _)
  end.
  simpl in *. rewrite !fn_lookup_insert in Pm.
  split_and!; try done.
  - intros id' Hne. rewrite Pq by done. by rewrite fn_lookup_insert_ne.
  - intros a Hne. rewrite Pl by done. by rewrite fn_lookup_insert_ne.
  - intros a Hne. rewrite Pa. by rewrite fn_lookup_insert_ne.
  - rewrite Pa, fn_lookup_insert.
    match goal with R : reset_if_expired _ _ = Ok _ |- _ =>
      unfold reset_if_expired in R; case_decide; inv_ok; subst; done end.
  - rewrite Pa, fn_lookup_insert.
    match goal with R : reset_if_expired _ _ = Ok _ |- _ =>
      unfold reset_if_expired in R; case_decide; inv_ok; subst; simpl; auto end.
Qed.

Lemma process_items_effect this reg e batchId todo i s s' :
  process_items this reg e batchId todo i s = Ok s' →
  nextRequestId s' = nextRequestId s + Z.of_nat (length todo)
  ∧ (∀ id, id < nextRequestId s ∨ nextRequestId s' ≤ id →
           creditRequests s' id = creditRequests s id)
  ∧ (∀ id, nextRequestId s ≤ id < nextRequestId s' →
           CreditRequest.requestId (creditRequests s' id) = id
           ∧ settled (creditRequests s' id))
  ∧ (∀ a, a ≠ BatchRequest.lender (batchRequests s batchId) → lenders s' a = lenders s a)
  ∧ more_successes (Z.of_nat (length todo))
      (lenders s (BatchRequest.lender (batchRequests s batchId)))
      (lenders s' (BatchRequest.lender (batchRequests s batchId)))
  ∧ apiAccess s' = apiAccess s
  ∧ BatchRequest.lender (batchRequests s' batchId)
    = BatchRequest.lender (batchRequests s batchId).
Proof.
  revert i s. induction todo as [|b todo IH]; intros i s; simpl.
  - intros [= <-]. split_and!; try done; [lia | lia | apply more_successes_refl].
  - intros H. inv_ok.
    destruct (BatchRequest.requestedAmounts (batchRequests s batchId) !! i); [|done].
    inv_ok. subst.
    match goal with P : _processCreditRequest _ _ _ _ _ = Ok ?s1 |- _ =>
      eapply fresh_request_effect in P; [|simpl; by rewrite fn_lookup_insert];
      destruct P as (Pn & Pq & Pid & _ & Pset & Pl & Pm & Pa & Pb & _)
    end.
    apply IH in H as (Hn & Hout & Hin & Hl & Hm & Ha & Hb). clear IH.
    simpl in *. rewrite fn_lookup_insert in Hl, Hm, Hb. simpl in *.
    rewrite Pb in Hl, Hm, Hb. simpl in *.
    rewrite Pn in Hn, Hout, Hin. simpl in *.
    split_and!.
    + lia.
    + intros id Hid. rewrite Hout by lia. rewrite Pq by lia.
      by rewrite fn_lookup_insert_ne by lia.
    + intros id Hid. destruct (decide (id = nextRequestId s)) as [->|Hne].
      * rewrite Hout by lia. done.
      * apply Hin. lia.
    + intros a Hne. rewrite Hl by done. by apply Pl.
    + replace (Z.of_nat (S (length todo))) with (1 + Z.of_nat (length todo)) by lia.
      by eapply more_successes_trans.
    + congruence.
    + done.
Qed.

Lemma submitBatchRequest_effect this reg e borrowers amounts s s' id :
  submitBatchRequest this reg e borrowers amounts s = Ok (s', id) →
  nextRequestId s' = nextRequestId s + Z.of_nat (length borrowers)
  ∧ (∀ id', id' < nextRequestId s ∨ nextRequestId s' ≤ id' →
            creditRequests s' id' = creditRequests s id')
  ∧ (∀ id', nextRequestId s ≤ id' < nextRequestId s' →
            CreditRequest.requestId (creditRequests s' id') = id'
            ∧ settled (creditRequests s' id'))
  ∧ (∀ a, a ≠ msg_sender e → lenders s' a = lenders s a)
  ∧ more_successes (Z.of_nat (length borrowers))
      (LenderInfo.set_totalRequests
         (LenderInfo.totalRequests (lenders s (msg_sender e)) + Z.of_nat (length borrowers))
         (lenders s (msg_sender e)))
      (lenders s' (msg_sender e))
  ∧ (∀ a, a ≠ msg_sender e → apiAccess s' a = apiAccess s a)
  ∧ APIAccess.requestLimit (apiAccess s' (msg_sender e))
    = APIAccess.requestLimit (apiAccess s (msg_sender e))
  ∧ APIAccess.requestsUsed (apiAccess s' (msg_sender e))
    = APIAccess.requestsUsed (apiAccess s (msg_sender e)) + Z.of_nat (length borrowers)
  ∧ APIAccess.requestsUsed (apiAccess s' (msg_sender e))
    ≤ APIAccess.requestLimit (apiAccess s (msg_sender e)).
Proof.
  unfold submitBatchRequest, onlyRole, _processBatchRequest. intros H. inv_ok.
  simplify_eq/=. rewrite fn_lookup_insert in *. simpl in *.
  match goal with P : process_items _ _ _ _ _ _ _ = Ok ?s1 |- _ =>
    pose proof (process_items_Ok _ _ _ _ _ _ _ _ P) as (_ & _ & _ & _ & Pbs);
    apply process_items_effect in P as (Pn & Pout & Pin & Pl & Pm & Pa & Pb)
  end.
  simpl in *. rewrite fn_lookup_insert in *. simpl in *. rewrite Pb, Pbs in *.
  rewrite !fn_lookup_insert.
  split_and!; try done.
  - intros a Hne. rewrite fn_lookup_insert_ne by done. by apply Pl.
  - destruct Pm as (E & ? & ?). unfold more_successes. simpl.
    split; [|done]. rewrite E. simpl. done.
  - intros a Hne. rewrite Pa. by rewrite fn_lookup_insert_ne.
  - by rewrite Pa, fn_lookup_insert.
  - by rewrite Pa, fn_lookup_insert.
  - rewrite Pa, fn_lookup_insert. simpl. lia.
Qed.

(** The index of a lender's requests after [k] requests of lender [l] have
    been stored under the next [k] ids. *)
Lemma lender_index_extend s s' l k :
  lender_index s → 1 ≤ nextRequestId s → 0 ≤ k →
  nextRequestId s' = nextRequestId s + k →
  (∀ a, lenderRequests s' a
        = lenderRequests s a ++ (if decide (a = l) then seqZ (nextRequestId s) k else [])) →
  (∀ id, id < nextRequestId s → creditRequests s' id = creditRequests s id) →
  (∀ id, nextRequestId s ≤ id < nextRequestId s + k →
         CreditRequest.lender (creditRequests s' id) = l) →
  lender_index s'.
Proof.
  intros Hidx H1 Hk Hn Hlist Hold Hnew a. destruct (Hidx a) as [Hnd Hiff].
  unfold getLenderRequests in *. rewrite Hlist, Hn. split.
  - apply list.NoDup_app. split_and!; [done| |].
    + intros id Hin. apply Hiff in Hin as [Hin _].
      case_decide; [|apply not_elem_of_nil]. rewrite elem_of_seqZ. lia.
    + case_decide; [apply NoDup_seqZ|apply NoDup_nil_2].
  - intros id. rewrite elem_of_app, Hiff. split.
    + intros [[Hid Hl]|Hin].
      * rewrite Hold by lia. split; [lia|done].
      * case_decide as Ha; [|by apply elem_of_nil in Hin].
        apply elem_of_seqZ in Hin. split; [lia|]. rewrite Hnew by lia. done.
    + intros [Hid Hl]. destruct (decide (id < nextRequestId s)).
      * left. rewrite <- Hold by done. split; [lia|done].
      * right. rewrite Hnew in Hl by lia. rewrite decide_True by done.
        apply elem_of_seqZ. lia.
Qed.

Lemma submitCreditRequest_index this reg e borrower amount s s' id :
  submitCreditRequest this reg e borrower amount s = Ok (s', id) →
  (∀ a, lenderRequests s' a
        = lenderRequests s a
          ++ (if decide (a = msg_sender e) then seqZ (nextRequestId s) 1 else []))
  ∧ CreditRequest.lender (creditRequests s' (nextRequestId s)) = msg_sender e.
Proof.
  unfold submitCreditRequest, onlyRole. intros H. inv_ok. simplify_eq/=.
  match goal with P : _processCreditRequest _ _ _ _ _ = Ok _ |- _ =>
    pose proof (_processCreditRequest_effect _ _ _ _ _ _ P) as Hsame;
    cbn zeta in Hsame; destruct Hsame as (_ & _ & _ & _ & Hreqs & _);
    eapply fresh_request_effect in P; [|simpl; by rewrite fn_lookup_insert];
    destruct P as (_ & _ & _ & Plender & _)
  end.
  simpl in *. split; [|done]. intros a. rewrite Hreqs.
  case_decide as Ha.
  - subst a. by rewrite fn_lookup_insert.
  - rewrite fn_lookup_insert_ne by done. by rewrite app_nil_r.
Qed.

Lemma process_items_index this reg e batchId todo i s s' :
  process_items this reg e batchId todo i s = Ok s' →
  (∀ a, lenderRequests s' a
        = lenderRequests s a
          ++ (if decide (a = BatchRequest.lender (batchRequests s batchId))
              then seqZ (nextRequestId s) (Z.of_nat (length todo)) else []))
  ∧ (∀ id, nextRequestId s ≤ id < nextRequestId s + Z.of_nat (length todo) →
           CreditRequest.lender (creditRequests s' id)
           = BatchRequest.lender (batchRequests s batchId)).
Proof.
  revert i s. induction todo as [|b todo IH]; intros i s; simpl.
  - intros [= <-]. split; [|intros; lia].
    intros a. case_decide; by rewrite app_nil_r.
  - intros H. inv_ok.
    destruct (BatchRequest.requestedAmounts (batchRequests s batchId) !! i); [|done].
    inv_ok. subst.
    match goal with P : _processCreditRequest _ _ _ _ _ = Ok ?s1 |- _ =>
      pose proof (_processCreditRequest_effect _ _ _ _ _ _ P) as Hsame;
      cbn zeta in Hsame; destruct Hsame as (_ & _ & _ & _ & Hreqs & _);
      eapply fresh_request_effect in P; [|simpl; by rewrite fn_lookup_insert];
      destruct P as (Pn & _ & _ & Plender & _ & _ & _ & _ & Pb & _)
    end.
    pose proof (process_items_effect _ _ _ _ _ _ _ _ H) as (_ & Hout & _).
    apply IH in H as (Hlist & Hnew). clear IH.
    simpl in *. rewrite fn_lookup_insert in Hlist, Hnew. simpl in *.
    rewrite Pb in Hlist, Hnew. simpl in *. rewrite Pn in Hlist, Hnew, Hout. simpl in *.
    split.
    + intros a. rewrite Hlist, Hreqs. simpl.
      rewrite (seqZ_cons (nextRequestId s)) by lia.
      replace (Z.succ (nextRequestId s)) with (nextRequestId s + 1) by lia.
      case_decide as Ha.
      * subst a. rewrite fn_lookup_insert, <- app_assoc. simpl. repeat f_equal. lia.
      * rewrite fn_lookup_insert_ne by done. done.
    + intros id Hid. destruct (decide (id = nextRequestId s)) as [->|Hne].
      * rewrite Hout by lia. done.
      * apply Hnew. lia.
Qed.

Lemma submitBatchRequest_index this reg e borrowers amounts s s' id :
  submitBatchRequest this reg e borrowers amounts s = Ok (s', id) →
  (∀ a, lenderRequests s' a
        = lenderRequests s a
          ++ (if decide (a = msg_sender e)
              then seqZ (nextRequestId s) (Z.of_nat (length borrowers)) else []))
  ∧ (∀ id', nextRequestId s ≤ id' < nextRequestId s + Z.of_nat (length borrowers) →
            CreditRequest.lender (creditRequests s' id') = msg_sender e).
Proof.
  unfold submitBatchRequest, onlyRole, _processBatchRequest. intros H. inv_ok.
  simplify_eq/=. rewrite fn_lookup_insert in *. simpl in *.
  match goal with P : process_items _ _ _ _ _ _ _ = Ok ?s1 |- _ =>
    apply process_items_index in P as (Plist & Pnew)
  end.
  simpl in *. rewrite fn_lookup_insert in *. simpl in *. done.
Qed.

(** Unfolds the calls that touch neither requests, lenders nor quotas. *)
Ltac portal_admin_call E :=
  unfold updateRegistrationFee, updateAPIRequestFee, grantRole, revokeRole, renounceRole,
    onlyRole in E; inv_ok; subst.

(** X7: A stored credit request is never changed by a later call, whatever the
    call: every id below [nextRequestId] keeps its record, which
    [getCreditRequest] therefore returns unchanged, and [nextRequestId]
    never decreases. *)
Theorem stored_requests_never_change (this : address) (reg : Registry.State) (e : Env)
  (c : Call) (s : State) (id : Z) :
  id < nextRequestId s →
  creditRequests (transact (call this reg e c) s) id = creditRequests s id
  ∧ getCreditRequest id (transact (call this reg e c) s) = getCreditRequest id s
  ∧ nextRequestId s ≤ nextRequestId (transact (call this reg e c) s).
Proof.
  intros Hid.
  assert (creditRequests (transact (call this reg e c) s) id = creditRequests s id
          ∧ nextRequestId s ≤ nextRequestId (transact (call this reg e c) s)) as [Hq Hn].
  { unfold transact. destruct (call this reg e c s) as [s'|] eqn:E; [|split; [done|lia]].
    destruct c; simpl in E.
    - unfold registerLender in E. inv_ok. subst. simpl. split; [done|lia].
    - unfold approveLender, onlyRole in E. inv_ok. subst. simpl. split; [done|lia].
    - unfold requestAPIAccess, onlyRole in E. inv_ok. subst. simpl. split; [done|lia].
    - apply bind_Ok in E as ([s1 rid] & E & [= <-]).
      apply submitCreditRequest_effect in E as (-> & Hn & Hq & _).
      simpl. split; [apply Hq|]; lia.
    - apply bind_Ok in E as ([s1 bid] & E & [= <-]).
      apply submitBatchRequest_effect in E as (Hn & Hq & _).
      simpl. split; [apply Hq|]; lia.
    - portal_admin_call E. simpl. split; [done|lia].
    - portal_admin_call E. simpl. split; [done|lia].
    - portal_admin_call E. simpl. split; [done|lia].
    - portal_admin_call E. simpl. split; [done|lia].
    - portal_admin_call E. simpl. split; [done|lia]. }
  split_and!; [done | | done]. unfold getCreditRequest. by rewrite Hq.
Qed.

Lemma call_requests_in_order this reg e c s s' :
  call this reg e c s = Ok s' → requests_in_order s → requests_in_order s'.
Proof.
  intros E (H1 & Hin & Hout).
  destruct c; simpl in E.
  - unfold registerLender in E. inv_ok. subst. done.
  - unfold approveLender, onlyRole in E. inv_ok. subst. done.
  - unfold requestAPIAccess, onlyRole in E. inv_ok. subst. done.
  - apply bind_Ok in E as ([s1 rid] & E & [= <-]).
    apply submitCreditRequest_effect in E as (-> & Hn & Hq & Hid & Hset & _).
    simpl. unfold requests_in_order. rewrite Hn. split_and!; [lia | |].
    + intros id Hid'. destruct (decide (id = nextRequestId s)) as [->|?]; [done|].
      rewrite Hq by done. apply Hin. lia.
    + intros id Hid'. rewrite Hq by lia. apply Hout. lia.
  - apply bind_Ok in E as ([s1 bid] & E & [= <-]).
    apply submitBatchRequest_effect in E as (Hn & Hq & Hnew & _).
    simpl. unfold requests_in_order. split_and!; [lia | |].
    + intros id Hid'. destruct (decide (id < nextRequestId s)).
      * rewrite Hq by lia. apply Hin. lia.
      * apply Hnew. lia.
    + intros id Hid'. rewrite Hq by lia. apply Hout. lia.
  - portal_admin_call E. done.
  - portal_admin_call E. done.
  - portal_admin_call E. done.
  - portal_admin_call E. done.
  - portal_admin_call E. done.
Qed.

(** X8: In every state the portal can reach, the ids from 1 up to
    [nextRequestId] hold requests that carry their own id and have been
    decisioned (processed, with one of the four assessments, and with
    approved amount 0 when denied), and every other id holds nothing. *)
Theorem reachable_requests_in_order (this : address) (s : State) :
  reachable this s → requests_in_order s.
Proof.
  induction 1 as [deployer|reg e c s _ IH].
  - unfold requests_in_order. simpl. split_and!; [lia | intros; lia | done].
  - unfold transact. destruct (call this reg e c s) as [s'|] eqn:E; [|done].
    by eapply call_requests_in_order.
Qed.

Lemma call_lender_index this reg e c s s' :
  call this reg e c s = Ok s' →
  requests_in_order s → lender_index s → lender_index s'.
Proof.
  intros E (H1 & _) Hidx.
  destruct c; simpl in E.
  - unfold registerLender in E. inv_ok. subst. done.
  - unfold approveLender, onlyRole in E. inv_ok. subst. done.
  - unfold requestAPIAccess, onlyRole in E. inv_ok. subst. done.
  - apply bind_Ok in E as ([s1 rid] & E & [= <-]).
    pose proof (submitCreditRequest_index _ _ _ _ _ _ _ _ E) as (Hlist & Hlender).
    apply submitCreditRequest_effect in E as (-> & Hn & Hq & _).
    simpl. apply (lender_index_extend s _ (msg_sender e) 1); try done.
    + intros id Hid. apply Hq. lia.
    + intros id Hid. replace id with (nextRequestId s) by lia. done.
  - apply bind_Ok in E as ([s1 bid] & E & [= <-]).
    pose proof (submitBatchRequest_index _ _ _ _ _ _ _ _ E) as (Hlist & Hlender).
    apply submitBatchRequest_effect in E as (Hn & Hq & _).
    simpl. apply (lender_index_extend s _ (msg_sender e) (Z.of_nat (length borrowers)));
      try done; try lia.
    intros id Hid. apply Hq. lia.
  - portal_admin_call E. done.
  - portal_admin_call E. done.
  - portal_admin_call E. done.
  - portal_admin_call E. done.
  - portal_admin_call E. done.
Qed.

(** X9: In every state the portal can reach, [getLenderRequests] returns,
    once each, exactly the ids of the stored requests whose lender is the
    given address, whether they were submitted one by one or in a batch. *)
Theorem reachable_lender_index (this : address) (s : State) :
  reachable this s → lender_index s.
Proof.
  intros Hreach.
  assert (requests_in_order s ∧ lender_index s) as [_ Hidx]; [|done].
  induction Hreach as [deployer|reg e c s _ [IHord IHidx]].
  - split.
    + unfold requests_in_order. simpl. split_and!; [lia | intros; lia | done].
    + intros a. unfold getLenderRequests. simpl. split; [apply NoDup_nil_2|].
      intros id. split; [by intros ?%elem_of_nil | lia].
  - unfold transact. destruct (call this reg e c s) as [s'|] eqn:E; [|done].
    split; [by eapply call_requests_in_order | by eapply call_lender_index].
Qed.

Lemma lender_evolves_refl l : lender_evolves l l.
Proof. unfold lender_evolves. split_and!; try done; lia. Qed.

Lemma more_successes_evolves n l l' :
  0 ≤ n →
  more_successes n (LenderInfo.set_totalRequests (LenderInfo.totalRequests l + n) l) l' →
  lender_evolves l l'.
Proof.
  intros Hn (-> & Hle & Hup). simpl in *. unfold lender_evolves. simpl.
  split_and!; try done; lia.
Qed.

(** What one call does to the record of each lender: the record evolves, or
    the lender was not registered and the call registers it with both
    counters at 0. *)
Lemma call_lenders this reg e c s s' a :
  call this reg e c s = Ok s' →
  lender_evolves (lenders s a) (lenders s' a)
  ∨ (LenderInfo.isActive (lenders s a) = false
     ∧ LenderInfo.isActive (lenders s' a) = true
     ∧ LenderInfo.isApproved (lenders s' a) = false
     ∧ LenderInfo.successfulRequests (lenders s' a) = 0
     ∧ LenderInfo.totalRequests (lenders s' a) = 0).
Proof.
  intros E. destruct c; simpl in E.
  - unfold registerLender in E. inv_ok. subst. simpl.
    destruct (decide (msg_sender e = a)) as [<-|?].
    + right. by rewrite fn_lookup_insert.
    + left. rewrite fn_lookup_insert_ne by done. apply lender_evolves_refl.
  - unfold approveLender, onlyRole in E. inv_ok. subst. simpl. left.
    destruct (decide (lender = a)) as [<-|?].
    + rewrite fn_lookup_insert. unfold lender_evolves. simpl. split_and!; try done; lia.
    + rewrite fn_lookup_insert_ne by done. apply lender_evolves_refl.
  - unfold requestAPIAccess, onlyRole in E. inv_ok. subst. left. apply lender_evolves_refl.
  - apply bind_Ok in E as ([s1 rid] & E & [= <-]). left.
    apply submitCreditRequest_effect in E as (_ & _ & _ & _ & _ & Hl & Hm & _).
    simpl. destruct (decide (a = msg_sender e)) as [->|?].
    + by apply (more_successes_evolves 1).
    + rewrite Hl by done. apply lender_evolves_refl.
  - apply bind_Ok in E as ([s1 bid] & E & [= <-]). left.
    apply submitBatchRequest_effect in E as (_ & _ & _ & Hl & Hm & _).
    simpl. destruct (decide (a = msg_sender e)) as [->|?].
    + apply (more_successes_evolves (Z.of_nat (length borrowers))); [lia|done].
    + rewrite Hl by done. apply lender_evolves_refl.
  - portal_admin_call E. left. apply lender_evolves_refl.
  - portal_admin_call E. left. apply lender_evolves_refl.
  - portal_admin_call E. left. apply lender_evolves_refl.
  - portal_admin_call E. left. apply lender_evolves_refl.
  - portal_admin_call E. left. apply lender_evolves_refl.
Qed.

(** X10: Once a lender is registered no call changes its registration data (its
    name, licence, regions, credit limit and base interest rate), takes its
    registration or its approval back, or lowers a counter; and each call
    adds no more successful requests than requests. *)
Theorem registered_lender_evolves (this : address) (reg : Registry.State) (e : Env)
  (c : Call) (s : State) (a : address) :
  LenderInfo.isActive (lenders s a) = true →
  lender_evolves (lenders s a) (lenders (transact (call this reg e c) s) a).
Proof.
  intros Hactive. unfold transact.
  destruct (call this reg e c s) as [s'|] eqn:E; [|apply lender_evolves_refl].
  destruct (call_lenders _ _ _ _ _ _ a E) as [?|(Hinactive & _)]; [done|congruence].
Qed.

(** X11: In every state the portal can reach, no lender has more successful
    requests than requests. *)
Theorem reachable_successes_within_total (this : address) (s : State) (a : address) :
  reachable this s →
  LenderInfo.successfulRequests (lenders s a) ≤ LenderInfo.totalRequests (lenders s a).
Proof.
  induction 1 as [deployer|reg e c s _ IH]; [simpl; lia|].
  unfold transact. destruct (call this reg e c s) as [s'|] eqn:E; [|done].
  destruct (call_lenders _ _ _ _ _ _ a E) as [Hev|(_ & _ & _ & -> & ->)]; [|lia].
  destruct Hev as (_ & _ & _ & _ & _ & _ & _ & _ & _ & ? & ?). lia.
Qed.

Lemma call_quota this reg e c s s' a :
  call this reg e c s = Ok s' →
  0 ≤ APIAccess.requestsUsed (apiAccess s a) ≤ APIAccess.requestLimit (apiAccess s a) →
  0 ≤ APIAccess.requestsUsed (apiAccess s' a) ≤ APIAccess.requestLimit (apiAccess s' a).
Proof.
  intros E Hq. destruct c; simpl in E.
  - unfold registerLender in E. inv_ok. subst. done.
  - unfold approveLender, onlyRole in E. inv_ok. subst. done.
  - unfold requestAPIAccess, onlyRole in E. inv_ok. subst. simpl.
    destruct (decide (msg_sender e = a)) as [<-|?].
    + rewrite fn_lookup_insert. simpl. repeat case_decide; simplify_eq; lia.
    + by rewrite fn_lookup_insert_ne.
  - apply bind_Ok in E as ([s1 rid] & E & [= <-]).
    apply submitCreditRequest_effect
      in E as (_ & _ & _ & _ & _ & _ & _ & Ha & Hlim & Hlt & Hused).
    simpl. destruct (decide (a = msg_sender e)) as [->|?].
    + rewrite Hlim. destruct Hused as [->| ->]; lia.
    + by rewrite Ha.
  - apply bind_Ok in E as ([s1 bid] & E & [= <-]).
    apply submitBatchRequest_effect
      in E as (_ & _ & _ & _ & _ & Ha & Hlim & Hused & Hle).
    simpl. destruct (decide (a = msg_sender e)) as [->|?].
    + rewrite Hlim. rewrite Hused in *. lia.
    + by rewrite Ha.
  - portal_admin_call E. done.
  - portal_admin_call E. done.
  - portal_admin_call E. done.
  - portal_admin_call E. done.
  - portal_admin_call E. done.
Qed.

(** X12: In every state the portal can reach, the recorded usage of every lender
    lies between 0 and its limit. *)
Theorem reachable_usage_within_limit (this : address) (s : State) (a : address) :
  reachable this s →
  0 ≤ APIAccess.requestsUsed (apiAccess s a) ≤ APIAccess.requestLimit (apiAccess s a).
Proof.
  induction 1 as [deployer|reg e c s _ IH]; [simpl; lia|].
  unfold transact. destruct (call this reg e c s) as [s'|] eqn:E; [|done].
  by eapply call_quota.
Qed.

(** X13: [requestAPIAccess] by an approved lender, in a call that carries no
    ether (the function is not payable), with one of the three access
    levels succeeds whatever grant the lender holds and however much of it
    is used: the new grant has the quota of the level, no recorded usage and
    a window of 30 days from now.  Any other access level reverts. *)
Theorem requestAPIAccess_discards_usage (e : Env) (accessLevel : string) (s : State) :
  msg_value e = 0 →
  hasRole APPROVED_LENDER_ROLE (msg_sender e) s = true →
  LenderInfo.isApproved (lenders s (msg_sender e)) = true →
  block_timestamp e + DAYS_30 ≤ MAX_UINT256 →
  (accessLevel ≠ "basic" → accessLevel ≠ "premium" → accessLevel ≠ "enterprise" →
   requestAPIAccess e accessLevel s = Revert "Invalid access level")
  ∧ ∀ quota, (accessLevel = "basic" ∧ quota = 100
              ∨ accessLevel = "premium" ∧ quota = 1000
              ∨ accessLevel = "enterprise" ∧ quota = 10000) →
      ∃ s', requestAPIAccess e accessLevel s = Ok s'
        ∧ apiAccess s' (msg_sender e)
          = {| APIAccess.lender := msg_sender e; APIAccess.hasAccess := true;
               APIAccess.requestLimit := quota; APIAccess.requestsUsed := 0;
               APIAccess.resetTime := block_timestamp e + DAYS_30;
               APIAccess.accessLevel := accessLevel |}.
Proof.
  intros Hval Hrole Happroved Htime. unfold requestAPIAccess, onlyRole. split.
  - intros H1 H2 H3. do 3 pass. repeat case_decide; done.
  - intros quota Hq. eexists. split.
    + do 3 pass.
      assert ((if decide (accessLevel = "basic") then Ok 100
               else if decide (accessLevel = "premium") then Ok 1000
               else if decide (accessLevel = "enterprise") then Ok 10000
               else Revert "Invalid access level") = Ok quota) as ->.
      { destruct Hq as [[-> ->]|[[-> ->]|[-> ->]]]; done. }
      simpl. pass. reflexivity.
    + simpl. by rewrite fn_lookup_insert.
Qed.

End PortalLedger.

Lemma stored_requests_never_change_witness :
  Portal.getCreditRequest 1
    (transact (Portal.call Scenario.portal Scenario.registry1 (Scenario.lender_at 1700)
                 (Portal.SubmitCreditRequest Scenario.carol 500)) Scenario.portal_history)
  = Portal.getCreditRequest 1 Scenario.portal_history.
Proof.
  assert (1 < Portal.nextRequestId Scenario.portal_history) as Hstored
    by (vm_compute; reflexivity).
  exact (proj1 (proj2 (stored_requests_never_change Scenario.portal Scenario.registry1
                         (Scenario.lender_at 1700)
                         (Portal.SubmitCreditRequest Scenario.carol 500)
                         Scenario.portal_history 1 Hstored))).
Defined.

Lemma reachable_portal_history : Portal.reachable Scenario.portal Scenario.portal_history.
Proof.
  unfold Scenario.portal_history.
  do 4 apply Portal.reachable_call. apply Portal.reachable_init.
Qed.

Lemma reachable_requests_in_order_witness :
  Portal.requests_in_order Scenario.portal_history.
Proof.
  exact (reachable_requests_in_order Scenario.portal Scenario.portal_history
           reachable_portal_history).
Defined.

Lemma reachable_lender_index_witness : Portal.lender_index Scenario.portal_history.
Proof.
  exact (reachable_lender_index Scenario.portal Scenario.portal_history
           reachable_portal_history).
Defined.

Lemma registered_lender_evolves_witness :
  Portal.LenderInfo.totalRequests
    (Portal.lenders
       (transact (Portal.call Scenario.portal Scenario.registry1 (Scenario.lender_at 1700)
                    (Portal.SubmitCreditRequest Scenario.carol 500)) Scenario.portal_history)
       Scenario.lender)
  = Portal.LenderInfo.totalRequests
      (Portal.lenders Scenario.portal_history Scenario.lender) + 1
  ∧ Portal.lender_evolves
      (Portal.lenders Scenario.portal_history Scenario.lender)
      (Portal.lenders
         (transact (Portal.call Scenario.portal Scenario.registry1 (Scenario.lender_at 1700)
                      (Portal.SubmitCreditRequest Scenario.carol 500))
            Scenario.portal_history)
         Scenario.lender).
Proof.
  assert (Portal.LenderInfo.isActive
            (Portal.lenders Scenario.portal_history Scenario.lender) = true) as Hactive
    by (vm_compute; reflexivity).
  split; [vm_compute; reflexivity|].
  exact (registered_lender_evolves Scenario.portal Scenario.registry1
           (Scenario.lender_at 1700) (Portal.SubmitCreditRequest Scenario.carol 500)
           Scenario.portal_history Scenario.lender Hactive).
Defined.

Lemma reachable_successes_within_total_witness :
  Portal.LenderInfo.successfulRequests
    (Portal.lenders Scenario.portal_history Scenario.lender)
  ≤ Portal.LenderInfo.totalRequests
      (Portal.lenders Scenario.portal_history Scenario.lender).
Proof.
  exact (reachable_successes_within_total Scenario.portal Scenario.portal_history
           Scenario.lender reachable_portal_history).
Defined.

Lemma reachable_usage_within_limit_witness :
  0 ≤ Portal.APIAccess.requestsUsed
        (Portal.apiAccess Scenario.portal_history Scenario.lender)
    ≤ Portal.APIAccess.requestLimit
        (Portal.apiAccess Scenario.portal_history Scenario.lender).
Proof.
  exact (reachable_usage_within_limit Scenario.portal Scenario.portal_history
           Scenario.lender reachable_portal_history).
Defined.

Lemma requestAPIAccess_discards_usage_witness :
  ∃ s', Portal.requestAPIAccess (Scenario.at_time Scenario.lender 0 1700) "premium"
          Scenario.portal_exhausted = Ok s'
    ∧ Portal.apiAccess s' Scenario.lender
      = {| Portal.APIAccess.lender := Scenario.lender;
           Portal.APIAccess.hasAccess := true;
           Portal.APIAccess.requestLimit := 1000;
           Portal.APIAccess.requestsUsed := 0;
           Portal.APIAccess.resetTime := 1700 + DAYS_30;
           Portal.APIAccess.accessLevel := "premium" |}.
Proof.
  assert (Portal.hasRole Portal.APPROVED_LENDER_ROLE Scenario.lender
            Scenario.portal_exhausted = true) as Hrole by (vm_compute; reflexivity).
  assert (Portal.LenderInfo.isApproved
            (Portal.lenders Scenario.portal_exhausted Scenario.lender) = true) as Happroved
    by (vm_compute; reflexivity).
  assert (1700 + DAYS_30 ≤ MAX_UINT256) as Htime by (vm_compute; discriminate).
  exact (proj2 (requestAPIAccess_discards_usage (Scenario.at_time Scenario.lender 0 1700)
                  "premium" Scenario.portal_exhausted eq_refl Hrole Happroved Htime)
           1000 (or_intror (or_introl (conj eq_refl eq_refl)))).
Defined.

(** Reads a mapping that a call has written at key [k], at key [p]. *)
Ltac at_key k p :=
  destruct (decide (k = p)) as [<-|?];
  [rewrite ?fn_lookup_insert | rewrite ?fn_lookup_insert_ne by done]; simpl.

(** The same for a key [t] that is not a variable. *)
Ltac at_term k t :=
  let Heq := fresh "Heq" in
  destruct (decide (k = t)) as [Heq|?];
  [rewrite <- ?Heq; rewrite ?fn_lookup_insert; simpl; rewrite ?Heq
  |rewrite ?fn_lookup_insert_ne by done]; simpl.

(** ** DataMarketplace: the catalogue, the purchases and the reviews *)

Section MarketplaceLedger.
Import Marketplace.
Context {Token : Type}.
Context (transferFrom : address → address → address → Z → Token → result (Token * bool)).
Context (keccak256 : address → Z → Z → Z).
Context (this : address).

(** What a purchase that succeeded has done: the two transfers, and the
    state it has written. *)
Lemma purchaseProduct_effect e pid s tok s' tok' id :
  purchaseProduct transferFrom keccak256 this e pid (s, tok) = Ok (s', tok', id) →
  let product := products s pid in
  let fee := DataProduct.price product * platformFeePercent s / 10000 in
  DataProduct.isActive product = true
  ∧ DataProduct.seller product ≠ msg_sender e
  ∧ hasPurchased s (msg_sender e) pid = false
  ∧ fee ≤ DataProduct.price product
  ∧ (∃ tok1 b1 b2,
       transferFrom this (msg_sender e) (DataProduct.seller product)
         (DataProduct.price product - fee) tok = Ok (tok1, b1)
       ∧ transferFrom this (msg_sender e) (feeRecipient s) fee tok1 = Ok (tok', b2))
  ∧ id = nextPurchaseId s
  ∧ s' = set_products
           (<[pid := DataProduct.set_totalSales (DataProduct.totalSales product + 1) product]>
              (products s))
           (set_hasPurchased
              (<[msg_sender e := <[pid := true]> (hasPurchased s (msg_sender e))]>
                 (hasPurchased s))
              (set_userPurchases
                 (<[msg_sender e := userPurchases s (msg_sender e) ++ [nextPurchaseId s]]>
                    (userPurchases s))
                 (set_purchases
                    (<[nextPurchaseId s :=
                         {| Purchase.purchaseId := nextPurchaseId s;
                            Purchase.productId := pid;
                            Purchase.buyer := msg_sender e;
                            Purchase.seller := DataProduct.seller product;
                            Purchase.price := DataProduct.price product;
                            Purchase.timestamp := block_timestamp e;
                            Purchase.isCompleted := true;
                            Purchase.accessKey :=
                              keccak256 (msg_sender e) pid (block_timestamp e) |}]>
                       (purchases s))
                    (set_nextPurchaseId (nextPurchaseId s + 1) s)))).
Proof.
  unfold Marketplace.purchaseProduct. intros H. inv_ok.
  repeat (match goal with p : (Token * bool)%type |- _ => destruct p end;
          simpl in H; inv_ok).
  match goal with P : checked_mul _ _ = Ok _ |- _ =>
    unfold checked_mul in P; case_decide; [injection P as <-|done] end.
  match goal with P : checked_sub _ _ = Ok _ |- _ =>
    unfold checked_sub in P; case_decide; [injection P as <-|done] end.
  subst. split_and!; try done. eauto.
Qed.

(** What a review that succeeded has written. *)
Lemma submitReview_effect e pid stars comment s s' :
  submitReview e pid stars comment s = Ok s' →
  let product := products s pid in
  let count := DataProduct.reviewCount product in
  hasPurchased s (msg_sender e) pid = true
  ∧ 1 ≤ stars ≤ 5
  ∧ (∀ r, r ∈ productReviews s pid → Review.reviewer r ≠ msg_sender e)
  ∧ count + 1 ≠ 0
  ∧ s' = set_products
           (<[pid := DataProduct.set_rating
                       ((DataProduct.rating product * count + stars * 100) / (count + 1))
                       (count + 1) product]> (products s))
           (set_productReviews
              (<[pid := productReviews s pid
                        ++ [{| Review.reviewer := msg_sender e;
                               Review.productId := pid;
                               Review.rating := stars;
                               Review.comment := comment;
                               Review.timestamp := block_timestamp e;
                               Review.isVerified := true |}]]> (productReviews s)) s).
Proof.
  unfold submitReview. intros H. inv_ok. simpl in *.
  match goal with P : check_not_reviewed _ _ = Ok _ |- _ =>
    pose proof (proj1 (check_not_reviewed_Ok _ _ _) P) as Hnone end.
  match goal with P : checked_mul _ _ = Ok _ |- _ =>
    unfold checked_mul in P; case_decide; [injection P as <-|done] end.
  match goal with P : checked_mul8 _ _ = Ok _ |- _ =>
    unfold checked_mul8 in P; case_decide; [injection P as <-|done] end.
  match goal with P : checked_div _ _ = Ok _ |- _ =>
    unfold checked_div in P; case_decide; [done|injection P as <-] end.
  subst s'. split_and!; try done; lia.
Qed.

(** The calls that only change the fee, its recipient or the roles. *)
Ltac market_admin_call P :=
  unfold updatePlatformFee, updateFeeRecipient, grantRole, revokeRole, renounceRole,
    onlyRole in P; inv_ok; subst; simpl in *.

(** Opens a call that succeeded: one goal for each entry point, with the
    state it produced written out. *)
Ltac market_call H :=
  match type of H with
  | Marketplace.call _ _ _ _ ?c (_, _) = Ok (_, _) =>
      let Hret := fresh "Hret" in
      destruct c; unfold Marketplace.call in H; cbn [fst snd] in H;
      apply bind_Ok in H as (? & H & Hret); injection Hret as Hret; simplify_eq;
      [ unfold listProduct in H; inv_ok; simplify_eq; simpl in *
      | match goal with r : (State * Token * Z)%type |- _ => destruct r as [[? ?] ?] end;
        simpl in *; simplify_eq;
        apply purchaseProduct_effect in H; cbv zeta in H;
        destruct H as (? & ? & ? & ? & ? & ? & ?); simplify_eq; simpl in *
      | apply submitReview_effect in H; cbv zeta in H;
        destruct H as (? & ? & ? & ? & ?); simplify_eq; simpl in *
      | unfold updateProductPrice in H; inv_ok; simplify_eq; simpl in *
      | unfold deactivateProduct in H; inv_ok; simplify_eq; simpl in *
      | market_admin_call H
      | market_admin_call H
      | unfold emergencyDeactivateProduct, onlyRole in H; inv_ok; simplify_eq; simpl in *
      | market_admin_call H
      | market_admin_call H
      | market_admin_call H ]
  end.

Lemma set_isActive_zero : DataProduct.set_isActive false DataProduct.zero = DataProduct.zero.
Proof. reflexivity. Qed.

(** A product that can be bought, repriced, deactivated or reviewed is a
    listed one. *)
Lemma active_listed s p :
  catalogue_in_order s → DataProduct.isActive (products s p) = true → listed s p.
Proof.
  intros (_ & _ & Hout) Ha. destruct (decide (listed s p)) as [|Hn]; [done|].
  destruct (Hout p Hn) as (Hz & _). by rewrite Hz in Ha.
Qed.

Lemma purchased_listed s u p :
  catalogue_in_order s → hasPurchased s u p = true → listed s p.
Proof.
  intros (_ & _ & Hout) Ha. destruct (decide (listed s p)) as [|Hn]; [done|].
  destruct (Hout p Hn) as (_ & _ & Hz). by rewrite Hz in Ha.
Qed.

Lemma call_catalogue_in_order e c s tok s' tok' :
  call transferFrom keccak256 this e c (s, tok) = Ok (s', tok') →
  catalogue_in_order s → catalogue_in_order s'.
Proof.
  intros H Hcat. pose proof Hcat as (H1 & Hin & Hout).
  market_call H; try done.
  - split_and!; unfold listed in *; simpl; [lia| |].
    + intros p Hp. at_key (nextProductId s) p; [done|]. apply Hin. lia.
    + intros p Hp. rewrite fn_lookup_insert_ne by lia. apply Hout. lia.
  - assert (listed s productId) as Hl by by apply active_listed.
    split_and!; unfold listed in *; simpl; [lia| |].
    + intros p Hp. at_key productId p; by apply Hin.
    + intros p Hp. rewrite fn_lookup_insert_ne by (intros ->; done).
      destruct (Hout p Hp) as (? & ? & Hf). split_and!; [done|done|].
      intros u. at_key (msg_sender e) u; [|done].
      rewrite fn_lookup_insert_ne by (intros ->; done). done.
  - assert (listed s productId) as Hl by by eapply purchased_listed.
    split_and!; unfold listed in *; simpl; [lia| |].
    + intros p Hp. at_key productId p; by apply Hin.
    + intros p Hp. rewrite !fn_lookup_insert_ne by (intros ->; done). by apply Hout.
  - assert (listed s productId) as Hl by by apply active_listed.
    split_and!; unfold listed in *; simpl; [lia| |].
    + intros p Hp. at_key productId p; [|by apply Hin].
      destruct (Hin _ Hl) as (? & ? & ? & ?). done.
    + intros p Hp. rewrite !fn_lookup_insert_ne by (intros ->; done). by apply Hout.
  - assert (listed s productId) as Hl by by apply active_listed.
    split_and!; unfold listed in *; simpl; [lia| |].
    + intros p Hp. at_key productId p; by apply Hin.
    + intros p Hp. rewrite !fn_lookup_insert_ne by (intros ->; done). by apply Hout.
  - split_and!; unfold listed in *; simpl; [lia| |].
    + intros p Hp. at_key productId p; by apply Hin.
    + intros p Hp. at_key productId p; [|by apply Hout].
      destruct (Hout _ Hp) as (-> & ? & ?). done.
Qed.

Lemma call_seller_index e c s tok s' tok' :
  call transferFrom keccak256 this e c (s, tok) = Ok (s', tok') →
  catalogue_in_order s → seller_index s → seller_index s'.
Proof.
  intros H Hcat Hidx. pose proof Hcat as (H1 & Hin & Hout).
  market_call H; try done; intros a; destruct (Hidx a) as [Hnd Hiff];
    unfold listed in *; simpl.
  - at_key (msg_sender e) a.
    + split.
      * apply list.NoDup_app. split_and!; [done| |apply NoDup_singleton].
        intros p Hp ->%list_elem_of_singleton. apply Hiff in Hp. lia.
      * intros p. rewrite elem_of_app, list_elem_of_singleton, Hiff.
        at_key (nextProductId s) p; [naive_solver lia|].
        split; [intros [[? ?]|?]; [split; [lia|done]|done] | intros [? ?]; left; split; [lia|done]].
    + split; [done|]. intros p. rewrite Hiff.
      at_key (nextProductId s) p; [naive_solver lia|].
      split; intros [? ?]; (split; [lia|done]).
  - split; [done|]. intros p. rewrite Hiff. by at_key productId p.
  - split; [done|]. intros p. rewrite Hiff. by at_key productId p.
  - split; [done|]. intros p. rewrite Hiff. by at_key productId p.
  - split; [done|]. intros p. rewrite Hiff. by at_key productId p.
  - split; [done|]. intros p. rewrite Hiff. by at_key productId p.
Qed.

(** The purchases stay in order when a call leaves them alone, lists no
    fewer products and keeps the seller of every listed product. *)
Lemma purchases_in_order_frame s s' :
  purchases s' = purchases s → hasPurchased s' = hasPurchased s →
  nextPurchaseId s' = nextPurchaseId s → nextProductId s ≤ nextProductId s' →
  (∀ p, listed s p → DataProduct.seller (products s' p) = DataProduct.seller (products s p)) →
  purchases_in_order s → purchases_in_order s'.
Proof.
  intros Hq Hh Hn Hl Hs (Hp1 & Hrec & Hnot & Hflag & Huniq).
  unfold purchases_in_order, recorded, listed in *. rewrite Hq, Hh, Hn.
  split_and!; try done.
  intros id Hid. destruct (Hrec id Hid) as (? & ? & ? & ? & ? & ?).
  rewrite Hs by done. split_and!; first [done | lia].
Qed.

Lemma call_purchases_in_order e c s tok s' tok' :
  call transferFrom keccak256 this e c (s, tok) = Ok (s', tok') →
  catalogue_in_order s → purchases_in_order s → purchases_in_order s'.
Proof.
  intros H Hcat Hpur. pose proof Hcat as (H1 & Hin & Hout).
  market_call H; try done.
  - apply (purchases_in_order_frame s); simpl; try first [done | lia].
    intros p Hp. unfold listed in Hp. by rewrite fn_lookup_insert_ne by lia.
  - assert (listed s productId) as Hl by by apply active_listed.
    destruct Hpur as (Hp1 & Hrec & Hnot & Hflag & Huniq).
    assert (∀ id, recorded s id →
              ¬ (Purchase.buyer (purchases s id) = msg_sender e
                 ∧ Purchase.productId (purchases s id) = productId)) as Hfresh.
    { intros id Hid [Hb Hp]. destruct (Hrec id Hid) as (_ & _ & _ & _ & _ & Hf).
      rewrite Hb, Hp in Hf. congruence. }
    unfold purchases_in_order, recorded, listed in *. simpl.
    split_and!; [lia| | | |].
    + intros id Hid. at_key (nextPurchaseId s) id.
      * split_and!; first [done | lia | congruence].
      * destruct (Hrec id) as (? & ? & ? & ? & ? & Hf); [lia|].
        split_and!; try first [done | lia].
        -- by at_term productId (Purchase.productId (purchases s id)).
        -- at_term (msg_sender e) (Purchase.buyer (purchases s id)); [|done].
           by at_term productId (Purchase.productId (purchases s id)).
    + intros id Hid. rewrite fn_lookup_insert_ne by lia. apply Hnot. lia.
    + intros u p Hf.
      destruct (decide (msg_sender e = u ∧ productId = p)) as [[<- <-]|Hne].
      * exists (nextPurchaseId s). rewrite fn_lookup_insert. simpl. split; [lia|done].
      * assert (hasPurchased s u p = true) as Hold.
        { revert Hf. at_key (msg_sender e) u; [|done].
          at_key productId p; naive_solver. }
        destruct (Hflag u p Hold) as (id & Hid & ? & ?).
        exists id. rewrite fn_lookup_insert_ne by lia. split; [lia|done].
    + intros id1 id2 Hid1 Hid2.
      at_key (nextPurchaseId s) id1; at_key (nextPurchaseId s) id2; try done.
      * intros Hb Hp. exfalso. apply (Hfresh id2); [lia|done].
      * intros Hb Hp. exfalso. apply (Hfresh id1); [lia|done].
      * apply Huniq; lia.
  - apply (purchases_in_order_frame s); simpl; try first [done | lia].
    intros p Hp. by at_key productId p.
  - apply (purchases_in_order_frame s); simpl; try first [done | lia].
    intros p Hp. by at_key productId p.
  - apply (purchases_in_order_frame s); simpl; try first [done | lia].
    intros p Hp. by at_key productId p.
  - apply (purchases_in_order_frame s); simpl; try first [done | lia].
    intros p Hp. by at_key productId p.
Qed.

Lemma call_buyer_index e c s tok s' tok' :
  call transferFrom keccak256 this e c (s, tok) = Ok (s', tok') →
  1 ≤ nextPurchaseId s → buyer_index s → buyer_index s'.
Proof.
  intros H Hp1 Hidx.
  market_call H; try done.
  intros u. destruct (Hidx u) as [Hnd Hiff]. unfold recorded in *. simpl.
  at_key (msg_sender e) u.
  - split.
    + apply list.NoDup_app. split_and!; [done| |apply NoDup_singleton].
      intros id Hid ->%list_elem_of_singleton. apply Hiff in Hid. lia.
    + intros id. rewrite elem_of_app, list_elem_of_singleton, Hiff.
      at_key (nextPurchaseId s) id; [naive_solver lia|].
      split; [intros [[? ?]|?]; [split; [lia|done]|done]
             | intros [? ?]; left; split; [lia|done]].
  - split; [done|]. intros id. rewrite Hiff.
    at_key (nextPurchaseId s) id; [naive_solver lia|].
    split; intros [? ?]; (split; [lia|done]).
Qed.

Lemma filter_agree {A} (P Q : A → Prop) `{!∀ x, Decision (P x)} `{!∀ x, Decision (Q x)}
  (l : list A) :
  (∀ x, x ∈ l → P x ↔ Q x) → filter P l = filter Q l.
Proof.
  induction l as [|x l IH]; intros Hagree; [done|].
  rewrite !list.filter_cons. rewrite IH by (intros y Hy; apply Hagree; by right).
  destruct (decide (P x)) as [HP|HP], (decide (Q x)) as [HQ|HQ]; try done.
  - destruct HQ. apply Hagree; [by left|done].
  - destruct HP. apply Hagree; [by left|done].
Qed.

Lemma call_sales_counted e c s tok s' tok' :
  call transferFrom keccak256 this e c (s, tok) = Ok (s', tok') →
  catalogue_in_order s → 1 ≤ nextPurchaseId s →
  (∀ p, DataProduct.totalSales (products s p) = Z.of_nat (length (sales_of s p))) →
  ∀ p, DataProduct.totalSales (products s' p) = Z.of_nat (length (sales_of s' p)).
Proof.
  intros H Hcat Hp1 Hsales p. pose proof Hcat as (H1 & Hin & Hout).
  pose proof (Hsales p) as Hp. unfold sales_of in *.
  market_call H; try done.
  - at_key (nextProductId s) p; [|done].
    destruct (Hout (nextProductId s)) as (Hz & _); [unfold listed; lia|].
    by rewrite <- Hp, Hz.
  - replace (nextPurchaseId s + 1 - 1) with ((nextPurchaseId s - 1) + 1) by lia.
    rewrite seqZ_app by lia. rewrite list.filter_app, length_app.
    rewrite (filter_agree _ (λ id, Purchase.productId (purchases s id) = p)).
    2:{ intros id Hid%elem_of_seqZ. by rewrite fn_lookup_insert_ne by lia. }
    replace (1 + (nextPurchaseId s - 1)) with (nextPurchaseId s) by lia.
    rewrite (seqZ_cons (nextPurchaseId s) 1) by lia.
    rewrite (seqZ_nil _ (Z.pred 1)) by lia. rewrite list.filter_cons, list.filter_nil.
    simpl. rewrite fn_lookup_insert. simpl.
    at_key productId p.
    + rewrite Hp. lia.
    + rewrite Hp. lia.
  - by at_key productId p.
  - by at_key productId p.
  - by at_key productId p.
  - by at_key productId p.
Qed.

Lemma call_reviews_consistent e c s tok s' tok' :
  call transferFrom keccak256 this e c (s, tok) = Ok (s', tok') →
  catalogue_in_order s →
  (∀ p, reviews_consistent s p) → ∀ p, reviews_consistent s' p.
Proof.
  intros H Hcat Hrev p. pose proof Hcat as (H1 & Hin & Hout).
  pose proof (Hrev p) as (Hcount & Hnd & Hall & Hnone & Hsome).
  unfold reviews_consistent.
  market_call H; try done.
  - at_key (nextProductId s) p; [|done].
    destruct (Hout (nextProductId s)) as (_ & -> & _); [unfold listed; lia|].
    split_and!; try done; [apply NoDup_nil_2 | by intros r ?%elem_of_nil].
  - assert (∀ r, r ∈ productReviews s p →
              Review.productId r = p ∧ 1 ≤ Review.rating r ≤ 5
              ∧ <[msg_sender e := <[productId := true]> (hasPurchased s (msg_sender e))]>
                  (hasPurchased s) (Review.reviewer r) p = true) as Hall'.
    { intros r Hr. destruct (Hall r Hr) as (? & ? & ?). split_and!; try first [done | lia].
      at_term (msg_sender e) (Review.reviewer r); [|done]. by at_key productId p. }
    by at_key productId p.
  - at_key productId p; [|done].
    split_and!.
    + rewrite length_app. simpl. lia.
    + rewrite fmap_app. apply list.NoDup_app. split_and!; [done| |apply NoDup_singleton].
      intros a (r & -> & Hr)%list_elem_of_fmap Hsame%list_elem_of_singleton.
      simpl in Hsame.
      match goal with Hnew : ∀ r, r ∈ _ → Review.reviewer r ≠ _ |- _ => by eapply Hnew end.
    + intros r [Hr| ->%list_elem_of_singleton]%elem_of_app; [by apply Hall|].
      simpl. done.
    + intros Hnil. by destruct (app_cons_not_nil _ _ _ (eq_sym Hnil)).
    + intros _. destruct (productReviews s productId) as [|r0 rs] eqn:Hrs.
      * simpl in Hcount. rewrite Hcount. rewrite Z.mul_0_r. simpl.
        rewrite Z.div_1_r. lia.
      * destruct Hsome as [Hlo Hhi]; [done|].
        assert (1 ≤ DataProduct.reviewCount (products s productId)) as Hc.
        { rewrite Hcount. simpl. lia. }
        split.
        -- apply Z.div_le_lower_bound; [lia|]. nia.
        -- apply Z.div_le_upper_bound; [lia|]. nia.
  - by at_key productId p.
  - by at_key productId p.
  - by at_key productId p.
Qed.

Lemma call_fee_bounded e c s tok s' tok' :
  call transferFrom keccak256 this e c (s, tok) = Ok (s', tok') →
  platformFeePercent s ≤ 1000 → platformFeePercent s' ≤ 1000.
Proof. intros H Hfee. market_call H; done. Qed.

Lemma call_market_consistent e c s tok s' tok' :
  call transferFrom keccak256 this e c (s, tok) = Ok (s', tok') →
  market_consistent s → market_consistent s'.
Proof.
  intros H (Hcat & Hsel & Hpur & Hbuy & Hsales & Hrev & Hfee).
  pose proof Hpur as (Hp1 & _).
  split_and!.
  - by eapply call_catalogue_in_order.
  - by eapply call_seller_index.
  - by eapply call_purchases_in_order.
  - by eapply call_buyer_index.
  - by eapply call_sales_counted.
  - by eapply call_reviews_consistent.
  - by eapply call_fee_bounded.
Qed.

Lemma constructor_market_consistent deployer _paymentToken _feeRecipient :
  market_consistent (constructor deployer _paymentToken _feeRecipient).
Proof.
  split_and!; simpl.
  - split_and!; simpl; [lia| |done]. unfold listed. simpl. intros; lia.
  - intros a. simpl. split; [apply NoDup_nil_2|]. intros p. unfold listed. simpl.
    split; [by intros ?%elem_of_nil|lia].
  - split_and!; unfold recorded; simpl; try first [done | lia | intros; lia].
  - intros u. simpl. split; [apply NoDup_nil_2|]. intros id. unfold recorded. simpl.
    split; [by intros ?%elem_of_nil|lia].
  - done.
  - intros p. split_and!; simpl; try done; [apply NoDup_nil_2 | by intros r ?%elem_of_nil].
  - lia.
Qed.

Lemma later_market_consistent w1 w2 :
  later transferFrom keccak256 this w1 w2 →
  market_consistent w1.1 → market_consistent w2.1.
Proof.
  induction 1 as [w|w1 w2 e c _ IH|w1 s tok tok' _ IH]; intros Hinv; [done| |by apply IH].
  unfold transact.
  destruct (call transferFrom keccak256 this e c w2) as [[s' tok']|] eqn:E; [|by apply IH].
  destruct w2 as [s2 tok2]. eapply call_market_consistent; [done|by apply IH].
Qed.

Lemma reachable_market_consistent w :
  reachable transferFrom keccak256 this w → market_consistent w.1.
Proof.
  intros (deployer & token & recipient & tok & Hlater).
  apply (later_market_consistent _ _ Hlater). apply constructor_market_consistent.
Qed.

(** X14: In every state the marketplace can reach, product ids have been handed
    out in order from 1, a listed product carries its id, a name, a positive
    price and a data hash, an id never handed out holds nothing, and
    [getSellerProducts] returns, once each, exactly the listed products of
    the seller. *)
Theorem reachable_catalogue_in_order (w : State * Token) :
  reachable transferFrom keccak256 this w →
  catalogue_in_order w.1
  ∧ ∀ a, NoDup (getSellerProducts a w.1)
         ∧ ∀ p, p ∈ getSellerProducts a w.1
                ↔ listed w.1 p ∧ DataProduct.seller (products w.1 p) = a.
Proof.
  intros (Hcat & Hsel & _)%reachable_market_consistent. split; [done|]. apply Hsel.
Qed.

(** X15: In every state the marketplace can reach, purchase ids have been handed
    out in order from 1; a recorded purchase is completed, of a listed
    product, by a buyer other than the seller; [hasUserPurchased] holds
    exactly where a purchase is recorded; no buyer has two purchases of one
    product; and [getUserPurchases] returns, once each, exactly the recorded
    purchases of the buyer. *)
Theorem reachable_purchases_in_order (w : State * Token) :
  reachable transferFrom keccak256 this w →
  purchases_in_order w.1
  ∧ (∀ u p, hasUserPurchased u p w.1 = true
            ↔ ∃ id, recorded w.1 id ∧ Purchase.buyer (purchases w.1 id) = u
                    ∧ Purchase.productId (purchases w.1 id) = p)
  ∧ ∀ u, NoDup (getUserPurchases u w.1)
         ∧ ∀ id, id ∈ getUserPurchases u w.1
                 ↔ recorded w.1 id ∧ Purchase.buyer (purchases w.1 id) = u.
Proof.
  intros (_ & _ & Hpur & Hbuy & _)%reachable_market_consistent.
  split_and!; [done| |apply Hbuy].
  destruct Hpur as (_ & Hrec & _ & Hflag & _).
  intros u p. split; [apply Hflag|].
  intros (id & Hid & <- & <-). by apply Hrec.
Qed.

(** X16: In every state the marketplace can reach, the [totalSales] of a product
    is the number of recorded purchases of that product. *)
Theorem reachable_totalSales_counts_purchases (w : State * Token) (p : Z) :
  reachable transferFrom keccak256 this w →
  DataProduct.totalSales (products w.1 p) = Z.of_nat (length (sales_of w.1 p)).
Proof. intros (_ & _ & _ & _ & Hsales & _)%reachable_market_consistent. apply Hsales. Qed.

(** X17: In every state the marketplace can reach, [getProductReviews] returns
    as many reviews as the product's [reviewCount], by different reviewers
    who all purchased the product, each with one to five stars; the rating
    of a product without reviews is 0 and that of a reviewed product lies
    between 100 and 500. *)
Theorem reachable_reviews_consistent (w : State * Token) (p : Z) :
  reachable transferFrom keccak256 this w →
  DataProduct.reviewCount (products w.1 p) = Z.of_nat (length (getProductReviews p w.1))
  ∧ NoDup (Review.reviewer <$> getProductReviews p w.1)
  ∧ (∀ r, r ∈ getProductReviews p w.1 →
       Review.productId r = p ∧ 1 ≤ Review.rating r ≤ 5
       ∧ hasUserPurchased (Review.reviewer r) p w.1 = true)
  ∧ (getProductReviews p w.1 = [] → DataProduct.rating (products w.1 p) = 0)
  ∧ (getProductReviews p w.1 ≠ [] → 100 ≤ DataProduct.rating (products w.1 p) ≤ 500).
Proof. intros (_ & _ & _ & _ & _ & Hrev & _)%reachable_market_consistent. apply Hrev. Qed.

(** X18: A purchase that succeeds in a state the marketplace can reach has made
    two transfers from the buyer, first the price less the fee to the seller
    and then the fee to the fee recipient; the fee is the price times
    [platformFeePercent] over 10000, rounded down, and is at most a tenth of
    the price, which is positive. *)
Theorem purchaseProduct_splits_payment (e : Env) (pid : Z) (s : State) (tok : Token)
  (s' : State) (tok' : Token) (id : Z) :
  reachable transferFrom keccak256 this (s, tok) →
  purchaseProduct transferFrom keccak256 this e pid (s, tok) = Ok (s', tok', id) →
  let price := DataProduct.price (products s pid) in
  let fee := price * platformFeePercent s / 10000 in
  0 < price ∧ 10 * fee ≤ price
  ∧ ∃ tok1 b1 b2,
      transferFrom this (msg_sender e) (DataProduct.seller (products s pid)) (price - fee) tok
      = Ok (tok1, b1)
      ∧ transferFrom this (msg_sender e) (feeRecipient s) fee tok1 = Ok (tok', b2).
Proof.
  intros (Hcat & _ & _ & _ & _ & _ & Hfee)%reachable_market_consistent H. simpl in *.
  apply purchaseProduct_effect in H. cbv zeta in H.
  destruct H as (Hactive & _ & _ & _ & Htransfers & _).
  pose proof (active_listed _ _ Hcat Hactive) as Hl.
  destruct Hcat as (_ & Hin & _). destruct (Hin pid Hl) as (_ & _ & Hprice & _).
  split_and!; [done| |done].
  assert (DataProduct.price (products s pid) * platformFeePercent s
          ≤ DataProduct.price (products s pid) * 1000) as Hle by nia.
  apply (Z.div_le_mono _ _ 10000) in Hle; [|lia].
  assert (DataProduct.price (products s pid) * 1000 / 10000
          = DataProduct.price (products s pid) / 10) as Hten.
  { replace (DataProduct.price (products s pid) * 1000)
      with (DataProduct.price (products s pid) * 1000) by lia.
    replace 10000 with (10 * 1000) by lia.
    rewrite Z.div_mul_cancel_r by lia. done. }
  rewrite Hten in Hle.
  pose proof (Z.mul_div_le (DataProduct.price (products s pid)) 10). lia.
Qed.

Lemma product_evolves_refl q : product_evolves q q.
Proof. unfold product_evolves. split_and!; try done; lia. Qed.

Lemma product_evolves_trans q1 q2 q3 :
  product_evolves q1 q2 → product_evolves q2 q3 → product_evolves q1 q3.
Proof.
  unfold product_evolves.
  intros (? & ? & ? & ? & ? & ? & ? & ? & Hoff1 & ? & ?)
         (? & ? & ? & ? & ? & ? & ? & ? & Hoff2 & ? & ?).
  split_and!; try congruence; try lia.
  intros Hoff. destruct (Hoff1 Hoff) as (Hoff' & ? & ?).
  destruct (Hoff2 Hoff') as (? & ? & ?). split_and!; congruence.
Qed.

Lemma call_product_evolves e c s tok s' tok' p :
  call transferFrom keccak256 this e c (s, tok) = Ok (s', tok') →
  p < nextProductId s →
  product_evolves (products s p) (products s' p) ∧ nextProductId s ≤ nextProductId s'.
Proof.
  intros H Hp.
  market_call H; try (split; [apply product_evolves_refl|lia]).
  - rewrite fn_lookup_insert_ne by lia. split; [apply product_evolves_refl|lia].
  - split; [|lia]. at_key productId p; [|apply product_evolves_refl].
    unfold product_evolves. simpl. split_and!; try done; try lia. congruence.
  - split; [|lia]. at_key productId p; [|apply product_evolves_refl].
    unfold product_evolves. simpl. split_and!; try done; lia.
  - split; [|lia]. at_key productId p; [|apply product_evolves_refl].
    unfold product_evolves. simpl. split_and!; try done; try lia. congruence.
  - split; [|lia]. at_key productId p; [|apply product_evolves_refl].
    unfold product_evolves. simpl. split_and!; try done; lia.
  - split; [|lia]. at_key productId p; [|apply product_evolves_refl].
    unfold product_evolves. simpl. split_and!; try done; lia.
Qed.

Lemma later_product_evolves w1 w2 p :
  later transferFrom keccak256 this w1 w2 →
  p < nextProductId w1.1 →
  product_evolves (products w1.1 p) (products w2.1 p)
  ∧ nextProductId w1.1 ≤ nextProductId w2.1.
Proof.
  induction 1 as [w|w1 w2 e c _ IH|w1 s tok tok' _ IH]; intros Hp;
    [split; [apply product_evolves_refl|lia] | |by apply IH].
  destruct (IH Hp) as [Hev Hn]. unfold transact.
  destruct (call transferFrom keccak256 this e c w2) as [[s' tok']|] eqn:E; [|done].
  destruct w2 as [s2 tok2].
  destruct (call_product_evolves _ _ _ _ _ _ p E) as [Hev' Hn']; [simpl in *; lia|].
  split; [by eapply product_evolves_trans|simpl in *; lia].
Qed.

(** X19: Whatever is called after a product has been listed, the product stays
    listed and keeps its id, seller, name, description, data hash, creation
    time, features and category; its sales and its review count never go
    down; and a product that is inactive stays inactive, at the same price
    and with the same sales. *)
Theorem listed_product_evolves (w1 w2 : State * Token) (p : Z) :
  later transferFrom keccak256 this w1 w2 →
  listed w1.1 p →
  listed w2.1 p ∧ product_evolves (products w1.1 p) (products w2.1 p).
Proof.
  intros Hlater [Hp1 Hp]. destruct (later_product_evolves _ _ p Hlater Hp) as [Hev Hn].
  split; [unfold listed; lia|done].
Qed.

(** X20: A listed product that has been deactivated is never on sale again:
    in every later state every purchase of it reverts with
    ["Product not active"], every price update reverts, and both leave the
    marketplace and the token as they were. *)
Theorem deactivated_product_stays_off_sale (w1 w2 : State * Token) (p : Z) (e : Env) :
  later transferFrom keccak256 this w1 w2 →
  listed w1.1 p →
  DataProduct.isActive (products w1.1 p) = false →
  purchaseProduct transferFrom keccak256 this e p w2 = Revert "Product not active"
  ∧ transact (call transferFrom keccak256 this e (PurchaseProduct p)) w2 = w2
  ∧ ∀ newPrice,
      (∃ reason, updateProductPrice e p newPrice w2.1 = Revert reason)
      ∧ transact (call transferFrom keccak256 this e (UpdateProductPrice p newPrice)) w2 = w2.
Proof.
  intros Hlater [Hp1 Hp] Hoff.
  destruct (later_product_evolves _ _ p Hlater Hp) as [Hev _].
  destruct Hev as (_ & _ & _ & _ & _ & _ & _ & _ & Hstay & _).
  destruct (Hstay Hoff) as (Hoff2 & _). destruct w2 as [s2 tok2]. simpl in Hoff2.
  assert (purchaseProduct transferFrom keccak256 this e p (s2, tok2)
          = Revert "Product not active") as Hbuy.
  { unfold Marketplace.purchaseProduct. stop. done. }
  split_and!; [done| |].
  - unfold transact, Marketplace.call. by rewrite Hbuy.
  - intros newPrice.
    assert (∃ reason, updateProductPrice e p newPrice s2 = Revert reason) as [reason Hrev].
    { unfold updateProductPrice.
      destruct (decide (DataProduct.seller (products s2 p) = msg_sender e)).
      - eexists. pass. stop. reflexivity.
      - eexists. stop. reflexivity. }
    split; [eauto|]. unfold transact, Marketplace.call. cbn [fst snd]. by rewrite Hrev.
Qed.

End MarketplaceLedger.

Lemma later_market4 :
  Marketplace.later Scenario.simple_transferFrom Scenario.simple_hash Scenario.market
    Scenario.market1 Scenario.market4.
Proof.
  unfold Scenario.market4, Scenario.market3, Scenario.market2, Scenario.market_call.
  do 3 apply Marketplace.later_call. apply Marketplace.later_refl.
Qed.

Lemma reachable_market1 :
  Marketplace.reachable Scenario.simple_transferFrom Scenario.simple_hash Scenario.market
    Scenario.market1.
Proof.
  exists Scenario.admin, Scenario.token, Scenario.treasury, Scenario.wallets.
  unfold Scenario.market1, Scenario.market_call.
  apply Marketplace.later_call, Marketplace.later_refl.
Qed.

Lemma reachable_market4 :
  Marketplace.reachable Scenario.simple_transferFrom Scenario.simple_hash Scenario.market
    Scenario.market4.
Proof.
  exists Scenario.admin, Scenario.token, Scenario.treasury, Scenario.wallets.
  unfold Scenario.market4, Scenario.market3, Scenario.market2, Scenario.market1,
    Scenario.market_call.
  do 4 apply Marketplace.later_call. apply Marketplace.later_refl.
Qed.

Lemma reachable_catalogue_in_order_witness :
  Marketplace.catalogue_in_order Scenario.market4.1
  ∧ ∀ a, NoDup (Marketplace.getSellerProducts a Scenario.market4.1)
         ∧ ∀ p, p ∈ Marketplace.getSellerProducts a Scenario.market4.1
                ↔ Marketplace.listed Scenario.market4.1 p
                  ∧ Marketplace.DataProduct.seller
                      (Marketplace.products Scenario.market4.1 p) = a.
Proof.
  exact (reachable_catalogue_in_order Scenario.simple_transferFrom Scenario.simple_hash
           Scenario.market Scenario.market4 reachable_market4).
Defined.

Lemma reachable_purchases_in_order_witness :
  Marketplace.purchases_in_order Scenario.market4.1.
Proof.
  exact (proj1 (reachable_purchases_in_order Scenario.simple_transferFrom
                  Scenario.simple_hash Scenario.market Scenario.market4
                  reachable_market4)).
Defined.

Lemma reachable_totalSales_counts_purchases_witness :
  Marketplace.DataProduct.totalSales (Marketplace.products Scenario.market4.1 1)
  = Z.of_nat (length (Marketplace.sales_of Scenario.market4.1 1)).
Proof.
  exact (reachable_totalSales_counts_purchases Scenario.simple_transferFrom
           Scenario.simple_hash Scenario.market Scenario.market4 1 reachable_market4).
Defined.

Lemma reachable_reviews_consistent_witness :
  Marketplace.DataProduct.reviewCount (Marketplace.products Scenario.market4.1 1)
  = Z.of_nat (length (Marketplace.getProductReviews 1 Scenario.market4.1)).
Proof.
  exact (proj1 (reachable_reviews_consistent Scenario.simple_transferFrom
                  Scenario.simple_hash Scenario.market Scenario.market4 1
                  reachable_market4)).
Defined.

Lemma reachable_market1_pair :
  Marketplace.reachable Scenario.simple_transferFrom Scenario.simple_hash Scenario.market
    (Scenario.market1.1, Scenario.market1.2).
Proof. rewrite <- surjective_pairing. apply reachable_market1. Qed.

Lemma purchaseProduct_splits_payment_witness :
  ∃ tok1 b1 b2,
    Scenario.simple_transferFrom Scenario.market Scenario.bob Scenario.alice (1000 - 25)
      Scenario.market1.2 = Ok (tok1, b1)
    ∧ Scenario.simple_transferFrom Scenario.market Scenario.bob Scenario.treasury 25 tok1
      = Ok (Scenario.market2.2, b2).
Proof.
  assert (Marketplace.purchaseProduct Scenario.simple_transferFrom Scenario.simple_hash
            Scenario.market (Scenario.at_time Scenario.bob 0 200) 1
            (Scenario.market1.1, Scenario.market1.2)
          = Ok (Scenario.market2.1, Scenario.market2.2, 1)) as Hbuy
    by (vm_compute; reflexivity).
  exact (proj2 (proj2 (purchaseProduct_splits_payment Scenario.simple_transferFrom
                         Scenario.simple_hash Scenario.market
                         (Scenario.at_time Scenario.bob 0 200) 1
                         Scenario.market1.1 Scenario.market1.2
                         Scenario.market2.1 Scenario.market2.2 1
                         reachable_market1_pair Hbuy))).
Defined.

Lemma listed_product_evolves_witness :
  Marketplace.listed Scenario.market4.1 1
  ∧ Marketplace.product_evolves (Marketplace.products Scenario.market1.1 1)
      (Marketplace.products Scenario.market4.1 1).
Proof.
  assert (Marketplace.listed Scenario.market1.1 1) as Hlisted
    by (apply (bool_decide_unpack _); vm_compute; exact I).
  exact (listed_product_evolves Scenario.simple_transferFrom Scenario.simple_hash
           Scenario.market Scenario.market1 Scenario.market4 1 later_market4 Hlisted).
Defined.

Lemma deactivated_product_stays_off_sale_witness :
  Marketplace.purchaseProduct Scenario.simple_transferFrom Scenario.simple_hash
    Scenario.market (Scenario.at_time Scenario.carol 0 500) 1 Scenario.market4
  = Revert "Product not active".
Proof.
  assert (Marketplace.listed Scenario.market4.1 1) as Hlisted
    by (apply (bool_decide_unpack _); vm_compute; exact I).
  assert (Marketplace.DataProduct.isActive (Marketplace.products Scenario.market4.1 1)
          = false) as Hoff by (vm_compute; reflexivity).
  exact (proj1 (deactivated_product_stays_off_sale Scenario.simple_transferFrom
                  Scenario.simple_hash Scenario.market Scenario.market4 Scenario.market4 1
                  (Scenario.at_time Scenario.carol 0 500)
                  (Marketplace.later_refl _ _ _ _) Hlisted Hoff)).
Defined.

(** ** FederatedLearningCoordinator: rounds, models and nodes *)

Section CoordinatorLedger.
Import Coordinator.
Context {Token : Type}.
Context (transferFrom : address → address → address → Z → Token → result (Token * bool)).
Context (this : address).

(** The counters and the books that an aggregation leaves alone. *)
Lemma aggregateModel_counters e roundId modelHash accuracy s s' :
  aggregateModel e roundId modelHash accuracy s = Ok s' →
  totalRounds s' = totalRounds s + 1
  ∧ modelUpdates s' = modelUpdates s
  ∧ roles s' = roles s.
Proof.
  unfold aggregateModel, onlyRole. intros H. inv_ok.
  match goal with P : _distributeRewards _ _ = Ok _ |- _ =>
    apply _distributeRewards_Ok in P;
    destruct (decide (1 < roundId)); cbn in P; rewrite ?fn_lookup_insert in P; cbn in P
  end.
  all: subst; cbn; case_decide; cbn; split_and!; done.
Qed.

(** The calls that only change a parameter or the roles. *)
Ltac coordinator_admin_call H :=
  unfold updateMinStakeAmount, updateRewardPerParticipant, grantRole, revokeRole,
    renounceRole, onlyRole in H; inv_ok; subst; simpl in *.

(** Opens a call that succeeded: one goal for each entry point (two for a
    validation, accepted and rejected), with the state it produced written
    out, or described by [Hagg] for an aggregation. *)
Ltac coordinator_call H Hagg :=
  match type of H with
  | Coordinator.call _ _ _ ?c (_, _) = Ok (_, _) =>
      let Hret := fresh "Hret" in
      destruct c; unfold Coordinator.call in H; cbn [fst snd] in H;
      [ apply bind_Ok in H as (? & H & Hret); injection Hret as Hret; simplify_eq;
        unfold registerNode in H; inv_ok; simplify_eq; simpl in *
      | unfold startTrainingRound in H; inv_ok; case_decide; inv_ok; simplify_eq; simpl in *
      | apply bind_Ok in H as (? & H & Hret); injection Hret as Hret; simplify_eq;
        unfold submitModelUpdate in H; inv_ok; simplify_eq; simpl in *
      | apply bind_Ok in H as (? & H & Hret); injection Hret as Hret; simplify_eq;
        unfold validateModelUpdate, onlyRole in H; inv_ok;
        match goal with b : bool |- _ => destruct b end; inv_ok; simplify_eq; simpl in *
      | apply bind_Ok in H as (? & H & Hret); injection Hret as Hret; simplify_eq;
        pose proof (aggregateModel_counters _ _ _ _ _ _ H) as Hagg;
        apply aggregateModel_Ok in H; cbv zeta in H
      | apply bind_Ok in H as (? & H & Hret); injection Hret as Hret; simplify_eq;
        coordinator_admin_call H
      | apply bind_Ok in H as (? & H & Hret); injection Hret as Hret; simplify_eq;
        coordinator_admin_call H
      | apply bind_Ok in H as (? & H & Hret); injection Hret as Hret; simplify_eq;
        coordinator_admin_call H
      | apply bind_Ok in H as (? & H & Hret); injection Hret as Hret; simplify_eq;
        coordinator_admin_call H
      | apply bind_Ok in H as (? & H & Hret); injection Hret as Hret; simplify_eq;
        coordinator_admin_call H ]
  end.

(** The rounds stay recorded when a call only rewrites the current round
    with an open round. *)
Lemma rounds_recorded_current s s' round :
  currentRound s' = currentRound s → totalRounds s' = totalRounds s →
  trainingRounds s' = <[currentRound s := round]> (trainingRounds s) →
  TrainingRound.isActive round = true →
  TrainingRound.roundId round = currentRound s →
  0 < TrainingRound.minParticipants round →
  TrainingRound.minParticipants round ≤ TrainingRound.maxParticipants round →
  TrainingRound.startTime round < TrainingRound.endTime round →
  0 ≤ TrainingRound.currentParticipants round →
  TrainingRound.currentParticipants round ≤ TrainingRound.maxParticipants round →
  1 ≤ currentRound s →
  rounds_recorded s → rounds_recorded s'.
Proof.
  intros Hc Ht Hr Hact Hid Hmin Hmax Htime Hcp0 Hcp Hc1
    (Htot & Hcur & Hun & Hop & Hcap & Hclosed).
  unfold rounds_recorded, unopened in *. rewrite Hc, Ht, Hr.
  split_and!; [done|done| | | |].
  - intros r Hr'. at_key (currentRound s) r.
    + rewrite fn_lookup_insert in Hr'. destruct Hr' as [?|[?|[_ ?]]]; [lia|lia|congruence].
    + rewrite fn_lookup_insert_ne in Hr' by done. apply Hun.
      destruct Hr' as [?|[?|[? _]]]; [by left|by right; left|done].
  - intros r Hr'. at_key (currentRound s) r; [done|].
    rewrite fn_lookup_insert_ne in Hr' by done. apply Hop.
    intros [?|[?|[? _]]]; apply Hr'; [by left|by right; left|done].
  - intros r. at_key (currentRound s) r; [done|]. apply Hcap.
  - intros r Hr'. rewrite fn_lookup_insert_ne by lia. by apply Hclosed.
Qed.

Lemma open_round s :
  rounds_recorded s →
  TrainingRound.isActive (trainingRounds s (currentRound s)) = true →
  1 ≤ currentRound s →
  TrainingRound.roundId (trainingRounds s (currentRound s)) = currentRound s
  ∧ 0 < TrainingRound.minParticipants (trainingRounds s (currentRound s))
  ∧ TrainingRound.minParticipants (trainingRounds s (currentRound s))
    ≤ TrainingRound.maxParticipants (trainingRounds s (currentRound s))
  ∧ TrainingRound.startTime (trainingRounds s (currentRound s))
    < TrainingRound.endTime (trainingRounds s (currentRound s)).
Proof.
  intros (_ & _ & _ & Hop & _) Hact Hc1. apply Hop.
  unfold unopened. intros [?|[?|[_ ?]]]; [lia|lia|congruence].
Qed.

(** Only what is registered in the books can be validated: a round in
    which a node participates has been opened. *)
Lemma participant_round_opened s r n :
  rounds_recorded s →
  TrainingRound.participants (trainingRounds s r) n = true → ¬ unopened s r.
Proof.
  intros (_ & _ & Hun & _) Hp Hr. apply Hun in Hr. by rewrite Hr in Hp.
Qed.

Lemma call_rounds_recorded e c s tok s' tok' :
  call transferFrom this e c (s, tok) = Ok (s', tok') →
  rounds_in_order s → rounds_recorded s → rounds_recorded s'.
Proof.
  intros H Hord Hrec. pose proof Hord as (Hc1 & Hopen & _).
  pose proof Hrec as (Htot & Hcur & Hun & Hop & Hcap & Hclosed).
  coordinator_call H Hagg; try done.
  - eapply (rounds_recorded_current s); try done; simpl; lia.
  - eapply (rounds_recorded_current s); try done; simpl; lia.
  - destruct (open_round s) as (? & ? & ? & ?); try done.
    pose proof (Hcap (currentRound s)).
    eapply (rounds_recorded_current s); try done; simpl; lia.
  - pose proof (participant_round_opened _ _ _ Hrec ltac:(eassumption)) as Hopened.
    destruct (Hop _ Hopened) as (? & ? & ? & ?).
    pose proof (Hcap (currentRound s)).
    assert (TrainingRound.isActive (trainingRounds s (currentRound s)) = true) as Hact.
    { destruct (TrainingRound.isActive (trainingRounds s (currentRound s))) eqn:E; [done|].
      destruct Hopened. unfold unopened. by right; right. }
    eapply (rounds_recorded_current s); try done; simpl; lia.
  - destruct H as ((_ & Hact & _ & Hmin & _) & _ & Ht & Hc & _).
    destruct Hagg as (Htot' & _).
    assert (roundId = currentRound s) as -> by auto.
    unfold rounds_recorded, unopened in *. rewrite Hc, Htot', Ht.
    split_and!; [lia|lia| | | |].
    + intros r Hr. destruct (decide (r = currentRound s)) as [->|?]; [lia|].
      rewrite fn_lookup_insert_ne by done. apply Hun.
      rewrite fn_lookup_insert_ne in Hr by done. lia.
    + intros r Hr. at_key (currentRound s) r.
      * apply Hop. intros [?|[?|[_ ?]]]; [lia|lia|congruence].
      * rewrite fn_lookup_insert_ne in Hr by done. apply Hop.
        intros [?|[?|[? _]]]; [apply Hr; by left| |done].
        destruct (decide (r = currentRound s + 1)) as [->|?]; [|apply Hr; right; left; lia].
        apply Hr. right; right. split; [done|].
        destruct (TrainingRound.isActive (trainingRounds s (currentRound s + 1))) eqn:E;
          [|done].
        apply Hopen in E. lia.
    + intros r. at_key (currentRound s) r; apply Hcap.
    + intros r Hr. at_key (currentRound s) r; [done|]. apply Hclosed. lia.
Qed.

(** The models stay recorded when a call leaves them and the closed
    rounds alone. *)
Lemma models_recorded_frame s s' :
  models s' = models s → totalRounds s' = totalRounds s →
  (∀ r, 1 ≤ r ≤ totalRounds s →
        TrainingRound.currentParticipants (trainingRounds s' r)
        = TrainingRound.currentParticipants (trainingRounds s r)) →
  models_recorded s → models_recorded s'.
Proof.
  intros Hm Ht Hcp [Hin Hout]. unfold models_recorded. rewrite Hm, Ht.
  split; [|done]. intros r Hr. rewrite Hcp by done. by apply Hin.
Qed.

Lemma call_models_recorded e c s tok s' tok' :
  call transferFrom this e c (s, tok) = Ok (s', tok') →
  rounds_in_order s → rounds_recorded s → models_recorded s → models_recorded s'.
Proof.
  intros H Hord Hrec Hmod. pose proof Hord as (Hc1 & Hopen & _).
  pose proof Hrec as (Htot & Hcur & _).
  coordinator_call H Hagg; try done.
  - apply (models_recorded_frame s); try done. simpl. intros r Hr.
    by rewrite fn_lookup_insert_ne by lia.
  - apply (models_recorded_frame s); try done. simpl. intros r Hr.
    by rewrite fn_lookup_insert_ne by lia.
  - apply (models_recorded_frame s); try done. simpl. intros r Hr.
    by rewrite fn_lookup_insert_ne by lia.
  - apply (models_recorded_frame s); try done. simpl. intros r Hr.
    by rewrite fn_lookup_insert_ne by lia.
  - destruct H as ((_ & Hact & _ & Hmin & Hhash & Hacc) & Hm & Ht & Hc & _).
    destruct Hagg as (Htot' & _). destruct Hmod as [Hin Hout].
    assert (roundId = currentRound s) as -> by auto.
    unfold models_recorded. rewrite Htot', Hm, Ht. split.
    + intros r Hr. destruct (decide (r = currentRound s)) as [->|Hne].
      * rewrite fn_lookup_insert. simpl.
        assert ((if decide (1 < currentRound s)
                 then <[currentRound s - 1 :=
                          AggregatedModel.set_isActive false
                            (<[currentRound s :=
                                 {| AggregatedModel.modelHash := modelHash;
                                    AggregatedModel.round := currentRound s;
                                    AggregatedModel.timestamp := block_timestamp e;
                                    AggregatedModel.aggregator := msg_sender e;
                                    AggregatedModel.participantCount :=
                                      TrainingRound.currentParticipants
                                        (trainingRounds s (currentRound s));
                                    AggregatedModel.isActive := true;
                                    AggregatedModel.accuracy := accuracy |}]>
                               (models s) (currentRound s - 1))]>
                        (<[currentRound s :=
                             {| AggregatedModel.modelHash := modelHash;
                                AggregatedModel.round := currentRound s;
                                AggregatedModel.timestamp := block_timestamp e;
                                AggregatedModel.aggregator := msg_sender e;
                                AggregatedModel.participantCount :=
                                  TrainingRound.currentParticipants
                                    (trainingRounds s (currentRound s));
                                AggregatedModel.isActive := true;
                                AggregatedModel.accuracy := accuracy |}]> (models s))
                 else <[currentRound s :=
                          {| AggregatedModel.modelHash := modelHash;
                             AggregatedModel.round := currentRound s;
                             AggregatedModel.timestamp := block_timestamp e;
                             AggregatedModel.aggregator := msg_sender e;
                             AggregatedModel.participantCount :=
                               TrainingRound.currentParticipants
                                 (trainingRounds s (currentRound s));
                             AggregatedModel.isActive := true;
                             AggregatedModel.accuracy := accuracy |}]> (models s))
                  (currentRound s)
                = {| AggregatedModel.modelHash := modelHash;
                     AggregatedModel.round := currentRound s;
                     AggregatedModel.timestamp := block_timestamp e;
                     AggregatedModel.aggregator := msg_sender e;
                     AggregatedModel.participantCount :=
                       TrainingRound.currentParticipants (trainingRounds s (currentRound s));
                     AggregatedModel.isActive := true;
                     AggregatedModel.accuracy := accuracy |}) as ->.
        { case_decide.
          - rewrite fn_lookup_insert_ne by lia. by rewrite fn_lookup_insert.
          - by rewrite fn_lookup_insert. }
        simpl. split_and!; try done; try (split; [lia|done]).
      * destruct (Hin r) as (? & ? & ? & ? & Hiff); [lia|].
        case_decide; [|lia].
        destruct (decide (currentRound s - 1 = r)) as [Heq|?].
        -- rewrite <- Heq in *. rewrite fn_lookup_insert.
           rewrite !fn_lookup_insert_ne by lia. simpl.
           split_and!; try done; try (split; [done|lia]).
        -- rewrite !fn_lookup_insert_ne by first [done | lia].
           split_and!; try done; try (rewrite Hiff; lia).
    + intros r Hr. case_decide.
      * rewrite !fn_lookup_insert_ne by lia. apply Hout. lia.
      * rewrite !fn_lookup_insert_ne by lia. apply Hout. lia.
Qed.

Lemma call_participants_recorded e c s tok s' tok' :
  call transferFrom this e c (s, tok) = Ok (s', tok') →
  participants_recorded s → participants_recorded s'.
Proof.
  intros H Hpar r n.
  coordinator_call H Hagg; try done; try apply Hpar.
  - intros Hp. destruct (Hpar r n Hp) as (? & ? & ? & ? & ?).
    split_and!; try done. by at_key (msg_sender e) n.
  - at_key (currentRound s) r; apply Hpar.
  - at_key (currentRound s) r; apply Hpar.
  - at_key (currentRound s) r.
    + at_key (msg_sender e) n; [done|].
      intros Hp. destruct (Hpar _ n Hp) as (? & ? & ? & ? & ?). done.
    + at_key (msg_sender e) n; [|apply Hpar].
      intros Hp. destruct (Hpar r _ Hp) as (? & ? & ? & ? & ?). done.
  - at_key (currentRound s) r.
    + at_key node n; intros Hp; destruct (Hpar _ _ Hp) as (? & ? & ? & ? & ?); done.
    + at_key node n; intros Hp; destruct (Hpar _ _ Hp) as (? & ? & ? & ? & ?); done.
  - intros Hp. destruct (Hpar r n Hp) as (? & ? & ? & ? & ?).
    split_and!; try done. by at_key node n.
  - destruct H as (_ & _ & Ht & _ & Hn & _). rewrite Ht, Hn.
    at_key roundId r; apply Hpar.
Qed.

Lemma call_nodes_recorded e c s tok s' tok' :
  call transferFrom this e c (s, tok) = Ok (s', tok') →
  participants_recorded s → nodes_recorded s → nodes_recorded s'.
Proof.
  intros H Hpar Hnodes n. pose proof (Hnodes n) as (Hzero & Haddr & Hrep & Hcon & Hsr & Htr).
  coordinator_call H Hagg; try done.
  - at_key (msg_sender e) n; [|done]. split_and!; try done; lia.
  - at_key (msg_sender e) n; [|done]. split_and!; try done; try lia. congruence.
  - at_key node n; [|done].
    destruct (Hpar _ _ ltac:(eassumption)) as (Hactive & _).
    split_and!; try done; try lia. congruence.
  - at_key node n; [|done].
    destruct (Hpar _ _ ltac:(eassumption)) as (Hactive & _).
    split_and!; try done; try (case_decide; lia). congruence.
  - destruct H as (_ & _ & _ & _ & Hn & _). by rewrite Hn.
Qed.

Lemma call_coordinator_consistent e c s tok s' tok' :
  call transferFrom this e c (s, tok) = Ok (s', tok') →
  coordinator_consistent s → coordinator_consistent s'.
Proof.
  intros H (Hord & Hrec & Hmod & Hnodes & Hpar). split_and!.
  - by apply (call_rounds_in_order _ _ _ _ _ _ H).
  - by eapply call_rounds_recorded.
  - by eapply call_models_recorded.
  - by eapply call_nodes_recorded.
  - by eapply call_participants_recorded.
Qed.

Lemma reachable_coordinator_consistent s :
  reachable transferFrom this s → coordinator_consistent s.
Proof.
  induction 1 as [deployer token stake reward|e c s tok _ IH].
  - split_and!.
    + apply (reachable_rounds_in_order transferFrom this), reachable_init.
    + unfold rounds_recorded. simpl. split_and!; try done; try lia; try (intros; lia).
      intros r Hr. exfalso. apply Hr. unfold unopened. simpl.
      destruct (decide (r = 1)) as [->|?]; [by right; right|].
      destruct (decide (r < 1)); [by left|right; left; lia].
    + unfold models_recorded. simpl. split; [intros; lia|done].
    + intros n. simpl. split_and!; try done; try lia.
    + intros r n. simpl. done.
  - unfold transact.
    destruct (call transferFrom this e c (s, tok)) as [[s' tok']|] eqn:E; [|done].
    by eapply call_coordinator_consistent.
Qed.

Lemma find_active_model_first n s :
  AggregatedModel.isActive (models s (Z.of_nat (S n))) = true →
  find_active_model (S n) s
  = Ok (AggregatedModel.modelHash (models s (Z.of_nat (S n))),
        AggregatedModel.round (models s (Z.of_nat (S n))),
        AggregatedModel.timestamp (models s (Z.of_nat (S n))),
        AggregatedModel.accuracy (models s (Z.of_nat (S n)))).
Proof. intros Hactive. cbn [find_active_model]. by rewrite Hactive. Qed.

Lemma getCurrentModel_last s :
  1 ≤ totalRounds s →
  AggregatedModel.isActive (models s (totalRounds s)) = true →
  getCurrentModel s
  = Ok (AggregatedModel.modelHash (models s (totalRounds s)),
        AggregatedModel.round (models s (totalRounds s)),
        AggregatedModel.timestamp (models s (totalRounds s)),
        AggregatedModel.accuracy (models s (totalRounds s))).
Proof.
  intros Hone Hactive. unfold getCurrentModel.
  assert (Z.to_nat (totalRounds s) = S (Z.to_nat (totalRounds s - 1))) as Hn by lia.
  assert (Z.of_nat (S (Z.to_nat (totalRounds s - 1))) = totalRounds s) as Hz by lia.
  rewrite Hn. rewrite find_active_model_first; rewrite Hz; done.
Qed.

(** X21: In every state the coordinator can reach, [getCurrentModel] reverts
    with ["No active model found"] as long as no round has been closed, and
    from then on returns the model of the round closed last: its round is
    [totalRounds], its hash is not zero and its accuracy is at most 10000. *)
Theorem reachable_getCurrentModel (s : State) :
  reachable transferFrom this s →
  (totalRounds s = 0 → getCurrentModel s = Revert "No active model found")
  ∧ (1 ≤ totalRounds s →
     getCurrentModel s
     = Ok (AggregatedModel.modelHash (models s (totalRounds s)), totalRounds s,
           AggregatedModel.timestamp (models s (totalRounds s)),
           AggregatedModel.accuracy (models s (totalRounds s)))
     ∧ AggregatedModel.modelHash (models s (totalRounds s)) ≠ 0
     ∧ AggregatedModel.accuracy (models s (totalRounds s)) ≤ 10000).
Proof.
  intros (_ & _ & [Hin _] & _)%reachable_coordinator_consistent. split.
  - intros Hzero. unfold getCurrentModel. by rewrite Hzero.
  - intros Hone. destruct (Hin (totalRounds s)) as (Hround & ? & ? & _ & Hactive); [lia|].
    split_and!; try done.
    rewrite getCurrentModel_last; [|done|by apply Hactive]. by rewrite Hround.
Qed.

(** X22: After an aggregation that succeeded in a state the coordinator can
    reach, [getCurrentModel] returns the model just aggregated; the round
    aggregated was the current round, which is closed; and the next round
    has become the current one, not opened yet. *)
Theorem aggregateModel_then_getCurrentModel (e : Env) (roundId modelHash accuracy : Z)
  (s s' : State) :
  reachable transferFrom this s →
  aggregateModel e roundId modelHash accuracy s = Ok s' →
  getCurrentModel s' = Ok (modelHash, roundId, block_timestamp e, accuracy)
  ∧ roundId = currentRound s
  ∧ totalRounds s' = roundId
  ∧ currentRound s' = roundId + 1
  ∧ TrainingRound.isActive (trainingRounds s' roundId) = false
  ∧ trainingRounds s' (roundId + 1) = TrainingRound.zero.
Proof.
  intros ((Hc1 & Hopen & _) & (Htot & Hcur & Hun & _) & _)%reachable_coordinator_consistent
    H.
  pose proof (aggregateModel_counters _ _ _ _ _ _ H) as (Htot' & _).
  apply aggregateModel_Ok in H. cbv zeta in H.
  destruct H as ((_ & Hact & _) & Hm & Ht & Hc & _).
  assert (roundId = currentRound s) as -> by auto.
  assert (models s' (currentRound s)
          = {| AggregatedModel.modelHash := modelHash;
               AggregatedModel.round := currentRound s;
               AggregatedModel.timestamp := block_timestamp e;
               AggregatedModel.aggregator := msg_sender e;
               AggregatedModel.participantCount :=
                 TrainingRound.currentParticipants (trainingRounds s (currentRound s));
               AggregatedModel.isActive := true;
               AggregatedModel.accuracy := accuracy |}) as Hmodel.
  { rewrite Hm. case_decide.
    - rewrite fn_lookup_insert_ne by lia. by rewrite fn_lookup_insert.
    - by rewrite fn_lookup_insert. }
  assert (totalRounds s' = currentRound s) as Hlast by lia.
  split_and!; try done; try lia.
  - rewrite getCurrentModel_last; rewrite Hlast; [|lia|by rewrite Hmodel].
    by rewrite Hmodel.
  - rewrite Ht. by rewrite fn_lookup_insert.
  - rewrite Ht. rewrite fn_lookup_insert_ne by lia. apply Hun. unfold unopened. lia.
Qed.

(** X23: In every state the coordinator can reach, the rounds are recorded in
    order, and [getTrainingRoundInfo] shows for every round no more
    participants than its capacity, and an open round only for the current
    round, which ends after it starts. *)
Theorem reachable_rounds_recorded (s : State) :
  reachable transferFrom this s →
  rounds_recorded s
  ∧ ∀ r startTime endTime participants capacity open pool,
      getTrainingRoundInfo r s = (startTime, endTime, participants, capacity, open, pool) →
      0 ≤ participants ≤ capacity
      ∧ (open = true → r = currentRound s ∧ startTime < endTime).
Proof.
  intros ((Hc1 & Hopen & _) & Hrec & _)%reachable_coordinator_consistent.
  split; [done|]. destruct Hrec as (_ & _ & _ & Hop & Hcap & _).
  intros r ? ? ? ? ? ? [= <- <- <- <- <- <-]. split; [apply Hcap|].
  intros Hactive. split; [by apply Hopen|].
  pose proof (Hopen r Hactive) as Hcurrent.
  assert (¬ unopened s r) as Hnot.
  { unfold unopened. intros [?|[?|[_ ?]]]; [lia|lia|congruence]. }
  by destruct (Hop r Hnot) as (_ & _ & _ & ?).
Qed.

(** X24: In every state the coordinator can reach, every closed round has one
    model, with the round's id and number of participants, which reached the
    round's quorum of at least one; the model of the round closed last is the
    only active one; and no other round has a model. *)
Theorem reachable_models_recorded (s : State) :
  reachable transferFrom this s →
  models_recorded s
  ∧ ∀ r, 1 ≤ r ≤ totalRounds s →
      0 < TrainingRound.minParticipants (trainingRounds s r)
      ∧ TrainingRound.minParticipants (trainingRounds s r)
        ≤ AggregatedModel.participantCount (models s r).
Proof.
  intros (_ & Hrec & Hmod & _)%reachable_coordinator_consistent.
  split; [done|]. intros r Hr.
  destruct Hrec as (_ & Hcur & _ & Hop & _ & Hclosed). destruct Hmod as [Hin _].
  destruct (Hin r Hr) as (_ & _ & _ & -> & _). destruct (Hclosed r Hr) as [_ Hquorum].
  split; [|done].
  assert (¬ unopened s r) as Hnot by (unfold unopened; lia).
  by destruct (Hop r Hnot) as (_ & ? & _).
Qed.

(** X25: In every state the coordinator can reach, the participants of every
    round are registered nodes whose update the round holds, an address that
    has not registered holds nothing, and [getNodeInfo] shows a reputation
    and a number of contributions that are not negative, and neither a
    successful round nor a reward for any node. *)
Theorem reachable_nodes_recorded (s : State) :
  reachable transferFrom this s →
  nodes_recorded s ∧ participants_recorded s
  ∧ ∀ n, getNodeInfo n s
         = (NodeInfo.reputation (nodes s n), NodeInfo.totalContributions (nodes s n), 0, 0,
            NodeInfo.isActive (nodes s n))
         ∧ 0 ≤ NodeInfo.reputation (nodes s n)
         ∧ 0 ≤ NodeInfo.totalContributions (nodes s n).
Proof.
  intros (_ & _ & _ & Hnodes & Hpar)%reachable_coordinator_consistent.
  split_and!; [done|done|]. intros n.
  destruct (Hnodes n) as (_ & _ & ? & ? & Hsr & Htr).
  unfold getNodeInfo. rewrite Hsr, Htr. done.
Qed.

(** No call takes a node out of a round, unregisters a node or lowers its
    contributions, and a call that leaves the current round where it is
    leaves the participants of every round as they are but for a node that
    joins the current round. *)
Lemma call_node_stays e c s tok s' tok' :
  call transferFrom this e c (s, tok) = Ok (s', tok') →
  (∀ r n, TrainingRound.participants (trainingRounds s r) n = true →
          TrainingRound.participants (trainingRounds s' r) n = true)
  ∧ (∀ n, NodeInfo.isActive (nodes s n) = true →
          NodeInfo.isActive (nodes s' n) = true
          ∧ NodeInfo.nodeAddress (nodes s' n) = NodeInfo.nodeAddress (nodes s n)
          ∧ NodeInfo.totalContributions (nodes s n)
            ≤ NodeInfo.totalContributions (nodes s' n))
  ∧ currentRound s ≤ currentRound s'.
Proof.
  intros H.
  coordinator_call H Hagg; try (split_and!; [done| |lia]; intros n Hn; split_and!; try done; lia).
  - split_and!; [done| |lia]. intros n Hn. at_key (msg_sender e) n; [congruence|].
    split_and!; try done; lia.
  - split_and!; [|intros n Hn; split_and!; try done; lia|lia].
    intros r n. by at_key (currentRound s) r.
  - split_and!; [|intros n Hn; split_and!; try done; lia|lia].
    intros r n. by at_key (currentRound s) r.
  - split_and!; [| |lia].
    + intros r n. at_key (currentRound s) r; [|done]. by at_key (msg_sender e) n.
    + intros n Hn. at_key (msg_sender e) n; split_and!; try done; lia.
  - split_and!; [| |lia].
    + intros r n. by at_key (currentRound s) r.
    + intros n Hn. at_key node n; split_and!; try done; lia.
  - split_and!; [done| |lia].
    intros n Hn. at_key node n; split_and!; try done; lia.
  - destruct H as (_ & _ & Ht & Hc & Hn & _). rewrite Ht, Hc, Hn.
    split_and!; [|intros n ?; split_and!; try done; lia|lia].
    intros r n. by at_key roundId r.
Qed.

Lemma later_node_stays s1 s2 :
  later transferFrom this s1 s2 →
  (∀ r n, TrainingRound.participants (trainingRounds s1 r) n = true →
          TrainingRound.participants (trainingRounds s2 r) n = true)
  ∧ (∀ n, NodeInfo.isActive (nodes s1 n) = true →
          NodeInfo.isActive (nodes s2 n) = true
          ∧ NodeInfo.nodeAddress (nodes s2 n) = NodeInfo.nodeAddress (nodes s1 n)
          ∧ NodeInfo.totalContributions (nodes s1 n)
            ≤ NodeInfo.totalContributions (nodes s2 n))
  ∧ currentRound s1 ≤ currentRound s2.
Proof.
  induction 1 as [s|e c s1 s2 tok _ (IHp & IHn & IHc)].
  - split_and!; [done| |lia]. intros n Hn. split_and!; try done; lia.
  - unfold transact.
    destruct (call transferFrom this e c (s2, tok)) as [[s' tok']|] eqn:E;
      [|by split_and!].
    destruct (call_node_stays _ _ _ _ _ _ E) as (Hp & Hn & Hc). cbn [fst].
    split_and!; [by auto| |lia].
    intros n Hactive. destruct (IHn n Hactive) as (Hactive2 & ? & ?).
    destruct (Hn n Hactive2) as (? & ? & ?). split_and!; [done|congruence|lia].
Qed.

(** X26: A node contributes to a round once: after its update has been
    accepted by [submitModelUpdate], each further update it submits, in any
    later state in which the round is still the current one, reverts and
    leaves the coordinator and the token as they were. *)
Theorem submitModelUpdate_once_per_round (e e2 : Env) (updateHash gradientHash : Z)
  (updateHash2 gradientHash2 : Z) (s s1 s2 : State) (tok : Token) :
  submitModelUpdate e updateHash gradientHash s = Ok s1 →
  later transferFrom this s1 s2 →
  currentRound s2 = currentRound s →
  msg_sender e2 = msg_sender e →
  (∃ reason, submitModelUpdate e2 updateHash2 gradientHash2 s2 = Revert reason)
  ∧ transact (call transferFrom this e2 (SubmitModelUpdate updateHash2 gradientHash2))
      (s2, tok) = (s2, tok).
Proof.
  intros H Hlater Hround Hsender.
  assert (TrainingRound.participants (trainingRounds s1 (currentRound s)) (msg_sender e)
          = true) as Hin.
  { unfold submitModelUpdate in H. inv_ok. subst s1. simpl.
    rewrite fn_lookup_insert. simpl. by rewrite fn_lookup_insert. }
  destruct (later_node_stays _ _ Hlater) as (Hstays & _).
  apply Hstays in Hin.
  assert (∃ reason, submitModelUpdate e2 updateHash2 gradientHash2 s2 = Revert reason)
    as [reason Hrev].
  { destruct (submitModelUpdate e2 updateHash2 gradientHash2 s2) as [s3|reason] eqn:E;
      [|eauto].
    unfold submitModelUpdate in E. inv_ok.
    match goal with Hfree : TrainingRound.participants _ _ = false |- _ =>
      rewrite Hround, Hsender in Hfree; congruence end. }
  split; [eauto|]. unfold transact, call. cbn [fst snd]. by rewrite Hrev.
Qed.

(** X27: A registered node stays registered under its address whatever is
    called afterwards, its contributions never go down, and it cannot
    register again. *)
Theorem registered_node_stays_registered (s1 s2 : State) (n : address) (e : Env) :
  later transferFrom this s1 s2 →
  NodeInfo.isActive (nodes s1 n) = true →
  NodeInfo.isActive (nodes s2 n) = true
  ∧ NodeInfo.nodeAddress (nodes s2 n) = NodeInfo.nodeAddress (nodes s1 n)
  ∧ NodeInfo.totalContributions (nodes s1 n) ≤ NodeInfo.totalContributions (nodes s2 n)
  ∧ (msg_sender e = n → registerNode e s2 = Revert "Node already registered").
Proof.
  intros Hlater Hactive.
  destruct (later_node_stays _ _ Hlater) as (_ & Hnodes & _).
  destruct (Hnodes n Hactive) as (Hactive2 & ? & ?).
  split_and!; try done.
  intros Hsender. unfold registerNode. rewrite Hsender. stop. done.
Qed.

(** X28: A round opened in a state the coordinator can reach is the current
    round; it starts with the given times, quorum, capacity and pool, without
    participants, so that every node may still join; the pool, when there is
    one, has been transferred from the caller to the coordinator, and
    otherwise the token is left alone; and no round can be opened while this
    one is open. *)
Theorem startTrainingRound_opens_fresh_round (e : Env)
  (duration minParticipants maxParticipants rewardPool : Z)
  (s : State) (tok : Token) (s' : State) (tok' : Token) :
  reachable transferFrom this s →
  startTrainingRound transferFrom this e duration minParticipants maxParticipants rewardPool
    (s, tok) = Ok (s', tok') →
  currentRound s' = currentRound s
  ∧ getTrainingRoundInfo (currentRound s) s'
    = (block_timestamp e, block_timestamp e + duration, 0, maxParticipants, true, rewardPool)
  ∧ TrainingRound.minParticipants (trainingRounds s' (currentRound s)) = minParticipants
  ∧ (∀ n, TrainingRound.participants (trainingRounds s' (currentRound s)) n = false)
  ∧ (0 < rewardPool →
     ∃ b, transferFrom this (msg_sender e) this rewardPool tok = Ok (tok', b))
  ∧ (rewardPool ≤ 0 → tok' = tok)
  ∧ ∀ e2 duration2 minParticipants2 maxParticipants2 rewardPool2 tok2,
      ∃ reason,
        startTrainingRound transferFrom this e2 duration2 minParticipants2 maxParticipants2
          rewardPool2 (s', tok2) = Revert reason.
Proof.
  intros (_ & (_ & _ & Hun & _) & _)%reachable_coordinator_consistent H.
  assert (TrainingRound.isActive (trainingRounds s' (currentRound s')) = true) as Hopen.
  { unfold startTrainingRound in H. inv_ok. case_decide; inv_ok; simplify_eq; simpl;
      by rewrite fn_lookup_insert. }
  assert (∀ e2 duration2 minParticipants2 maxParticipants2 rewardPool2 tok2,
            ∃ reason,
              startTrainingRound transferFrom this e2 duration2 minParticipants2
                maxParticipants2 rewardPool2 (s', tok2) = Revert reason) as Hagain.
  { intros e2 d2 mn2 mx2 p2 tok2.
    destruct (startTrainingRound transferFrom this e2 d2 mn2 mx2 p2 (s', tok2))
      as [w|reason] eqn:E; [|eauto].
    unfold startTrainingRound in E. inv_ok. congruence. }
  assert (trainingRounds s (currentRound s) = TrainingRound.zero) as Hfresh.
  { apply Hun. unfold unopened. right; right. split; [done|].
    unfold startTrainingRound in H. by inv_ok. }
  split_and!; [..|exact Hagain]; clear Hagain Hopen;
    unfold startTrainingRound in H; inv_ok; case_decide; inv_ok; simplify_eq;
    unfold getTrainingRoundInfo; simpl in *; rewrite ?fn_lookup_insert; simpl;
    rewrite ?Hfresh; simpl; try done; try lia.
  intros _. match goal with p : (Token * bool)%type |- _ => destruct p as [tok1 b] end.
  simpl. eauto.
Qed.

Lemma _distributeRewards_is_ok roundId s :
  is_ok (_distributeRewards roundId s)
  ↔ is_ok (count_participants
             (Z.to_nat (TrainingRound.currentParticipants (trainingRounds s roundId))) 0).
Proof.
  unfold _distributeRewards.
  destruct (count_participants _ 0) as [v|reason]; simpl; [|done].
  case_decide; [|done]. unfold checked_div. case_decide; [lia|done].
Qed.

(** When an aggregation succeeds: exactly when the call carries no ether,
    the caller is an aggregator, the round is open, has ended and has its
    quorum, the hash is not zero, the accuracy is at most 10000, and the
    counters do not overflow. *)
Lemma aggregateModel_is_ok e roundId modelHash accuracy s :
  is_ok (aggregateModel e roundId modelHash accuracy s)
  ↔ msg_value e = 0
    ∧ hasRole AGGREGATOR_ROLE (msg_sender e) s = true
    ∧ TrainingRound.isActive (trainingRounds s roundId) = true
    ∧ TrainingRound.endTime (trainingRounds s roundId) < block_timestamp e
    ∧ TrainingRound.minParticipants (trainingRounds s roundId)
      ≤ TrainingRound.currentParticipants (trainingRounds s roundId)
    ∧ modelHash ≠ 0
    ∧ accuracy ≤ 10000
    ∧ is_ok (count_participants
               (Z.to_nat (TrainingRound.currentParticipants (trainingRounds s roundId))) 0)
    ∧ currentRound s + 1 ≤ MAX_UINT256
    ∧ totalRounds s + 1 ≤ MAX_UINT256.
Proof.
  split.
  - destruct (aggregateModel e roundId modelHash accuracy s) as [s'|reason] eqn:E; [|done].
    intros _. unfold aggregateModel, onlyRole in E. inv_ok.
    match goal with P : _distributeRewards ?r ?st = Ok _ |- _ =>
      assert (is_ok (count_participants
                       (Z.to_nat (TrainingRound.currentParticipants (trainingRounds st r)))
                       0)) as Hcount
        by (apply _distributeRewards_is_ok; by rewrite P);
      apply _distributeRewards_Ok in P;
      destruct (decide (1 < roundId)); cbn in P, Hcount;
      rewrite ?fn_lookup_insert in P, Hcount; cbn in P, Hcount
    end.
    all: subst; repeat case_decide; cbn in *; split_and!; done.
  - intros (Hval & Hrole & Hact & Hend & Hmin & Hhash & Hacc & Hcount & Hcur & Htot).
    unfold aggregateModel, nonpayable, onlyRole.
    do 7 (apply is_ok_bind; [by apply is_ok_require | intros [] _]).
    apply is_ok_bind.
    { apply _distributeRewards_is_ok.
      destruct (decide (1 < roundId)); cbn; rewrite fn_lookup_insert; cbn; done. }
    intros s1 E. apply _distributeRewards_Ok in E. subst s1.
    destruct (decide (1 < roundId)); cbn; rewrite ?fn_lookup_insert; cbn;
      case_decide; cbn;
      (apply is_ok_bind; [apply is_ok_checked_add; lia | intros ? _]);
      (apply is_ok_bind; [apply is_ok_checked_add; lia | intros ? _]); done.
Qed.

(** X29: Validation has no part in aggregation: whether [aggregateModel]
    succeeds is the same before and after any [validateModelUpdate], accepted
    or rejected. *)
Theorem validateModelUpdate_never_gates_aggregation (e e2 : Env) (node : address)
  (isValid : bool) (roundId modelHash accuracy : Z) (s s' : State) :
  validateModelUpdate e node isValid s = Ok s' →
  is_ok (aggregateModel e2 roundId modelHash accuracy s')
  ↔ is_ok (aggregateModel e2 roundId modelHash accuracy s).
Proof.
  intros H. rewrite !aggregateModel_is_ok.
  unfold validateModelUpdate, onlyRole in H. inv_ok.
  destruct isValid; inv_ok; subst s'; simpl; [|done].
  unfold hasRole. simpl. by at_key (currentRound s) roundId.
Qed.

End CoordinatorLedger.

Lemma reachable_nodes_registered :
  Coordinator.reachable Scenario.simple_transferFrom Scenario.coordinator
    Scenario.nodes_registered.1.
Proof.
  unfold Scenario.nodes_registered, Scenario.coordinator_call.
  do 3 apply reachable_call_pair. apply Coordinator.reachable_init.
Qed.

Lemma reachable_round_open :
  Coordinator.reachable Scenario.simple_transferFrom Scenario.coordinator
    Scenario.round_open.1.
Proof.
  unfold Scenario.round_open, Scenario.coordinator_call.
  do 6 apply reachable_call_pair. apply Coordinator.reachable_init.
Qed.

Lemma reachable_round_closed :
  Coordinator.reachable Scenario.simple_transferFrom Scenario.coordinator
    Scenario.round_closed.1.
Proof.
  unfold Scenario.round_closed, Scenario.coordinator_call.
  apply reachable_call_pair, reachable_round_open.
Qed.

Lemma reachable_getCurrentModel_witness :
  Coordinator.getCurrentModel Scenario.round_closed.1 = Ok (99, 1, 1101, 9000).
Proof.
  assert (1 ≤ Coordinator.totalRounds Scenario.round_closed.1) as Hone
    by (vm_compute; discriminate).
  pose proof (proj1 (proj2 (reachable_getCurrentModel Scenario.simple_transferFrom
                              Scenario.coordinator Scenario.round_closed.1
                              reachable_round_closed) Hone)) as Hmodel.
  etransitivity; [exact Hmodel|]. vm_compute. reflexivity.
Defined.

Lemma aggregateModel_then_getCurrentModel_witness :
  Coordinator.getCurrentModel Scenario.round_closed.1 = Ok (99, 1, 1101, 9000).
Proof.
  assert (Coordinator.aggregateModel (Scenario.at_time Scenario.admin 0 1101) 1 99 9000
            Scenario.round_open.1 = Ok Scenario.round_closed.1) as Hcall
    by (vm_compute; reflexivity).
  exact (proj1 (aggregateModel_then_getCurrentModel Scenario.simple_transferFrom
                  Scenario.coordinator (Scenario.at_time Scenario.admin 0 1101) 1 99 9000
                  Scenario.round_open.1 Scenario.round_closed.1
                  reachable_round_open Hcall)).
Defined.

Lemma reachable_rounds_recorded_witness :
  Coordinator.rounds_recorded Scenario.round_closed.1.
Proof.
  exact (proj1 (reachable_rounds_recorded Scenario.simple_transferFrom
                  Scenario.coordinator Scenario.round_closed.1 reachable_round_closed)).
Defined.

Lemma reachable_models_recorded_witness :
  Coordinator.models_recorded Scenario.round_closed.1.
Proof.
  exact (proj1 (reachable_models_recorded Scenario.simple_transferFrom
                  Scenario.coordinator Scenario.round_closed.1 reachable_round_closed)).
Defined.

Lemma reachable_nodes_recorded_witness :
  Coordinator.nodes_recorded Scenario.round_closed.1.
Proof.
  exact (proj1 (reachable_nodes_recorded Scenario.simple_transferFrom
                  Scenario.coordinator Scenario.round_closed.1 reachable_round_closed)).
Defined.

Lemma later_round_open :
  Coordinator.later Scenario.simple_transferFrom Scenario.coordinator
    Scenario.alice_joined.1 Scenario.round_open.1.
Proof.
  unfold Scenario.round_open, Scenario.coordinator_call.
  apply later_call_pair. apply Coordinator.later_refl.
Qed.

Lemma submitModelUpdate_once_per_round_witness :
  ∃ reason,
    Coordinator.submitModelUpdate (Scenario.at_time Scenario.alice 10 1070) 31 32
      Scenario.round_open.1 = Revert reason.
Proof.
  assert (Coordinator.submitModelUpdate (Scenario.at_time Scenario.alice 10 1040) 11 12
            Scenario.round_started.1 = Ok Scenario.alice_joined.1) as Hcall
    by (vm_compute; reflexivity).
  assert (Coordinator.currentRound Scenario.round_open.1
          = Coordinator.currentRound Scenario.round_started.1) as Hround
    by (vm_compute; reflexivity).
  exact (proj1 (submitModelUpdate_once_per_round Scenario.simple_transferFrom
                  Scenario.coordinator
                  (Scenario.at_time Scenario.alice 10 1040)
                  (Scenario.at_time Scenario.alice 10 1070) 11 12 31 32
                  Scenario.round_started.1 Scenario.alice_joined.1 Scenario.round_open.1
                  Scenario.round_open.2 Hcall later_round_open Hround eq_refl)).
Defined.

Lemma later_round_closed :
  Coordinator.later Scenario.simple_transferFrom Scenario.coordinator
    Scenario.round_open.1 Scenario.round_closed.1.
Proof.
  unfold Scenario.round_closed, Scenario.coordinator_call.
  apply later_call_pair. apply Coordinator.later_refl.
Qed.

Lemma registered_node_stays_registered_witness :
  Coordinator.NodeInfo.isActive
    (Coordinator.nodes Scenario.round_closed.1 Scenario.alice) = true.
Proof.
  assert (Coordinator.NodeInfo.isActive
            (Coordinator.nodes Scenario.round_open.1 Scenario.alice) = true) as Hactive
    by (vm_compute; reflexivity).
  exact (proj1 (registered_node_stays_registered Scenario.simple_transferFrom
                  Scenario.coordinator Scenario.round_open.1 Scenario.round_closed.1
                  Scenario.alice (Scenario.at_time Scenario.alice 0 1200)
                  later_round_closed Hactive)).
Defined.

Lemma startTrainingRound_opens_fresh_round_witness :
  Coordinator.getTrainingRoundInfo 1 Scenario.round_started.1
  = (1000, 1100, 0, 5, true, 1000).
Proof.
  assert (Coordinator.startTrainingRound Scenario.simple_transferFrom Scenario.coordinator
            (Scenario.at_time Scenario.admin 0 1000) 100 2 5 1000
            (Scenario.nodes_registered.1, Scenario.nodes_registered.2)
          = Ok (Scenario.round_started.1, Scenario.round_started.2)) as Hcall
    by (vm_compute; reflexivity).
  pose proof (proj1 (proj2 (startTrainingRound_opens_fresh_round
                              Scenario.simple_transferFrom Scenario.coordinator
                              (Scenario.at_time Scenario.admin 0 1000) 100 2 5 1000
                              Scenario.nodes_registered.1 Scenario.nodes_registered.2
                              Scenario.round_started.1 Scenario.round_started.2
                              reachable_nodes_registered Hcall))) as Hinfo.
  etransitivity; [|exact Hinfo]. vm_compute. reflexivity.
Defined.

Lemma validateModelUpdate_never_gates_aggregation_witness :
  is_ok (Coordinator.aggregateModel (Scenario.at_time Scenario.admin 0 1101) 1 99 9000
           Scenario.alice_rejected.1)
  ↔ is_ok (Coordinator.aggregateModel (Scenario.at_time Scenario.admin 0 1101) 1 99 9000
             Scenario.round_open.1).
Proof.
  assert (Coordinator.validateModelUpdate (Scenario.at_time Scenario.admin 0 1060)
            Scenario.alice false Scenario.round_open.1 = Ok Scenario.alice_rejected.1)
    as Hcall by (vm_compute; reflexivity).
  exact (validateModelUpdate_never_gates_aggregation
           (Scenario.at_time Scenario.admin 0 1060) (Scenario.at_time Scenario.admin 0 1101)
           Scenario.alice false 1 99 9000 Scenario.round_open.1 Scenario.alice_rejected.1
           Hcall).
Defined.

